(** * Barberflow frontend: conversation state machine, voice activity
    detection and speech text cleaning

    A shallow embedding of three modules of the client:

    - [hooks/useConversationState.js]: the reducer [conversationReducer] and
      the guarded callbacks the hook builds around [dispatch];
    - [utils/voiceActivityDetection]: the per-frame analysis of class
      [VoiceActivityDetection];
    - [utils/textProcessor]: [cleanMarkdownForSpeech] and
      [hasMarkdownSyntax], over a small model of the regular expressions
      they use.

    Clock readings ([Date.now()]) are inputs of the functions that take
    them; callbacks and timers are recorded as traces of events. *)

From Stdlib Require Import ZArith List Bool Lia String Ascii NArith.
From Stdlib Require Import Floats.
From stdpp Require Import base option gmap strings.

Local Open Scope Z_scope.

(* ===================================================================== *)
(** * Part I: the conversation reducer                                    *)
(* ===================================================================== *)

Module Conversation.

(** [CONVERSATION_STATES] *)
Inductive conv_state : Type :=
  | IDLE | LISTENING | PROCESSING | SPEAKING | INTERRUPTED | ERROR.

(** [CONVERSATION_MODES] *)
Inductive conv_mode : Type :=
  | MODE_IDLE | CONVERSATIONAL.

#[global] Instance conv_state_eq_dec : EqDecision conv_state.
Proof. solve_decision. Defined.

#[global] Instance conv_mode_eq_dec : EqDecision conv_mode.
Proof. solve_decision. Defined.

(** A session identifier is either the one carried by the action or the
    template string [`session_${timestamp}`] built by the reducer. *)
Inductive session_id : Type :=
  | SessionGiven (s : string)
  | SessionAt (timestamp : Z).

(** The state object of the reducer.  [null] is [None]. *)
Record state : Type := mkState {
  mode : conv_mode;
  currentState : conv_state;
  isActive : bool;
  canInterrupt : bool;
  sessionId : option session_id;
  startTime : option Z;
  lastActivity : option Z;
  exchangeCount : Z;
  error : option string;
  metadata : gmap string string;
}.

Definition initialState : state := {|
  mode := MODE_IDLE;
  currentState := IDLE;
  isActive := false;
  canInterrupt := false;
  sessionId := None;
  startTime := None;
  lastActivity := None;
  exchangeCount := 0;
  error := None;
  metadata := ∅;
|}.

(** Actions, with the optional payload fields the reducer reads.  A payload
    field that is absent (or the whole payload) is [None]. *)
Inductive action : Type :=
  | START_CONVERSATION (payload_sessionId : option string)
                       (payload_metadata : option (gmap string string))
  | END_CONVERSATION
  | START_LISTENING
  | SPEECH_DETECTED
  | START_PROCESSING
  | START_SPEAKING
  | FINISH_SPEAKING
  | INTERRUPT_SPEAKING
  | ERROR_OCCURRED (payload_error : option string)
  | RESET_ERROR
  | UPDATE_SESSION (payload_metadata : option (gmap string string))
  | UNKNOWN_ACTION (type : string).

(** [x || d] on an optional string: the empty string is falsy too. *)
Definition string_or (x : option string) (d : string) : string :=
  match x with
  | Some s => if decide (s = EmptyString) then d else s
  | None => d
  end.

Definition session_or (x : option string) (timestamp : Z) : session_id :=
  match x with
  | Some s => if decide (s = EmptyString) then SessionAt timestamp
              else SessionGiven s
  | None => SessionAt timestamp
  end.

(** [{ ...a, ...b }]: the keys of [b] win. *)
Definition spread (a : gmap string string) (b : option (gmap string string))
  : gmap string string :=
  match b with
  | Some m => m ∪ a
  | None => a
  end.

(** [returnState s] is the conditional of FINISH_SPEAKING and RESET_ERROR. *)
Definition returnState (s : state) : conv_state :=
  if decide (mode s = CONVERSATIONAL) then LISTENING else IDLE.

(** [conversationReducer]; [timestamp] is the value of [Date.now()] read on
    entry. *)
Definition conversationReducer (timestamp : Z) (s : state) (a : action)
  : state :=
  match a with
  | START_CONVERSATION sid md =>
      {| mode := CONVERSATIONAL;
         currentState := LISTENING;
         isActive := true;
         canInterrupt := canInterrupt s;
         sessionId := Some (session_or sid timestamp);
         startTime := Some timestamp;
         lastActivity := Some timestamp;
         exchangeCount := 0;
         error := None;
         metadata := default ∅ md |}
  | END_CONVERSATION =>
      {| mode := MODE_IDLE;
         currentState := IDLE;
         isActive := false;
         canInterrupt := false;
         sessionId := None;
         startTime := None;
         lastActivity := Some timestamp;
         exchangeCount := exchangeCount s;
         error := None;
         metadata := metadata s |}
  | START_LISTENING =>
      {| mode := mode s;
         currentState := LISTENING;
         isActive := isActive s;
         canInterrupt := false;
         sessionId := sessionId s;
         startTime := startTime s;
         lastActivity := Some timestamp;
         exchangeCount := exchangeCount s;
         error := None;
         metadata := metadata s |}
  | SPEECH_DETECTED =>
      {| mode := mode s;
         currentState := PROCESSING;
         isActive := isActive s;
         canInterrupt := canInterrupt s;
         sessionId := sessionId s;
         startTime := startTime s;
         lastActivity := Some timestamp;
         exchangeCount := exchangeCount s;
         error := error s;
         metadata := metadata s |}
  | START_PROCESSING =>
      {| mode := mode s;
         currentState := PROCESSING;
         isActive := isActive s;
         canInterrupt := false;
         sessionId := sessionId s;
         startTime := startTime s;
         lastActivity := Some timestamp;
         exchangeCount := exchangeCount s;
         error := error s;
         metadata := metadata s |}
  | START_SPEAKING =>
      {| mode := mode s;
         currentState := SPEAKING;
         isActive := isActive s;
         canInterrupt := true;
         sessionId := sessionId s;
         startTime := startTime s;
         lastActivity := Some timestamp;
         exchangeCount := exchangeCount s + 1;
         error := error s;
         metadata := metadata s |}
  | FINISH_SPEAKING =>
      {| mode := mode s;
         currentState := returnState s;
         isActive := isActive s;
         canInterrupt := false;
         sessionId := sessionId s;
         startTime := startTime s;
         lastActivity := Some timestamp;
         exchangeCount := exchangeCount s;
         error := error s;
         metadata := metadata s |}
  | INTERRUPT_SPEAKING =>
      {| mode := mode s;
         currentState := INTERRUPTED;
         isActive := isActive s;
         canInterrupt := false;
         sessionId := sessionId s;
         startTime := startTime s;
         lastActivity := Some timestamp;
         exchangeCount := exchangeCount s;
         error := error s;
         metadata := metadata s |}
  | ERROR_OCCURRED e =>
      {| mode := mode s;
         currentState := ERROR;
         isActive := isActive s;
         canInterrupt := false;
         sessionId := sessionId s;
         startTime := startTime s;
         lastActivity := Some timestamp;
         exchangeCount := exchangeCount s;
         error := Some (string_or e "Unknown error occurred");
         metadata := metadata s |}
  | RESET_ERROR =>
      {| mode := mode s;
         currentState := returnState s;
         isActive := isActive s;
         canInterrupt := canInterrupt s;
         sessionId := sessionId s;
         startTime := startTime s;
         lastActivity := Some timestamp;
         exchangeCount := exchangeCount s;
         error := None;
         metadata := metadata s |}
  | UPDATE_SESSION md =>
      {| mode := mode s;
         currentState := currentState s;
         isActive := isActive s;
         canInterrupt := canInterrupt s;
         sessionId := sessionId s;
         startTime := startTime s;
         lastActivity := Some timestamp;
         exchangeCount := exchangeCount s;
         error := error s;
         metadata := spread (metadata s) md |}
  | UNKNOWN_ACTION _ => s
  end.

(** ** The hook's callbacks

    [useConversationState] wraps [dispatch] in callbacks, some of them
    guarded by the state of the current render.  A callback is modelled by
    the state it leaves and the timer operations it performs. *)

Record config : Type := mkConfig {
  autoReturnToListening : bool;
  errorTimeout : Z;
  sessionTimeout : Z;
  maxExchanges : Z;
}.

(** Timer operations of the callbacks: which callback is scheduled and
    after how many milliseconds, and which timer references are cleared. *)
Inductive timer_op : Type :=
  | SetTimeout (delay : Z) (callback : action)
  | ClearErrorTimeout
  | ClearSessionTimeout.

Definition endConversation (timestamp : Z) (s : state)
  : state * list timer_op :=
  (conversationReducer timestamp s END_CONVERSATION,
   [ClearErrorTimeout; ClearSessionTimeout]).

Definition startListening (timestamp : Z) (s : state)
  : state * list timer_op :=
  (conversationReducer timestamp s START_LISTENING, []).

Definition onSpeechDetected (timestamp : Z) (s : state)
  : state * list timer_op :=
  if decide (currentState s = LISTENING)
  then (conversationReducer timestamp s SPEECH_DETECTED, [])
  else (s, []).

Definition startSpeaking (cfg : config) (timestamp : Z) (s : state)
  : state * list timer_op :=
  if (0 <? maxExchanges cfg) && (maxExchanges cfg <=? exchangeCount s)
  then endConversation timestamp s
  else (conversationReducer timestamp s START_SPEAKING, []).

Definition finishSpeaking (timestamp : Z) (s : state)
  : state * list timer_op :=
  (conversationReducer timestamp s FINISH_SPEAKING, []).

Definition interruptSpeaking (cfg : config) (timestamp : Z) (s : state)
  : state * list timer_op :=
  if canInterrupt s
  then (conversationReducer timestamp s INTERRUPT_SPEAKING,
        if autoReturnToListening cfg
        then [SetTimeout 100 START_LISTENING] else [])
  else (s, []).

(** [setError]; [err] is [error?.message || error], absent when falsy. *)
Definition setError (cfg : config) (timestamp : Z) (err : option string)
  (s : state) : state * list timer_op :=
  (conversationReducer timestamp s
     (ERROR_OCCURRED (Some (string_or err "Unknown error"))),
   if 0 <? errorTimeout cfg
   then [SetTimeout (errorTimeout cfg) RESET_ERROR] else []).

Definition clearError (timestamp : Z) (s : state)
  : state * list timer_op :=
  (conversationReducer timestamp s RESET_ERROR, [ClearErrorTimeout]).

(** The utility [canInterrupt()] returned by the hook. *)
Definition canInterruptNow (s : state) : bool :=
  canInterrupt s && bool_decide (currentState s = SPEAKING).

(** A dispatched action together with the clock reading of the reducer call
    that handles it. *)
Definition run (s : state) (l : list (Z * action)) : state :=
  fold_left (fun st ta => conversationReducer (fst ta) st (snd ta)) l s.

(** The guard of [onSpeechDetected], as a condition on a dispatch. *)
Definition guard_ok (s : state) (a : action) : bool :=
  match a with
  | SPEECH_DETECTED => bool_decide (currentState s = LISTENING)
  | _ => true
  end.

(** A stricter discipline: moreover the two actions that copy
    [canInterrupt] and leave the speaking state are not dispatched while
    speaking. *)
Definition guard_strict (s : state) (a : action) : bool :=
  match a with
  | SPEECH_DETECTED => bool_decide (currentState s = LISTENING)
  | RESET_ERROR | START_CONVERSATION _ _ =>
      negb (bool_decide (currentState s = SPEAKING))
  | _ => true
  end.

(** States reached from [initialState] by dispatches that respect a
    guard. *)
Inductive reachable (guard : state -> action -> bool) : state -> Prop :=
  | reach_init : reachable guard initialState
  | reach_step s t a :
      reachable guard s -> guard s a = true ->
      reachable guard (conversationReducer t s a).

(** ** The other callbacks, and the hook as a transition system *)

(** [startConversation(metadata)]; [suffix] stands for what the clock and
    the random number contribute to the identifier after [session_], and
    [md] is the argument, absent when the default [{}] applies. *)
Definition startConversation (cfg : config) (timestamp : Z) (suffix : string)
  (md : option (gmap string string)) (s : state) : state * list timer_op :=
  (conversationReducer timestamp s
     (START_CONVERSATION (Some (String.append "session_" suffix))
                         (Some (default ∅ md))),
   if 0 <? sessionTimeout cfg
   then [SetTimeout (sessionTimeout cfg) END_CONVERSATION] else []).

Definition startProcessing (timestamp : Z) (s : state)
  : state * list timer_op :=
  (conversationReducer timestamp s START_PROCESSING, []).

Definition updateSession (timestamp : Z) (md : option (gmap string string))
  (s : state) : state * list timer_op :=
  (conversationReducer timestamp s (UPDATE_SESSION md), []).

(** [getStats()], the numeric part; [now] is its clock reading.  A start
    time of [null] or [0] is falsy. *)
Definition truthyTime (t : option Z) : bool :=
  match t with
  | Some n => negb (n =? 0)
  | None => false
  end.

Definition statsDuration (now : Z) (s : state) : Z :=
  if truthyTime (startTime s) then now - default 0 (startTime s) else 0.

(** [handleInterrupt] of the [CallPreview] component, as far as the
    conversation state goes: it consults [canInterrupt()] before it calls
    [interruptSpeaking]. *)
Definition handleInterrupt (cfg : config) (timestamp : Z) (s : state)
  : state * list timer_op :=
  if canInterruptNow s then interruptSpeaking cfg timestamp s else (s, []).

(** What can happen to the hook: a call of one of its callbacks, or the
    firing of one of the timers it sets (the return to listening after an
    interruption, the reset of an error, the end of the session). *)
Inductive call : Type :=
  | CallStartConversation (suffix : string)
                          (md : option (gmap string string))
  | CallEndConversation
  | CallStartListening
  | CallOnSpeechDetected
  | CallStartProcessing
  | CallStartSpeaking
  | CallFinishSpeaking
  | CallInterruptSpeaking
  | CallSetError (err : option string)
  | CallClearError
  | CallUpdateSession (md : option (gmap string string))
  | TimerStartListening
  | TimerResetError
  | TimerEndConversation.

Definition callHook (cfg : config) (timestamp : Z) (c : call) (s : state)
  : state * list timer_op :=
  match c with
  | CallStartConversation suffix md =>
      startConversation cfg timestamp suffix md s
  | CallEndConversation => endConversation timestamp s
  | CallStartListening => startListening timestamp s
  | CallOnSpeechDetected => onSpeechDetected timestamp s
  | CallStartProcessing => startProcessing timestamp s
  | CallStartSpeaking => startSpeaking cfg timestamp s
  | CallFinishSpeaking => finishSpeaking timestamp s
  | CallInterruptSpeaking => interruptSpeaking cfg timestamp s
  | CallSetError err => setError cfg timestamp err s
  | CallClearError => clearError timestamp s
  | CallUpdateSession md => updateSession timestamp md s
  | TimerStartListening => startListening timestamp s
  | TimerResetError =>
      (conversationReducer timestamp s RESET_ERROR, [])
  | TimerEndConversation => endConversation timestamp s
  end.

(** A callback is created in a render and closes over that render's
    [state]; its [dispatch] is reduced from the state the earlier dispatches
    have left.  [callWith] is a call whose guard reads the snapshot [snap]
    while its action is applied to [cur].  Only [onSpeechDetected],
    [startSpeaking] and [interruptSpeaking] read the state. *)
Definition callWith (cfg : config) (timestamp : Z) (c : call)
  (snap cur : state) : state * list timer_op :=
  match c with
  | CallOnSpeechDetected =>
      if decide (currentState snap = LISTENING)
      then (conversationReducer timestamp cur SPEECH_DETECTED, [])
      else (cur, [])
  | CallStartSpeaking =>
      if (0 <? maxExchanges cfg) && (maxExchanges cfg <=? exchangeCount snap)
      then endConversation timestamp cur
      else (conversationReducer timestamp cur START_SPEAKING, [])
  | CallInterruptSpeaking =>
      if canInterrupt snap
      then (conversationReducer timestamp cur INTERRUPT_SPEAKING,
            if autoReturnToListening cfg
            then [SetTimeout 100 START_LISTENING] else [])
      else (cur, [])
  | _ => callHook cfg timestamp c cur
  end.

(** Calls made with the callbacks of one render: every guard reads [snap],
    every dispatch is reduced from the state the previous one left. *)
Definition callsInRender (cfg : config) (snap : state)
  (l : list (Z * call)) (cur : state) : state :=
  fold_left (fun st tc => fst (callWith cfg (fst tc) (snd tc) snap st)) l cur.

(** The hook as a transition system.  [hookRun cfg shown cur]: the renders
    so far have shown the states [shown], and the state is now [cur].  A
    render shows the current state.  A call uses a callback of any render
    so far (the latest, or one a caller or a timer has kept): its guard
    reads the state of that render, its action is reduced from the current
    state. *)
Inductive hookRun (cfg : config) : list state -> state -> Prop :=
  | hook_init : hookRun cfg [initialState] initialState
  | hook_render shown cur :
      hookRun cfg shown cur -> hookRun cfg (cur :: shown) cur
  | hook_call shown cur snap t c :
      hookRun cfg shown cur -> In snap shown ->
      hookRun cfg shown (fst (callWith cfg t c snap cur)).

(** The states the hook can be in. *)
Definition hookReachable (cfg : config) (s : state) : Prop :=
  exists shown, hookRun cfg shown s.

(** No guard at all on the dispatches. *)
Definition anyAction (s : state) (a : action) : bool := true.

Definition isStartConversation (a : action) : bool :=
  match a with
  | START_CONVERSATION _ _ => true
  | _ => false
  end.

Definition isStartSpeaking (a : action) : bool :=
  match a with
  | START_SPEAKING => true
  | _ => false
  end.

(** The number of START_SPEAKING among dispatched actions. *)
Definition countSpeaking (l : list (Z * action)) : Z :=
  Z.of_nat (length (List.filter (fun ta => isStartSpeaking (snd ta)) l)).

End Conversation.

(* ===================================================================== *)
(** * Part II: voice activity detection                                   *)
(* ===================================================================== *)

Module VAD.

(** The part of [this.config] the analysis loop reads.  The threshold is
    compared with a computed volume and is a double; the durations are
    compared with differences of millisecond clock readings. *)
Record config : Type := mkConfig {
  silenceThreshold : float;
  speechTimeout : Z;
  minSpeechDuration : Z;
  maxSpeechDuration : Z;
}.

(** [VAD_PRESETS.normal], with the constructor's default for
    [maxSpeechDuration]. *)
Definition normal : config := {|
  silenceThreshold := 30%float;
  speechTimeout := 1500;
  minSpeechDuration := 500;
  maxSpeechDuration := 30000;
|}.

(** The state variables of the instance. *)
Record vad : Type := mkVad {
  isActive : bool;
  isSpeaking : bool;
  speechStartTime : option Z;
  lastSpeechTime : option Z;
  silenceStartTime : option Z;
}.

(** Calls of the registered callbacks, in order. *)
Inductive event : Type :=
  | OnVolumeChange (volume : float)
  | OnSpeechStart
  | OnSpeechEnd (speechDuration : Z).

(** [null] in arithmetic is [0]; [null] and [0] are falsy. *)
Definition toNumber (t : option Z) : Z := default 0 t.

Definition truthy (t : option Z) : bool :=
  match t with
  | Some n => negb (n =? 0)
  | None => false
  end.

(** The instance right after [start()] has reset it, before its first
    call of [analyzeAudio]. *)
Definition started : vad := {|
  isActive := true;
  isSpeaking := false;
  speechStartTime := None;
  lastSpeechTime := None;
  silenceStartTime := None;
|}.

(** [handleSpeechEnd]; [now] is its own reading of [Date.now()]. *)
Definition handleSpeechEnd (now : Z) (v : vad) : vad * list event :=
  if isSpeaking v then
    let speechDuration :=
      (if truthy (silenceStartTime v) then toNumber (silenceStartTime v)
       else now) - toNumber (speechStartTime v) in
    ({| isActive := isActive v;
        isSpeaking := false;
        speechStartTime := None;
        lastSpeechTime := lastSpeechTime v;
        silenceStartTime := None |},
     [OnSpeechEnd speechDuration])
  else (v, []).

(** [handleSpeechDetected(currentTime)] *)
Definition handleSpeechDetected (cfg : config) (currentTime now : Z)
  (v : vad) : vad * list event :=
  let v1 := {| isActive := isActive v;
               isSpeaking := isSpeaking v;
               speechStartTime := speechStartTime v;
               lastSpeechTime := Some currentTime;
               silenceStartTime := None |} in
  let '(v2, ev) :=
    if negb (isSpeaking v1)
    then ({| isActive := isActive v1;
             isSpeaking := true;
             speechStartTime := Some currentTime;
             lastSpeechTime := lastSpeechTime v1;
             silenceStartTime := silenceStartTime v1 |},
          [OnSpeechStart])
    else (v1, []) in
  let speechDuration := currentTime - toNumber (speechStartTime v2) in
  if maxSpeechDuration cfg <? speechDuration
  then let '(v3, ev') := handleSpeechEnd now v2 in (v3, ev ++ ev')
  else (v2, ev).

(** The value of [this.silenceStartTime] after the silence timer has been
    started if it was not running. *)
Definition silenceStart (currentTime : Z) (v : vad) : option Z :=
  if negb (truthy (silenceStartTime v)) then Some currentTime
  else silenceStartTime v.

(** [handleSilenceDetected(currentTime)] *)
Definition handleSilenceDetected (cfg : config) (currentTime now : Z)
  (v : vad) : vad * list event :=
  if isSpeaking v then
    let v1 := {| isActive := isActive v;
                 isSpeaking := isSpeaking v;
                 speechStartTime := speechStartTime v;
                 lastSpeechTime := lastSpeechTime v;
                 silenceStartTime := silenceStart currentTime v |} in
    let silenceDuration := currentTime - toNumber (silenceStartTime v1) in
    if speechTimeout cfg <? silenceDuration then
      let speechDuration :=
        toNumber (silenceStartTime v1) - toNumber (speechStartTime v1) in
      if minSpeechDuration cfg <=? speechDuration
      then handleSpeechEnd now v1
      else ({| isActive := isActive v1;
               isSpeaking := false;
               speechStartTime := None;
               lastSpeechTime := lastSpeechTime v1;
               silenceStartTime := None |}, [])
    else (v1, [])
  else (v, []).

(** ** Volume of a frame *)

(** An element of the [Uint8Array], as a double. *)
Definition of_byte (b : Byte.byte) : float :=
  PrimFloat.of_uint63 (Uint63.of_Z (Z.of_N (Byte.to_N b))).

(** [this.dataArray.length], as a double. *)
Definition of_length (n : nat) : float :=
  PrimFloat.of_uint63 (Uint63.of_Z (Z.of_nat n)).

(** [Math.min(x, y)]: NaN if either is, and [-0] below [+0]. *)
Definition Math_min (x y : float) : float :=
  if PrimFloat.is_nan x || PrimFloat.is_nan y then PrimFloat.nan
  else if (x <? y)%float then x
  else if (y <? x)%float then y
  else if PrimFloat.get_sign x then x else y.

(** The accumulation loop of [calculateVolume]. *)
Definition sumBytes (data : list Byte.byte) : float :=
  fold_left (fun sum b => (sum + of_byte b)%float) data 0%float.

(** [calculateVolume] on the contents [data] of [this.dataArray]. *)
Definition calculateVolume (data : list Byte.byte) : float :=
  let average := (sumBytes data / of_length (length data))%float in
  Math_min 100%float (average / 255 * 100)%float.

(** ** The volume as the specification words it

    The sum of the bytes as an integer, the conversion of an integer to a
    double, and min(100, (mean / 255) x 100) with the mean taken as the
    quotient of that sum by the number of bytes. *)
Definition byteSum (data : list Byte.byte) : Z :=
  fold_right (fun b acc => Z.of_N (Byte.to_N b) + acc) 0 data.

Definition ofZ (z : Z) : float := PrimFloat.of_uint63 (Uint63.of_Z z).

Definition specVolume (data : list Byte.byte) : float :=
  Math_min 100
    (ofZ (byteSum data) / ofZ (Z.of_nat (length data)) / 255 * 100)%float.

(** [p * 2^k], for [0 <= k]. *)
Definition shiftPos (p : positive) (k : Z) : positive :=
  match k with
  | Z.pos n => Pos.iter xO p n
  | _ => p
  end.

(** The double that holds the integer [p], when [p < 2^53]: a mantissa of
    53 bits. *)
Definition canon (p : positive) : spec_float :=
  S754_finite false (shiftPos p (53 - Z.pos (digits2_pos p)))
    (Z.pos (digits2_pos p) - 53).

(** A double that is not NaN and carries the sign [s]. *)
Definition signed (s : bool) (x : spec_float) : Prop :=
  match x with
  | S754_nan => False
  | S754_zero s' | S754_infinity s' | S754_finite s' _ _ => s' = s
  end.

(** Zero, a positive number or plus infinity. *)
Definition nonneg (x : float) : Prop := signed false (Prim2SF x).

(** One turn of the analysis loop: the bytes [getByteFrequencyData] wrote
    and the clock readings of [analyzeAudio] and of [handleSpeechEnd]. *)
Record frame : Type := mkFrame {
  data : list Byte.byte;
  currentTime : Z;
  endTime : Z;
}.

(** [isSpeechDetected] of [analyzeAudio]. *)
Definition isSpeechDetected (cfg : config) (data : list Byte.byte) : bool :=
  (silenceThreshold cfg <? calculateVolume data)%float.

(** [analyzeAudio], one call. *)
Definition analyzeAudio (cfg : config) (f : frame) (v : vad)
  : vad * list event :=
  if negb (isActive v) then (v, [])
  else
    let volume := calculateVolume (data f) in
    let '(v', ev) :=
      if (silenceThreshold cfg <? volume)%float
      then handleSpeechDetected cfg (currentTime f) (endTime f) v
      else handleSilenceDetected cfg (currentTime f) (endTime f) v in
    (v', OnVolumeChange volume :: ev).

(** The loop driven by [requestAnimationFrame]: one call per frame, the
    events concatenated. *)
Fixpoint analyzeFrames (cfg : config) (fs : list frame) (v : vad)
  : vad * list event :=
  match fs with
  | [] => (v, [])
  | f :: fs' =>
      let '(v1, ev1) := analyzeAudio cfg f v in
      let '(v2, ev2) := analyzeFrames cfg fs' v1 in
      (v2, ev1 ++ ev2)
  end.

(** [stop()] *)
Definition stop (now : Z) (v : vad) : vad * list event :=
  handleSpeechEnd now {| isActive := false;
                         isSpeaking := isSpeaking v;
                         speechStartTime := speechStartTime v;
                         lastSpeechTime := lastSpeechTime v;
                         silenceStartTime := silenceStartTime v |}.

(** ** Notions used to state properties of the loop *)

(** The timers agree with [isSpeaking]: while speaking the start of the
    speech is known, otherwise both timers are [null]. *)
Definition consistent (v : vad) : Prop :=
  (isSpeaking v = true -> is_Some (speechStartTime v)) /\
  (isSpeaking v = false ->
     speechStartTime v = None /\ silenceStartTime v = None).

(** Whether a speech has been announced and not ended yet, after the
    events [ev]. *)
Fixpoint openAfter (open : bool) (ev : list event) : bool :=
  match ev with
  | [] => open
  | OnSpeechStart :: ev' => openAfter true ev'
  | OnSpeechEnd _ :: ev' => openAfter false ev'
  | OnVolumeChange _ :: ev' => openAfter open ev'
  end.

(** Every [onSpeechEnd] in [ev] comes after an [onSpeechStart] with no other
    [onSpeechEnd] in between. *)
Fixpoint endsMatched (open : bool) (ev : list event) : bool :=
  match ev with
  | [] => true
  | OnSpeechStart :: ev' => endsMatched true ev'
  | OnSpeechEnd _ :: ev' => open && endsMatched false ev'
  | OnVolumeChange _ :: ev' => endsMatched open ev'
  end.

(** The arguments of the calls of [onVolumeChange], in order. *)
Fixpoint volumesOf (ev : list event) : list float :=
  match ev with
  | [] => []
  | OnVolumeChange x :: ev' => x :: volumesOf ev'
  | _ :: ev' => volumesOf ev'
  end.

(** The arguments of the calls of [onSpeechEnd], in order. *)
Fixpoint durationsOf (ev : list event) : list Z :=
  match ev with
  | [] => []
  | OnSpeechEnd d :: ev' => d :: durationsOf ev'
  | _ :: ev' => durationsOf ev'
  end.

(** A frame whose volume does not exceed the threshold. *)
Definition silent (cfg : config) (f : frame) : Prop :=
  isSpeechDetected cfg (data f) = false.

(** The clock of a frame: not at the epoch, and not running backwards
    between the two readings. *)
Definition clockOk (f : frame) : Prop :=
  currentTime f <> 0 /\ currentTime f <= endTime f.

End VAD.

(* ===================================================================== *)
(** * Part III: text processing                                           *)
(* ===================================================================== *)

Module Text.

Local Open Scope N_scope.

(** A string is its sequence of UTF-16 code units. *)
Abbreviation jsstring := (list N).

Definition ch (a : ascii) : N := N_of_ascii a.

(** The code units of a literal with ASCII characters only. *)
Fixpoint lit (s : string) : jsstring :=
  match s with
  | EmptyString => []
  | String a s' => ch a :: lit s'
  end.

(** ** Character classes *)

(** [\s]: WhiteSpace and LineTerminator of the language. *)
Definition isSpace (c : N) : bool :=
  ((9 <=? c) && (c <=? 13)) || (c =? 32) || (c =? 160) || (c =? 0x1680)
  || ((0x2000 <=? c) && (c <=? 0x200a)) || (c =? 0x2028) || (c =? 0x2029)
  || (c =? 0x202f) || (c =? 0x205f) || (c =? 0x3000) || (c =? 0xfeff).

(** [\d] *)
Definition isDigit (c : N) : bool := (48 <=? c) && (c <=? 57).

(** LineTerminator, for [^] and [$] under the [m] flag. *)
Definition isLineTerminator (c : N) : bool :=
  (c =? 10) || (c =? 13) || (c =? 0x2028) || (c =? 0x2029).

(** The members of a bracketed class. *)
Inductive citem : Type :=
  | Lit (c : N)      (* a character *)
  | Space            (* \s *)
  | NotSpace         (* \S *)
  | Digit.           (* \d *)

Definition imatch (i : citem) (c : N) : bool :=
  match i with
  | Lit d => c =? d
  | Space => isSpace c
  | NotSpace => negb (isSpace c)
  | Digit => isDigit c
  end.

(** [cmatch neg items c]: [c] is in the class [[items]], or in [[^items]]
    when [neg]. *)
Definition cmatch (neg : bool) (items : list citem) (c : N) : bool :=
  xorb neg (existsb (fun i => imatch i c) items).

(** ** Regular expressions

    The syntax the module's patterns need: classes of one code unit,
    quantified classes (greedy or lazy, with bounds), sequence, the capture
    group, and the two line assertions as they behave under the [m] flag.
    None of the patterns quantifies anything but a class. *)
Inductive regex : Type :=
  | Eps
  | Cls (neg : bool) (items : list citem)
  | Rep (greedy : bool) (lo : nat) (hi : option nat)
        (neg : bool) (items : list citem)
  | Seq (r1 r2 : regex)
  | Group (r : regex)
  | Bol
  | Eol.

(** The matcher backtracks as the language prescribes: alternatives are
    tried in priority order and the first one whose continuation succeeds
    wins.  A position is the code unit before it ([None] at the start) and
    the rest of the input; a result is the input left after the match and
    the capture. *)
Definition result : Type := jsstring * option jsstring.
Definition cont : Type := option N -> jsstring -> option jsstring
                          -> option result.

Definition orElse (a : option result) (b : unit -> option result)
  : option result :=
  match a with
  | Some r => Some r
  | None => b tt
  end.

Definition below (hi : option nat) : bool :=
  match hi with
  | Some O => false
  | _ => true
  end.

Definition decr (hi : option nat) : option nat :=
  match hi with
  | Some n => Some (Nat.pred n)
  | None => None
  end.

(** A quantified class: [lo] more repetitions are required and at most [hi]
    allowed. *)
Fixpoint rep (greedy : bool) (p : N -> bool) (lo : nat) (hi : option nat)
  (prev : option N) (s : jsstring) (cap : option jsstring) (k : cont)
  {struct s} : option result :=
  let stop (_ : unit) :=
    match lo with
    | O => k prev s cap
    | S _ => None
    end in
  let more (_ : unit) :=
    match s with
    | c :: s' =>
        if p c && below hi
        then rep greedy p (Nat.pred lo) (decr hi) (Some c) s' cap k
        else None
    | [] => None
    end in
  if greedy then orElse (more tt) stop else orElse (stop tt) more.

Definition atLineStart (prev : option N) : bool :=
  match prev with
  | None => true
  | Some c => isLineTerminator c
  end.

Definition atLineEnd (s : jsstring) : bool :=
  match s with
  | [] => true
  | c :: _ => isLineTerminator c
  end.

Fixpoint rmatch (r : regex) (prev : option N) (s : jsstring)
  (cap : option jsstring) (k : cont) : option result :=
  match r with
  | Eps => k prev s cap
  | Cls neg items =>
      match s with
      | c :: s' => if cmatch neg items c then k (Some c) s' cap else None
      | [] => None
      end
  | Rep greedy lo hi neg items =>
      rep greedy (cmatch neg items) lo hi prev s cap k
  | Seq r1 r2 =>
      rmatch r1 prev s cap (fun prev' s' cap' => rmatch r2 prev' s' cap' k)
  | Group r1 =>
      rmatch r1 prev s cap
        (fun prev' s' _ =>
           k prev' s' (Some (firstn (length s - length s')%nat s)))
  | Bol => if atLineStart prev then k prev s cap else None
  | Eol => if atLineEnd s then k prev s cap else None
  end.

(** A match attempt at one position: the length of the match and the
    capture. *)
Definition execAt (r : regex) (prev : option N) (s : jsstring)
  : option (nat * option jsstring) :=
  match rmatch r prev s None (fun _ s' cap => Some (s', cap)) with
  | Some (s', cap) => Some ((length s - length s')%nat, cap)
  | None => None
  end.

(** [pattern.test(text)]: some position has a match. *)
Fixpoint testFrom (r : regex) (prev : option N) (s : jsstring) : bool :=
  match execAt r prev s with
  | Some _ => true
  | None =>
      match s with
      | [] => false
      | c :: s' => testFrom r (Some c) s'
      end
  end.

Definition test (r : regex) (s : jsstring) : bool := testFrom r None s.

(** A replacement string: the ones used are a fixed text and ['$1']. *)
Inductive replacement : Type :=
  | Text (t : jsstring)
  | Group1.

Definition expand (rp : replacement) (cap : option jsstring) : jsstring :=
  match rp with
  | Text t => t
  | Group1 => default [] cap
  end.

(** [text.replace(r, rp)] for a pattern with the [g] flag.  The input is
    scanned once from the left; [skip] counts the code units of the last
    match that are still to be passed over.  After an empty match the scan
    resumes one code unit further. *)
Fixpoint replaceFrom (r : regex) (rp : replacement) (prev : option N)
  (s : jsstring) (skip : nat) {struct s} : jsstring :=
  match skip with
  | S n =>
      match s with
      | [] => []
      | c :: s' => replaceFrom r rp (Some c) s' n
      end
  | O =>
      match execAt r prev s with
      | Some (S n, cap) =>
          expand rp cap ++
          match s with
          | [] => []
          | c :: s' => replaceFrom r rp (Some c) s' n
          end
      | Some (O, cap) =>
          expand rp cap ++
          match s with
          | [] => []
          | c :: s' => c :: replaceFrom r rp (Some c) s' O
          end
      | None =>
          match s with
          | [] => []
          | c :: s' => c :: replaceFrom r rp (Some c) s' O
          end
      end
  end.

Definition replaceAll (r : regex) (rp : replacement) (s : jsstring)
  : jsstring :=
  replaceFrom r rp None s O.

(** [text.trim()] *)
Fixpoint trimStart (s : jsstring) : jsstring :=
  match s with
  | c :: s' => if isSpace c then trimStart s' else s
  | [] => []
  end.

Definition trim (s : jsstring) : jsstring :=
  rev (trimStart (rev (trimStart s))).

(** ** The patterns *)

Definition cat (rs : list regex) : regex := fold_right Seq Eps rs.

(** One literal character. *)
Definition c1 (a : ascii) : regex := Cls false [Lit (ch a)].

(** [[^a]+] *)
Definition plusNot (a : ascii) : regex := Rep true 1 None true [Lit (ch a)].

(** [\s+] *)
Definition spaces1 : regex := Rep true 1 None false [Space].

(** [/```[\s\S]*?```/] *)
Definition reCodeBlock : regex :=
  cat [c1 "`"; c1 "`"; c1 "`"; Rep false 0 None false [Space; NotSpace];
       c1 "`"; c1 "`"; c1 "`"].

(** [/`([^`]+)`/] *)
Definition reInlineCode : regex :=
  cat [c1 "`"; Group (plusNot "`"); c1 "`"].

(** [/^#{1,6}\s+/m] *)
Definition reHeader : regex :=
  cat [Bol; Rep true 1 (Some 6%nat) false [Lit (ch "#")]; spaces1].

(** [/\*\*([^*]+)\*\*/] *)
Definition reBoldStar : regex :=
  cat [c1 "*"; c1 "*"; Group (plusNot "*"); c1 "*"; c1 "*"].

(** [/__([^_]+)__/] *)
Definition reBoldUnder : regex :=
  cat [c1 "_"; c1 "_"; Group (plusNot "_"); c1 "_"; c1 "_"].

(** [/\*([^*]+)\*/] *)
Definition reItalicStar : regex :=
  cat [c1 "*"; Group (plusNot "*"); c1 "*"].

(** [/_([^_]+)_/] *)
Definition reItalicUnder : regex :=
  cat [c1 "_"; Group (plusNot "_"); c1 "_"].

(** [/~~([^~]+)~~/] *)
Definition reStrike : regex :=
  cat [c1 "~"; c1 "~"; Group (plusNot "~"); c1 "~"; c1 "~"].

(** [/\[([^\]]+)\]\([^)]+\)/] *)
Definition reLink : regex :=
  cat [c1 "["; Group (plusNot "]"); c1 "]"; c1 "("; plusNot ")"; c1 ")"].

(** The image pattern: [!], a bracketed text without closing bracket
    (captured, possibly empty), and a parenthesised non-empty target. *)
Definition reImage : regex :=
  cat [c1 "!"; c1 "["; Group (Rep true 0 None true [Lit (ch "]")]);
       c1 "]"; c1 "("; plusNot ")"; c1 ")"].

(** [/^>\s*/m], of [cleanMarkdownForSpeech] *)
Definition reQuoteClean : regex :=
  cat [Bol; c1 ">"; Rep true 0 None false [Space]].

(** [/^>\s+/m], of [hasMarkdownSyntax] *)
Definition reQuote : regex := cat [Bol; c1 ">"; spaces1].

(** [/^[-*]{3,}$/m] *)
Definition reRule : regex :=
  cat [Bol; Rep true 3 None false [Lit (ch "-"); Lit (ch "*")]; Eol].

(** [/\|/] *)
Definition rePipe : regex := c1 "|".

(** [/[#*_`~|]/] *)
Definition markers : list citem :=
  [Lit (ch "#"); Lit (ch "*"); Lit (ch "_"); Lit (ch "`"); Lit (ch "~");
   Lit (ch "|")].

Definition reMarker : regex := Cls false markers.

(** [/^[-*+]\s+/m] *)
Definition reBullet : regex :=
  cat [Bol; Cls false [Lit (ch "-"); Lit (ch "*"); Lit (ch "+")]; spaces1].

(** [/^\d+\.\s+/m] *)
Definition reNumbered : regex :=
  cat [Bol; Rep true 1 None false [Digit]; c1 "."; spaces1].

(** ** The two functions *)

(** The values a caller may pass. *)
Inductive value : Type :=
  | VUndefined
  | VNull
  | VBoolean (b : bool)
  | VNumber (x : float)
  | VString (s : jsstring)
  | VObject.

(** [!text] *)
Definition falsy (v : value) : bool :=
  match v with
  | VUndefined | VNull => true
  | VBoolean b => negb b
  | VNumber x => PrimFloat.is_zero x || PrimFloat.is_nan x
  | VString s => match s with [] => true | _ => false end
  | VObject => false
  end.

Definition stringOf (v : value) : option jsstring :=
  match v with
  | VString s => Some s
  | _ => None
  end.

(** The replacements of [cleanMarkdownForSpeech], in order. *)
Definition cleanSteps : list (regex * replacement) :=
  [ (reCodeBlock, Text (lit " code block "));
    (reInlineCode, Group1);
    (reHeader, Text []);
    (reBoldStar, Group1);
    (reBoldUnder, Group1);
    (reItalicStar, Group1);
    (reItalicUnder, Group1);
    (reStrike, Group1);
    (reLink, Group1);
    (reImage, Group1);
    (reQuoteClean, Text []);
    (reRule, Text []);
    (rePipe, Text (lit " "));
    (reMarker, Text []);
    (spaces1, Text (lit " ")) ].

Definition applySteps (steps : list (regex * replacement)) (s : jsstring)
  : jsstring :=
  fold_left (fun t step => replaceAll (fst step) (snd step) t) steps s.

Definition cleanString (s : jsstring) : jsstring :=
  trim (applySteps cleanSteps s).

(** [cleanMarkdownForSpeech(text)] *)
Definition cleanMarkdownForSpeech (text : value) : jsstring :=
  match stringOf text with
  | Some s => if falsy text then [] else cleanString s
  | None => []
  end.

(** [markdownPatterns] of [hasMarkdownSyntax], in order. *)
Definition markdownPatterns : list regex :=
  [ reHeader; reBoldStar; reBoldUnder; reItalicStar; reItalicUnder;
    reInlineCode; reCodeBlock; reLink; reImage; reQuote; reBullet;
    reNumbered; reStrike ].

(** [hasMarkdownSyntax(text)] *)
Definition hasMarkdownSyntax (text : value) : bool :=
  match stringOf text with
  | Some s => if falsy text then false
              else existsb (fun r => test r s) markdownPatterns
  | None => false
  end.

(** ** Notions used to state and prove the properties *)

(** The number of leading code units of [s] that satisfy [p]. *)
Fixpoint spanLen (p : N -> bool) (s : jsstring) : nat :=
  match s with
  | c :: s' => if p c then S (spanLen p s') else O
  | [] => O
  end.

(** Every run of white space replaced by one space; [inRun] tells that the
    run the scan is in has been replaced already. *)
Fixpoint collapse (inRun : bool) (s : jsstring) : jsstring :=
  match s with
  | c :: s' =>
      if isSpace c
      then if inRun then collapse true s' else ch " " :: collapse true s'
      else c :: collapse false s'
  | [] => []
  end.

(** No two adjacent white-space code units. *)
Fixpoint noDoubleSpace (s : jsstring) : bool :=
  match s with
  | a :: t =>
      match t with
      | b :: _ => negb (isSpace a && isSpace b)
      | [] => true
      end && noDoubleSpace t
  | [] => true
  end.

(** The first code unit, if any, is not white space. *)
Definition headNotSpace (s : jsstring) : Prop :=
  match s with
  | c :: _ => isSpace c = false
  | [] => True
  end.

(** Every member of a class is a literal character that satisfies [q]. *)
Definition litsIn (q : N -> bool) (items : list citem) : bool :=
  forallb (fun i => match i with Lit c => q c | _ => false end) items.

(** A syntactic check that every match of [r] starts with a code unit that
    satisfies [q]. *)
Fixpoint firstIn (q : N -> bool) (r : regex) : bool :=
  match r with
  | Cls false items => litsIn q items
  | Rep _ (S _) _ false items => litsIn q items
  | Seq Bol r2 => firstIn q r2
  | Seq r1 _ => firstIn q r1
  | Group r1 => firstIn q r1
  | _ => false
  end.

(** The patterns of [hasMarkdownSyntax] that need one of the characters
    [cleanMarkdownForSpeech] deletes, and the others. *)
Definition markerPatterns : list regex :=
  [ reHeader; reBoldStar; reBoldUnder; reItalicStar; reItalicUnder;
    reInlineCode; reCodeBlock; reStrike ].

Definition otherPatterns : list regex :=
  [ reLink; reImage; reQuote; reBullet; reNumbered ].

(** ** [extractPlainText] *)

(** [/[#*_`~]/] *)
Definition reMarkerPlain : regex :=
  Cls false [Lit (ch "#"); Lit (ch "*"); Lit (ch "_"); Lit (ch "`");
             Lit (ch "~")].

(** The replacements of [extractPlainText], in order. *)
Definition extractSteps : list (regex * replacement) :=
  [ (reCodeBlock, Text []);
    (reInlineCode, Group1);
    (reImage, Group1);
    (reLink, Group1);
    (reHeader, Text []);
    (reBoldStar, Group1);
    (reBoldUnder, Group1);
    (reItalicStar, Group1);
    (reItalicUnder, Group1);
    (reStrike, Group1);
    (reQuoteClean, Text []);
    (reBullet, Text []);
    (reNumbered, Text []);
    (reRule, Text []);
    (rePipe, Text (lit " "));
    (reMarkerPlain, Text []);
    (spaces1, Text (lit " ")) ].

Definition extractString (s : jsstring) : jsstring :=
  trim (applySteps extractSteps s).

(** [extractPlainText(text)] *)
Definition extractPlainText (text : value) : jsstring :=
  match stringOf text with
  | Some s => if falsy text then [] else extractString s
  | None => []
  end.

(** ** [formatForSpeech] *)

(** Replacement strings with text around ['$1'] or ['$&']. *)
Inductive piece : Type :=
  | PText (t : jsstring)
  | PGroup1        (* $1 *)
  | PMatch.        (* $& *)

Definition expandPiece (whole : jsstring) (cap : option jsstring)
  (p : piece) : jsstring :=
  match p with
  | PText t => t
  | PGroup1 => default [] cap
  | PMatch => whole
  end.

Definition expandTpl (tpl : list piece) (whole : jsstring)
  (cap : option jsstring) : jsstring :=
  flat_map (expandPiece whole cap) tpl.

(** [text.replace(r, tpl)] for a pattern with the [g] flag, as
    [replaceFrom], the matched text being at hand for ['$&']. *)
Fixpoint replaceTplFrom (r : regex) (tpl : list piece) (prev : option N)
  (s : jsstring) (skip : nat) {struct s} : jsstring :=
  match skip with
  | S n =>
      match s with
      | [] => []
      | c :: s' => replaceTplFrom r tpl (Some c) s' n
      end
  | O =>
      match execAt r prev s with
      | Some (S n, cap) =>
          expandTpl tpl (firstn (S n) s) cap ++
          match s with
          | [] => []
          | c :: s' => replaceTplFrom r tpl (Some c) s' n
          end
      | Some (O, cap) =>
          expandTpl tpl [] cap ++
          match s with
          | [] => []
          | c :: s' => c :: replaceTplFrom r tpl (Some c) s' O
          end
      | None =>
          match s with
          | [] => []
          | c :: s' => c :: replaceTplFrom r tpl (Some c) s' O
          end
      end
  end.

Definition replaceTpl (r : regex) (tpl : list piece) (s : jsstring)
  : jsstring :=
  replaceTplFrom r tpl None s O.

(** [(.+)]: the captured rest of a line. *)
Definition restOfLine : regex :=
  Group (Rep true 1 None true
           [Lit 10; Lit 13; Lit 0x2028; Lit 0x2029]).

(** [/^#{1}\s+(.+)$/m], [/^#{2}\s+(.+)$/m] and [/^#{3,6}\s+(.+)$/m] *)
Definition reHeading (lo hi : nat) : regex :=
  cat [Bol; Rep true lo (Some hi) false [Lit (ch "#")]; spaces1;
       restOfLine; Eol].

(** [/^[-*+]\s+(.+)$/m] *)
Definition reBulletLine : regex :=
  cat [Bol; Cls false [Lit (ch "-"); Lit (ch "*"); Lit (ch "+")]; spaces1;
       restOfLine; Eol].

(** [/^\d+\.\s+(.+)$/m] *)
Definition reNumberedLine : regex :=
  cat [Bol; Rep true 1 None false [Digit]; c1 "."; spaces1; restOfLine;
       Eol].

(** The blockquote line of [formatForSpeech]: [>] at the start of a line,
    optional white space, and the captured rest of the line. *)
Definition reQuoteLine : regex :=
  cat [Bol; c1 ">"; Rep true 0 None false [Space]; restOfLine; Eol].

(** [/\n\n+/] and [/\n/] *)
Definition reParagraph : regex :=
  cat [Cls false [Lit 10]; Rep true 1 None false [Lit 10]].

Definition reNewline : regex := Cls false [Lit 10].

(** The replacements of [formatForSpeech], in order. *)
Definition formatSteps : list (regex * list piece) :=
  [ (reHeading 1 1, [PText (lit "Heading: "); PGroup1; PText (lit ".")]);
    (reHeading 2 2, [PText (lit "Subheading: "); PGroup1; PText (lit ".")]);
    (reHeading 3 6, [PText (lit "Section: "); PGroup1; PText (lit ".")]);
    (reBulletLine, [PText (lit "Item: "); PGroup1; PText (lit ".")]);
    (reNumberedLine, [PText (lit "Number "); PMatch]);
    (reBoldStar, [PText (lit "emphasized "); PGroup1]);
    (reBoldUnder, [PText (lit "emphasized "); PGroup1]);
    (reItalicStar, [PText (lit "emphasized "); PGroup1]);
    (reItalicUnder, [PText (lit "emphasized "); PGroup1]);
    (reInlineCode, [PText (lit "code "); PGroup1]);
    (reCodeBlock, [PText (lit " code block ")]);
    (reLink, [PText (lit "link to "); PGroup1]);
    (reQuoteLine, [PText (lit "Quote: "); PGroup1]);
    (reParagraph, [PText (lit ". ")]);
    (reNewline, [PText (lit ", ")]);
    (spaces1, [PText (lit " ")]) ].

Definition applyTplSteps (steps : list (regex * list piece)) (s : jsstring)
  : jsstring :=
  fold_left (fun t step => replaceTpl (fst step) (snd step) t) steps s.

Definition formatString (s : jsstring) : jsstring :=
  trim (applyTplSteps formatSteps s).

(** [formatForSpeech(text)] *)
Definition formatForSpeech (text : value) : jsstring :=
  match stringOf text with
  | Some s => if falsy text then [] else formatString s
  | None => []
  end.

(** The steps of [formatForSpeech] that can still apply to a text without
    [#], [*], [_], backquote and line feed. *)
Definition formatStepsCleaned : list (regex * list piece) :=
  [ (reBulletLine, [PText (lit "Item: "); PGroup1; PText (lit ".")]);
    (reNumberedLine, [PText (lit "Number "); PMatch]);
    (reLink, [PText (lit "link to "); PGroup1]);
    (reQuoteLine, [PText (lit "Quote: "); PGroup1]);
    (spaces1, [PText (lit " ")]) ].

(** ** More notions for the properties *)

(** The template that stands for a replacement of [replaceAll]. *)
Definition tplOf (rp : replacement) : list piece :=
  match rp with
  | Text t => [PText t]
  | Group1 => [PGroup1]
  end.

(** The characters a template can add by itself. *)
Definition tplChars (tpl : list piece) : jsstring :=
  flat_map (fun p => match p with PText t => t | _ => [] end) tpl.

(** As [litsIn], with [\d] allowed when [q] holds of the ten digits. *)
Definition itemsIn (q : N -> bool) (items : list citem) : bool :=
  forallb (fun i => match i with
                    | Lit c => q c
                    | Digit => forallb q (lit "0123456789")
                    | _ => false
                    end) items.

(** As [firstIn], over [itemsIn]. *)
Fixpoint startsIn (q : N -> bool) (r : regex) : bool :=
  match r with
  | Cls false items => itemsIn q items
  | Rep _ (S _) _ false items => itemsIn q items
  | Seq Bol r2 => startsIn q r2
  | Seq r1 _ => startsIn q r1
  | Group r1 => startsIn q r1
  | _ => false
  end.

(** Membership in a string of characters. *)
Definition oneOf (cs : jsstring) (c : N) : bool :=
  existsb (fun d => c =? d) cs.

(** The steps that can still match a text none of whose characters
    satisfies [q]. *)
Definition activeSteps (q : N -> bool) (steps : list (regex * list piece))
  : list (regex * list piece) :=
  List.filter (fun step => negb (startsIn q (fst step))) steps.

(** The steps of [replaceAll] as steps with templates. *)
Definition tplSteps (steps : list (regex * replacement))
  : list (regex * list piece) :=
  map (fun step => (fst step, tplOf (snd step))) steps.

(** [text.replace(/\s+/g, ' ').trim()], the last step of the three
    functions. *)
Definition normalizeSpace (s : jsstring) : jsstring :=
  trim (replaceAll spaces1 (Text (lit " ")) s).

End Text.

(* ===================================================================== *)
(** * Part IV: the WAV encoder of the page                                *)
(* ===================================================================== *)

Module Wav.

(** An [AudioBuffer]: its sample rate, its [length] in sample frames and
    the data of its channels.  [numberOfChannels] is the number of
    channels.  The sample rate is taken to be an integer. *)
Record audioBuffer : Type := mkBuffer {
  sampleRate : Z;
  frames : nat;
  channelData : list (list float);
}.

Definition numberOfChannels (b : audioBuffer) : nat :=
  length (channelData b).

(** [view.setUint16(pos, data, true)] and [view.setUint32(pos, data, true)]:
    the bytes written, low byte first; the value wraps to the width. *)
Definition le16 (d : Z) : list Z :=
  [d mod 256; (d / 256) mod 256].

Definition le32 (d : Z) : list Z :=
  [d mod 256; (d / 256) mod 256; (d / 65536) mod 256;
   (d / 16777216) mod 256].

(** The byte length of the file, [buffer.length * numOfChan * 2 + 44]. *)
Definition fileLength (b : audioBuffer) : Z :=
  Z.of_nat (frames b) * Z.of_nat (numberOfChannels b) * 2 + 44.

(** The header, in the order of the calls of [setUint32] and [setUint16]. *)
Definition header (b : audioBuffer) : list Z :=
  let numOfChan := Z.of_nat (numberOfChannels b) in
  le32 0x46464952 ++ le32 (fileLength b - 8) ++ le32 0x45564157 ++
  le32 0x20746d66 ++ le32 16 ++ le16 1 ++ le16 numOfChan ++
  le32 (sampleRate b) ++ le32 (sampleRate b * 2 * numOfChan) ++
  le16 (numOfChan * 2) ++ le16 16 ++
  le32 0x61746164 ++ le32 (fileLength b - 40 - 4).

(** [Math.max(x, y)]: NaN if either is, and [+0] above [-0]. *)
Definition Math_max (x y : float) : float :=
  if PrimFloat.is_nan x || PrimFloat.is_nan y then PrimFloat.nan
  else if (x <? y)%float then y
  else if (y <? x)%float then x
  else if PrimFloat.get_sign x then y else x.

(** The integer a number is truncated to when it is stored in an integer
    field: [0] for NaN and the infinities. *)
Definition toInteger (x : float) : Z :=
  match Prim2SF x with
  | S754_finite s m e =>
      let v := if 0 <=? e then Z.pos m * 2 ^ e else Z.pos m / 2 ^ (- e) in
      if s then - v else v
  | _ => 0
  end.

(** The two assignments to [sample] in the loop. *)
Definition convertSample (x : float) : float :=
  let sample := Math_max (-1)%float (VAD.Math_min 1%float x) in
  if (sample <? 0)%float then (sample * 32768)%float
  else (sample * 32767)%float.

(** [channels[i][offset]]; an index out of range reads [undefined], which
    is NaN as a number. *)
Definition channelSample (b : audioBuffer) (i offset : nat) : float :=
  match nth_error (channelData b) i with
  | Some samples => nth offset samples PrimFloat.nan
  | None => PrimFloat.nan
  end.

(** The bytes of [view.setInt16(pos, sample, true)]. *)
Definition sampleBytes (x : float) : list Z :=
  le16 (toInteger (convertSample x)).

(** The interleaved samples: for each frame, one sample per channel. *)
Definition samples (b : audioBuffer) : list Z :=
  flat_map
    (fun offset =>
       flat_map (fun i => sampleBytes (channelSample b i offset))
                (seq 0 (numberOfChannels b)))
    (seq 0 (frames b)).

(** [audioBufferToWav(buffer)], as the bytes of the buffer returned. *)
Definition audioBufferToWav (b : audioBuffer) : list Z :=
  header b ++ samples b.

(** Readers of a [DataView], little endian. *)
Definition getUint8 (w : list Z) (pos : nat) : Z := nth pos w 0.

Definition getUint16 (w : list Z) (pos : nat) : Z :=
  getUint8 w pos + 256 * getUint8 w (pos + 1).

Definition getUint32 (w : list Z) (pos : nat) : Z :=
  getUint16 w pos + 65536 * getUint16 w (pos + 2).

Definition getInt16 (w : list Z) (pos : nat) : Z :=
  let u := getUint16 w pos in if u <? 32768 then u else u - 65536.

(** The 16-bit two's complement value of an integer. *)
Definition toInt16 (z : Z) : Z :=
  let u := z mod 65536 in if u <? 32768 then u else u - 65536.

End Wav.

(* ===================================================================== *)
(** * Properties of the conversation reducer                              *)
(* ===================================================================== *)

Section ConversationFacts.

Import Conversation.

(** C1. In the conversation reducer, in a state whose mode is
    'conversational' FINISH_SPEAKING and RESET_ERROR set [currentState] to
    'listening' (and FINISH_SPEAKING sets [canInterrupt] to false); in a
    state whose mode is not 'conversational' both set it to 'idle'.
    RESET_ERROR also sets [error] to null. *)
Theorem finish_and_reset_return (t : Z) (s : state) :
  (mode s = CONVERSATIONAL ->
     currentState (conversationReducer t s FINISH_SPEAKING) = LISTENING /\
     canInterrupt (conversationReducer t s FINISH_SPEAKING) = false /\
     currentState (conversationReducer t s RESET_ERROR) = LISTENING) /\
  (mode s <> CONVERSATIONAL ->
     currentState (conversationReducer t s FINISH_SPEAKING) = IDLE /\
     currentState (conversationReducer t s RESET_ERROR) = IDLE) /\
  error (conversationReducer t s RESET_ERROR) = None.
Proof.
  unfold conversationReducer, returnState; simpl.
  split; [|split]; [intros Hm | intros Hm | reflexivity].
  - destruct (decide (mode s = CONVERSATIONAL)); [auto | contradiction].
  - destruct (decide (mode s = CONVERSATIONAL)); [contradiction | auto].
Qed.

(** C5. [startSpeaking] ends the conversation when [maxExchanges > 0] and
    [exchangeCount >= maxExchanges]: mode and state go back to 'idle',
    [isActive] is false and [sessionId] null, and the state reached is not
    'speaking'.  Otherwise it applies START_SPEAKING: the state is
    'speaking', [canInterrupt] is true and [exchangeCount] grew by one. *)
Theorem startSpeaking_cutoff (cfg : config) (t : Z) (s : state) :
  (0 < maxExchanges cfg /\ maxExchanges cfg <= exchangeCount s ->
     fst (startSpeaking cfg t s) = conversationReducer t s END_CONVERSATION /\
     mode (fst (startSpeaking cfg t s)) = MODE_IDLE /\
     currentState (fst (startSpeaking cfg t s)) = IDLE /\
     isActive (fst (startSpeaking cfg t s)) = false /\
     sessionId (fst (startSpeaking cfg t s)) = None) /\
  (~ (0 < maxExchanges cfg /\ maxExchanges cfg <= exchangeCount s) ->
     fst (startSpeaking cfg t s) = conversationReducer t s START_SPEAKING /\
     currentState (fst (startSpeaking cfg t s)) = SPEAKING /\
     canInterrupt (fst (startSpeaking cfg t s)) = true /\
     exchangeCount (fst (startSpeaking cfg t s)) = exchangeCount s + 1).
Proof.
  unfold startSpeaking, endConversation.
  split; intros H.
  - destruct H as [H0 H1].
    apply Z.ltb_lt in H0. apply Z.leb_le in H1.
    rewrite H0, H1. simpl. repeat split; reflexivity.
  - destruct (0 <? maxExchanges cfg) eqn:E0;
      destruct (maxExchanges cfg <=? exchangeCount s) eqn:E1; simpl;
      try (repeat split; reflexivity).
    exfalso. apply H. split; [apply Z.ltb_lt | apply Z.leb_le]; assumption.
Qed.

(** C6. [interruptSpeaking] leaves the whole state unchanged when
    [canInterrupt] is false.  When it is true the state becomes
    'interrupted' with [canInterrupt] false, and mode, [isActive],
    [sessionId], [startTime], [exchangeCount], [error] and [metadata] keep
    their values. *)
Theorem interruptSpeaking_frame (cfg : config) (t : Z) (s : state) :
  (canInterrupt s = false -> fst (interruptSpeaking cfg t s) = s) /\
  (canInterrupt s = true ->
     fst (interruptSpeaking cfg t s)
       = conversationReducer t s INTERRUPT_SPEAKING /\
     currentState (fst (interruptSpeaking cfg t s)) = INTERRUPTED /\
     canInterrupt (fst (interruptSpeaking cfg t s)) = false /\
     mode (fst (interruptSpeaking cfg t s)) = mode s /\
     isActive (fst (interruptSpeaking cfg t s)) = isActive s /\
     sessionId (fst (interruptSpeaking cfg t s)) = sessionId s /\
     startTime (fst (interruptSpeaking cfg t s)) = startTime s /\
     exchangeCount (fst (interruptSpeaking cfg t s)) = exchangeCount s /\
     error (fst (interruptSpeaking cfg t s)) = error s /\
     metadata (fst (interruptSpeaking cfg t s)) = metadata s).
Proof.
  unfold interruptSpeaking.
  split; intros H; rewrite H; simpl; [reflexivity | repeat split].
Qed.

(** C7. [onSpeechDetected] dispatches SPEECH_DETECTED only when the state
    is 'listening', and the state then becomes 'processing'; in every other
    state it leaves the conversation state unchanged. *)
Theorem onSpeechDetected_guard (t : Z) (s : state) :
  (currentState s = LISTENING ->
     fst (onSpeechDetected t s) = conversationReducer t s SPEECH_DETECTED /\
     currentState (fst (onSpeechDetected t s)) = PROCESSING) /\
  (currentState s <> LISTENING -> fst (onSpeechDetected t s) = s).
Proof.
  unfold onSpeechDetected.
  split; intros H; destruct (decide (currentState s = LISTENING));
    try contradiction; simpl; auto.
Qed.

(** Whoever the guard, a speaking state can be interrupted: 'speaking' is
    entered by START_SPEAKING only, which sets the flag. *)
Lemma speaking_canInterrupt (guard : state -> action -> bool) (s : state) :
  reachable guard s -> currentState s = SPEAKING -> canInterrupt s = true.
Proof.
  induction 1 as [|s t a Hr IH Hg]; [discriminate|].
  destruct a; simpl; try discriminate; auto.
  all: unfold returnState; destruct (decide _); discriminate.
Qed.

(** Under the strict discipline the flag is set in the speaking state
    only. *)
Lemma canInterrupt_speaking (s : state) :
  reachable guard_strict s -> canInterrupt s = true ->
  currentState s = SPEAKING.
Proof.
  induction 1 as [|s t a Hr IH Hg]; [discriminate|].
  destruct a; simpl in *; try discriminate; auto.
  - intros Hc. apply IH in Hc. rewrite bool_decide_eq_true_2 in Hg by done.
    discriminate.
  - intros Hc. apply IH in Hc. rewrite Hc in Hg. discriminate.
  - intros Hc. apply IH in Hc. rewrite bool_decide_eq_true_2 in Hg by done.
    discriminate.
Qed.

(** C10, the sequence that breaks the claimed invariant: a conversation is
    started, an error is reported, speaking starts, and the reset of the
    error arrives.  Every dispatch respects the guard of
    [onSpeechDetected]; the state reached is 'listening' with
    [canInterrupt] still true. *)
Lemma canInterrupt_outlives_speaking :
  reachable guard_ok
    (run initialState
       [(10, START_CONVERSATION None None); (20, ERROR_OCCURRED None);
        (30, START_SPEAKING); (40, RESET_ERROR)]) /\
  canInterrupt
    (run initialState
       [(10, START_CONVERSATION None None); (20, ERROR_OCCURRED None);
        (30, START_SPEAKING); (40, RESET_ERROR)]) = true /\
  currentState
    (run initialState
       [(10, START_CONVERSATION None None); (20, ERROR_OCCURRED None);
        (30, START_SPEAKING); (40, RESET_ERROR)]) = LISTENING.
Proof.
  split; [|split; reflexivity].
  apply (reach_step guard_ok _ 40 RESET_ERROR); [|reflexivity].
  apply (reach_step guard_ok _ 30 START_SPEAKING); [|reflexivity].
  apply (reach_step guard_ok _ 20 (ERROR_OCCURRED None)); [|reflexivity].
  apply (reach_step guard_ok _ 10 (START_CONVERSATION None None));
    [|reflexivity].
  apply reach_init.
Qed.

(** C10, as the reducer has it.  In every state reached from the initial
    state by dispatches where SPEECH_DETECTED is applied only while
    'listening', a 'speaking' state has [canInterrupt] true, and the hook's
    [canInterrupt()] holds exactly in the 'speaking' state.  When moreover
    RESET_ERROR and START_CONVERSATION are not applied while 'speaking',
    [canInterrupt] is true if and only if the state is 'speaking'. *)
Theorem canInterrupt_invariant :
  (forall s, reachable guard_ok s ->
     (currentState s = SPEAKING -> canInterrupt s = true) /\
     (canInterruptNow s = true <-> currentState s = SPEAKING)) /\
  (forall s, reachable guard_strict s ->
     (canInterrupt s = true <-> currentState s = SPEAKING)).
Proof.
  split; intros s Hr.
  - pose proof (speaking_canInterrupt _ _ Hr) as Hs.
    split; [exact Hs|]. unfold canInterruptNow. split.
    + intros H. apply andb_true_iff in H as [_ H].
      apply bool_decide_eq_true in H. exact H.
    + intros H. rewrite (Hs H). simpl. apply bool_decide_eq_true. exact H.
  - split; [apply canInterrupt_speaking
           | apply speaking_canInterrupt with guard_strict]; assumption.
Qed.

End ConversationFacts.

(** The theorems above at a conversation that has just been started, at a
    state that is speaking, and at the initial state. *)
Lemma finish_and_reset_return_witness :
  Conversation.currentState
    (Conversation.conversationReducer 5
       (Conversation.conversationReducer 1 Conversation.initialState
          (Conversation.START_CONVERSATION None None))
       Conversation.FINISH_SPEAKING) = Conversation.LISTENING /\
  Conversation.currentState
    (Conversation.conversationReducer 5 Conversation.initialState
       Conversation.RESET_ERROR) = Conversation.IDLE.
Proof.
  split.
  - exact (proj1 (proj1 (finish_and_reset_return 5
             (Conversation.conversationReducer 1 Conversation.initialState
                (Conversation.START_CONVERSATION None None))) eq_refl)).
  - refine (proj2 (proj1 (proj2 (finish_and_reset_return 5
             Conversation.initialState)) _)).
    discriminate.
Defined.

Lemma startSpeaking_cutoff_witness :
  Conversation.currentState
    (fst (Conversation.startSpeaking
            (Conversation.mkConfig true 5000 300000 2) 9
            (Conversation.run Conversation.initialState
               [(1, Conversation.START_CONVERSATION None None);
                (2, Conversation.START_SPEAKING);
                (3, Conversation.FINISH_SPEAKING);
                (4, Conversation.START_SPEAKING);
                (5, Conversation.FINISH_SPEAKING)])))
    = Conversation.IDLE /\
  Conversation.currentState
    (fst (Conversation.startSpeaking
            (Conversation.mkConfig true 5000 300000 2) 9
            (Conversation.run Conversation.initialState
               [(1, Conversation.START_CONVERSATION None None)])))
    = Conversation.SPEAKING.
Proof.
  split.
  - refine (proj1 (proj2 (proj2 (proj1 (startSpeaking_cutoff
             (Conversation.mkConfig true 5000 300000 2) 9 _) _)))).
    vm_compute. split; [reflexivity | discriminate].
  - refine (proj1 (proj2 (proj2 (startSpeaking_cutoff
             (Conversation.mkConfig true 5000 300000 2) 9 _) _))).
    vm_compute. intros [_ H]. apply H. reflexivity.
Defined.

Lemma interruptSpeaking_frame_witness :
  fst (Conversation.interruptSpeaking
         (Conversation.mkConfig true 5000 300000 50) 7
         Conversation.initialState) = Conversation.initialState /\
  Conversation.currentState
    (fst (Conversation.interruptSpeaking
            (Conversation.mkConfig true 5000 300000 50) 7
            (Conversation.conversationReducer 3 Conversation.initialState
               Conversation.START_SPEAKING))) = Conversation.INTERRUPTED.
Proof.
  split.
  - exact (proj1 (interruptSpeaking_frame _ 7 Conversation.initialState)
             eq_refl).
  - exact (proj1 (proj2 (proj2 (interruptSpeaking_frame _ 7
             (Conversation.conversationReducer 3 Conversation.initialState
                Conversation.START_SPEAKING)) eq_refl))).
Defined.

Lemma onSpeechDetected_guard_witness :
  Conversation.currentState
    (fst (Conversation.onSpeechDetected 4
            (Conversation.conversationReducer 1 Conversation.initialState
               (Conversation.START_CONVERSATION None None))))
    = Conversation.PROCESSING /\
  fst (Conversation.onSpeechDetected 4 Conversation.initialState)
    = Conversation.initialState.
Proof.
  split.
  - exact (proj2 (proj1 (onSpeechDetected_guard 4
             (Conversation.conversationReducer 1 Conversation.initialState
                (Conversation.START_CONVERSATION None None))) eq_refl)).
  - refine (proj2 (onSpeechDetected_guard 4 Conversation.initialState) _).
    discriminate.
Defined.

Lemma canInterrupt_invariant_witness :
  Conversation.canInterrupt
    (Conversation.conversationReducer 2
       (Conversation.conversationReducer 1 Conversation.initialState
          (Conversation.START_CONVERSATION None None))
       Conversation.START_SPEAKING) = true.
Proof.
  refine (proj2 (proj2 canInterrupt_invariant
            (Conversation.conversationReducer 2
               (Conversation.conversationReducer 1
                  Conversation.initialState
                  (Conversation.START_CONVERSATION None None))
               Conversation.START_SPEAKING) _) eq_refl).
  apply (Conversation.reach_step Conversation.guard_strict _ 2
           Conversation.START_SPEAKING); [|reflexivity].
  apply (Conversation.reach_step Conversation.guard_strict _ 1
           (Conversation.START_CONVERSATION None None)); [|reflexivity].
  apply Conversation.reach_init.
Defined.

(* ===================================================================== *)
(** * Doubles: sign and range of the volume                               *)
(* ===================================================================== *)

Section VolumeFacts.

Import VAD.

(** ** Rounding keeps the sign *)

Lemma shr_1_nonneg mrs : 0 <= shr_m mrs -> 0 <= shr_m (shr_1 mrs).
Proof.
  destruct mrs as [m r s]. simpl. intros H.
  destruct m as [|p|p]; [simpl; lia | | lia].
  destruct p; simpl; lia.
Qed.

Lemma iter_shr_1_nonneg p : forall mrs,
  0 <= shr_m mrs -> 0 <= shr_m (SpecFloat.iter_pos shr_1 p mrs).
Proof.
  induction p as [p IH|p IH|]; intros mrs H; simpl.
  - apply IH, IH, shr_1_nonneg, H.
  - apply IH, IH, H.
  - apply shr_1_nonneg, H.
Qed.

Lemma shr_fexp_nonneg m e l :
  0 <= m -> 0 <= shr_m (fst (shr_fexp prec emax m e l)).
Proof.
  intros H. unfold shr_fexp, shr.
  assert (H0 : 0 <= shr_m (shr_record_of_loc m l))
    by (destruct l as [|[]]; exact H).
  destruct (fexp prec emax (Zdigits2 m + e) - e); simpl; auto.
  apply iter_shr_1_nonneg, H0.
Qed.

Lemma round_nearest_even_nonneg m l :
  0 <= m -> 0 <= round_nearest_even m l.
Proof.
  intros H. destruct l as [|[]]; simpl; try lia.
  destruct (Z.even m); lia.
Qed.

Lemma binary_round_aux_signed s m e l :
  0 <= m -> signed s (binary_round_aux prec emax s m e l).
Proof.
  intros H. unfold binary_round_aux.
  pose proof (shr_fexp_nonneg m e l H) as H1.
  destruct (shr_fexp prec emax m e l) as [mrs' e']. simpl in H1.
  pose proof (shr_fexp_nonneg _ e' loc_Exact
                (round_nearest_even_nonneg _ (loc_of_shr_record mrs') H1))
    as H2.
  destruct (shr_fexp prec emax _ e' loc_Exact) as [mrs'' e'']. simpl in H2.
  destruct (shr_m mrs'') as [|p|p]; simpl; [reflexivity| |lia].
  destruct (e'' <=? emax - prec); reflexivity.
Qed.

Lemma binary_round_signed s m e : signed s (binary_round prec emax s m e).
Proof.
  unfold binary_round. destruct (shl_align _ _ _) as [mz ez].
  apply binary_round_aux_signed. lia.
Qed.

Lemma SFadd_signed x y :
  signed false x -> signed false y -> signed false (SF64add x y).
Proof.
  destruct x as [sx|sx| |sx mx ex], y as [sy|sy| |sy my ey]; simpl;
    intros Hx Hy; subst; try contradiction; try reflexivity.
  apply binary_round_signed.
Qed.

Lemma SFdiv_signed x my ey :
  signed false x -> signed false (SF64div x (S754_finite false my ey)).
Proof.
  destruct x as [sx|sx| |sx mx ex]; simpl; intros Hx; subst;
    try contradiction; try reflexivity.
  unfold SF64div, SFdiv, SFdiv_core_binary.
  set (m' := match _ with Z0 => Z.pos mx | Z.pos _ => _ | Z.neg _ => 0 end).
  assert (Hm : 0 <= m').
  { subst m'. destruct (_ - _ - _); try lia. apply Z.shiftl_nonneg. lia. }
  pose proof (Z.div_pos m' (Z.pos my) Hm ltac:(lia)) as Hq.
  unfold Z.div in Hq. destruct (Z.div_eucl m' (Z.pos my)) as [q r].
  apply binary_round_aux_signed. exact Hq.
Qed.

Lemma SFmul_signed x my ey :
  signed false x -> signed false (SF64mul x (S754_finite false my ey)).
Proof.
  destruct x as [sx|sx| |sx mx ex]; simpl; intros Hx; subst;
    try contradiction; try reflexivity.
  apply binary_round_aux_signed. lia.
Qed.

Lemma of_uint63_signed n : signed false (Prim2SF (PrimFloat.of_uint63 n)).
Proof.
  rewrite FloatAxioms.of_uint63_spec. unfold binary_normalize.
  pose proof (Uint63.to_Z_bounded n) as H.
  destruct (Uint63.to_Z n); [reflexivity | apply binary_round_signed | lia].
Qed.

Lemma digits2_size p : digits2_pos p = Pos.size p.
Proof. induction p; simpl; congruence. Qed.

Lemma digits2_iter_xO k : forall p,
  digits2_pos (Pos.iter xO p k) = (digits2_pos p + k)%positive.
Proof.
  induction k using Pos.peano_ind; intros p.
  - simpl. lia.
  - rewrite Pos.iter_succ. simpl. rewrite IHk. lia.
Qed.

Lemma digits2_bound p : Z.pos p < 2 ^ 53 -> Z.pos (digits2_pos p) <= 53.
Proof.
  intros H. rewrite digits2_size.
  destruct (Z_le_gt_dec (Z.pos (Pos.size p)) 53) as [|Hgt]; [assumption|].
  exfalso.
  pose proof (Pos.size_le p) as Hle.
  apply Pos2Z.pos_le_pos in Hle. rewrite Pos2Z.inj_pow in Hle.
  assert (H54 : 2 ^ 54 <= 2 ^ Z.pos (Pos.size p))
    by (apply Z.pow_le_mono_r; lia).
  change (Z.pos p~0) with (2 * Z.pos p) in Hle.
  change (2 ^ 53) with 9007199254740992 in H.
  change (2 ^ 54) with 18014398509481984 in H54.
  lia.
Qed.

(** Below 2^53 the conversion of a positive integer is a finite number. *)
Lemma binary_round_int p :
  Z.pos p < 2 ^ 53 ->
  exists m e, binary_round prec emax false p 0 = S754_finite false m e.
Proof.
  intros H. apply digits2_bound in H.
  unfold binary_round, shl_align.
  set (d := digits2_pos p) in *.
  assert (Hf : fexp prec emax (Z.pos d + 0) = Z.pos d - 53).
  { unfold fexp, emin, prec, emax. lia. }
  rewrite Hf.
  assert (Hexact : forall m e, fexp prec emax (Z.pos (digits2_pos m) + e) = e ->
            e <= emax - prec ->
            binary_round_aux prec emax false (Z.pos m) e loc_Exact
              = S754_finite false m e).
  { intros m e He Hmax. unfold binary_round_aux, shr_fexp. simpl Zdigits2.
    rewrite He, Z.sub_diag. simpl. rewrite He, Z.sub_diag. simpl.
    apply Z.leb_le in Hmax. rewrite Hmax. reflexivity. }
  destruct (Z.pos d - 53 - 0) as [|k|k] eqn:Hk.
  - exists p, 0.
    apply Hexact; [fold d; rewrite Hf; lia | unfold emax, prec; lia].
  - lia.
  - exists (Pos.iter xO p k), (Z.pos d - 53). apply Hexact.
    + rewrite digits2_iter_xO. fold d. unfold fexp, emin, prec, emax. lia.
    + unfold emax, prec. lia.
Qed.

Lemma of_length_finite (n : nat) :
  (0 < n)%nat -> Z.of_nat n < 2 ^ 53 ->
  exists m e, Prim2SF (of_length n) = S754_finite false m e.
Proof.
  intros Hn Hb. unfold of_length. rewrite FloatAxioms.of_uint63_spec.
  rewrite Uint63.of_Z_spec.
  rewrite Z.mod_small.
  2:{ split; [lia|]. eapply Z.lt_trans; [exact Hb|]. reflexivity. }
  destruct (Z.of_nat n) as [|p|p] eqn:E; [lia | | lia].
  simpl. apply binary_round_int. exact Hb.
Qed.

Lemma add_nonneg x y : nonneg x -> nonneg y -> nonneg (x + y)%float.
Proof. unfold nonneg. rewrite FloatAxioms.add_spec. apply SFadd_signed. Qed.

Lemma sumBytes_nonneg data : nonneg (sumBytes data).
Proof.
  unfold sumBytes.
  assert (H : nonneg 0%float) by reflexivity.
  revert H. generalize 0%float.
  induction data as [|b data IH]; intros acc H; simpl; [exact H|].
  apply IH, add_nonneg; [exact H | apply of_uint63_signed].
Qed.

Lemma scaled_nonneg (data : list Byte.byte) :
  (0 < length data)%nat -> Z.of_nat (length data) < 2 ^ 53 ->
  nonneg (sumBytes data / of_length (length data) / 255 * 100)%float.
Proof.
  intros Hn Hb. unfold nonneg.
  destruct (of_length_finite _ Hn Hb) as (m & e & Hlen).
  rewrite FloatAxioms.mul_spec, !FloatAxioms.div_spec, Hlen.
  change (Prim2SF 255) with (S754_finite false 8972014882652160 (-45)).
  change (Prim2SF 100) with (S754_finite false 7036874417766400 (-46)).
  apply SFmul_signed, SFdiv_signed, SFdiv_signed, sumBytes_nonneg.
Qed.

Lemma SFcompare_antisym m1 e1 m2 e2 c :
  SFcompare (S754_finite false m1 e1) (S754_finite false m2 e2) = Some c ->
  SFcompare (S754_finite false m2 e2) (S754_finite false m1 e1)
    = Some (CompOpp c).
Proof.
  simpl. intros H. injection H as <-. f_equal.
  rewrite (Z.compare_antisym e1 e2).
  destruct (e1 ?= e2); simpl; try reflexivity.
  rewrite Pos.compare_cont_antisym. reflexivity.
Qed.

Lemma SFcompare_refl x : signed false x -> SFcompare x x = Some Eq.
Proof.
  destruct x as [s|s| |s m e]; simpl; intros H; subst;
    try contradiction; try reflexivity.
  rewrite Z.compare_refl, Pos.compare_cont_refl. reflexivity.
Qed.

Lemma Math_min_range v :
  nonneg v ->
  (0 <=? Math_min 100 v)%float = true /\ (Math_min 100 v <=? 100)%float = true.
Proof.
  unfold nonneg. intros H. unfold Math_min.
  assert (Hnan : PrimFloat.is_nan v = false).
  { unfold PrimFloat.is_nan. rewrite FloatAxioms.eqb_spec. unfold SFeqb.
    rewrite SFcompare_refl by exact H. reflexivity. }
  change (PrimFloat.is_nan 100) with false. rewrite Hnan. simpl orb. cbv iota.
  change (PrimFloat.get_sign 100) with false. cbv iota.
  rewrite !FloatAxioms.ltb_spec. unfold SFltb.
  change (Prim2SF 100) with (S754_finite false 7036874417766400 (-46)).
  destruct (Prim2SF v) as [s|s| |s m e] eqn:Hv; simpl in H; subst;
    try contradiction.
  - simpl. rewrite !FloatAxioms.leb_spec, Hv. split; reflexivity.
  - simpl. split; reflexivity.
  - destruct (SFcompare (S754_finite false 7036874417766400 (-46))
                (S754_finite false m e)) as [c|] eqn:Hc; [|discriminate].
    rewrite (SFcompare_antisym _ _ _ _ _ Hc).
    destruct c; simpl; rewrite ?FloatAxioms.leb_spec, ?Hv; unfold SFleb;
      change (Prim2SF 100) with (S754_finite false 7036874417766400 (-46));
      rewrite ?(SFcompare_antisym _ _ _ _ _ Hc); split; reflexivity.
Qed.

Lemma iter_pos_nat {A} (f : A -> A) p : forall x,
  SpecFloat.iter_pos f p x = Nat.iter (Pos.to_nat p) f x.
Proof.
  induction p as [p IH|p IH|]; intros x; cbn [SpecFloat.iter_pos].
  - rewrite !IH. rewrite Pos2Nat.inj_xI.
    replace (S (2 * Pos.to_nat p))%nat
      with (Pos.to_nat p + (Pos.to_nat p + 1))%nat by lia.
    rewrite !Nat.iter_add. reflexivity.
  - rewrite !IH. rewrite Pos2Nat.inj_xO.
    replace (2 * Pos.to_nat p)%nat
      with (Pos.to_nat p + Pos.to_nat p)%nat by lia.
    rewrite Nat.iter_add. reflexivity.
  - reflexivity.
Qed.

Lemma Pos_iter_nat {A} (f : A -> A) (x : A) p :
  Pos.iter f x p = Nat.iter (Pos.to_nat p) f x.
Proof. exact (Pos2Nat.inj_iter p (A:=A) f x). Qed.

Lemma shr_1_iter_xO n : forall m,
  Nat.iter n shr_1 (Build_shr_record (Z.pos (Nat.iter n xO m)) false false)
  = Build_shr_record (Z.pos m) false false.
Proof.
  induction n as [|n IH]; intros m; [reflexivity|].
  rewrite Nat.iter_succ_r, Nat.iter_succ. cbn [shr_1 orb]. apply IH.
Qed.

Lemma iter_xO_Z p (j : nat) :
  Z.pos (Nat.iter j xO p) = Z.pos p * 2 ^ Z.of_nat j.
Proof.
  induction j as [|j IH]; [simpl; lia|].
  rewrite Nat.iter_succ, Pos2Z.inj_xO, IH, Nat2Z.inj_succ, Z.pow_succ_r
    by lia.
  lia.
Qed.

Lemma shiftPos_Z p k : 0 <= k -> Z.pos (shiftPos p k) = Z.pos p * 2 ^ k.
Proof.
  intros Hk. destruct k as [|n|n]; [simpl; lia | | lia].
  cbn [shiftPos]. rewrite Pos_iter_nat, iter_xO_Z, positive_nat_Z.
  reflexivity.
Qed.

Lemma digits2_shiftPos p k :
  0 <= k -> Z.pos (digits2_pos (shiftPos p k)) = Z.pos (digits2_pos p) + k.
Proof.
  intros Hk. destruct k as [|n|n]; [simpl; lia | | lia].
  cbn [shiftPos]. rewrite digits2_iter_xO. lia.
Qed.

(** A mantissa of 53 bits followed by [j] zero bits is rounded to itself. *)
Lemma binary_round_aux_exact (M : positive) (E j : Z) :
  Z.pos (digits2_pos M) = 53 -> -1074 <= E <= 971 -> 0 <= j ->
  binary_round_aux prec emax false (Z.pos (shiftPos M j)) (E - j) loc_Exact
  = S754_finite false M E.
Proof.
  intros Hd HE Hj.
  assert (Hf : fexp prec emax (53 + E) = E)
    by (unfold fexp, emin, prec, emax; lia).
  assert (Hsnd : shr_fexp prec emax (Z.pos M) E loc_Exact
                 = (Build_shr_record (Z.pos M) false false, E)).
  { unfold shr_fexp. cbn [Zdigits2]. rewrite Hd, Hf, Z.sub_diag.
    reflexivity. }
  assert (Hfst : shr_fexp prec emax (Z.pos (shiftPos M j)) (E - j) loc_Exact
                 = (Build_shr_record (Z.pos M) false false, E)).
  { unfold shr_fexp. cbn [Zdigits2]. rewrite digits2_shiftPos by exact Hj.
    rewrite Hd. replace (53 + j + (E - j)) with (53 + E) by lia.
    rewrite Hf. replace (E - (E - j)) with j by lia.
    destruct j as [|n|n]; [simpl; f_equal; lia | | lia].
    cbn [shr shiftPos shr_record_of_loc]. rewrite iter_pos_nat.
    rewrite Pos_iter_nat, shr_1_iter_xO. f_equal. lia. }
  unfold binary_round_aux. rewrite Hfst.
  cbn [shr_m loc_of_shr_record round_nearest_even]. rewrite Hsnd.
  cbn [shr_m].
  replace (E <=? emax - prec) with true; [reflexivity|].
  symmetry. apply Z.leb_le. unfold emax, prec. lia.
Qed.

Lemma digits2_spec p :
  2 ^ (Z.pos (digits2_pos p) - 1) <= Z.pos p < 2 ^ Z.pos (digits2_pos p).
Proof.
  rewrite digits2_size.
  pose proof (Pos.size_gt p) as Hgt. pose proof (Pos.size_le p) as Hle.
  apply Pos2Z.pos_lt_pos in Hgt. apply Pos2Z.pos_le_pos in Hle.
  rewrite Pos2Z.inj_pow in Hgt, Hle.
  change (Z.pos p~0) with (2 * Z.pos p) in Hle.
  replace (Z.pos (Pos.size p)) with (Z.succ (Z.pos (Pos.size p) - 1)) in Hle
    by lia.
  rewrite Z.pow_succ_r in Hle by lia. lia.
Qed.

Lemma digits2_mono p q :
  Z.pos p <= Z.pos q -> Z.pos (digits2_pos p) <= Z.pos (digits2_pos q).
Proof.
  intros H. pose proof (digits2_spec p) as [Plo _].
  pose proof (digits2_spec q) as [_ Qhi].
  destruct (Z_le_gt_dec (Z.pos (digits2_pos p)) (Z.pos (digits2_pos q)))
    as [|Hgt]; [assumption|].
  assert (2 ^ Z.pos (digits2_pos q) <= 2 ^ (Z.pos (digits2_pos p) - 1))
    by (apply Z.pow_le_mono_r; lia).
  lia.
Qed.

Lemma shiftPos_shiftPos p j k :
  0 <= j -> 0 <= k -> shiftPos (shiftPos p j) k = shiftPos p (j + k).
Proof.
  intros Hj Hk. apply Pos2Z.inj.
  rewrite !shiftPos_Z, Z.pow_add_r by lia. lia.
Qed.

Lemma shiftPos_add a b t :
  0 <= t -> (shiftPos a t + shiftPos b t)%positive = shiftPos (a + b) t.
Proof.
  intros Ht. apply Pos2Z.inj.
  rewrite Pos2Z.inj_add, !shiftPos_Z, Pos2Z.inj_add by lia. lia.
Qed.

(** Rounding [v * 2^t] held at exponent [-t]: the integer [v] itself. *)
Lemma binary_round_canon (v : positive) (t : Z) :
  0 <= t -> Z.pos v < 2 ^ 53 ->
  binary_round prec emax false (shiftPos v t) (- t) = canon v.
Proof.
  intros Ht Hv. pose proof (digits2_bound v Hv) as Hd.
  set (d := Z.pos (digits2_pos v)) in *.
  assert (Hd1 : 1 <= d) by (subst d; lia).
  assert (HM : Z.pos (digits2_pos (shiftPos v (53 - d))) = 53).
  { rewrite digits2_shiftPos by lia. fold d. lia. }
  unfold binary_round, canon. fold d.
  rewrite digits2_shiftPos by lia. fold d.
  replace (fexp prec emax (d + t + - t)) with (d - 53)
    by (unfold fexp, emin, prec, emax; lia).
  unfold shl_align.
  destruct (d - 53 - - t) as [|k|k] eqn:Hk.
  - replace (shiftPos v t) with (shiftPos (shiftPos v (53 - d)) 0)
      by (rewrite shiftPos_shiftPos by lia; f_equal; lia).
    replace (- t) with (d - 53 - 0) by lia.
    apply binary_round_aux_exact; lia.
  - replace (shiftPos v t)
      with (shiftPos (shiftPos v (53 - d)) (Z.pos k))
      by (rewrite shiftPos_shiftPos by lia; f_equal; lia).
    replace (- t) with (d - 53 - Z.pos k) by lia.
    apply binary_round_aux_exact; lia.
  - change (Pos.iter xO (shiftPos v t) k)
      with (shiftPos (shiftPos v t) (Z.pos k)).
    rewrite shiftPos_shiftPos by lia.
    replace (t + Z.pos k) with (53 - d) by lia.
    replace (shiftPos v (53 - d))
      with (shiftPos (shiftPos v (53 - d)) 0) at 1 by reflexivity.
    replace (d - 53) with (d - 53 - 0) at 1 by lia.
    apply binary_round_aux_exact; lia.
Qed.

Lemma shl_align_fst m e ez :
  ez <= e -> fst (shl_align m e ez) = shiftPos m (e - ez).
Proof.
  intros H. unfold shl_align.
  destruct (ez - e) as [|k|k] eqn:Hk; cbn [fst].
  - replace (e - ez) with 0 by lia. reflexivity.
  - lia.
  - replace (e - ez) with (Z.pos k) by lia. reflexivity.
Qed.

(** The sum of two integers, below 2^53, is computed without rounding. *)
Lemma SFadd_canon (a b : positive) :
  Z.pos (a + b) < 2 ^ 53 ->
  SFadd prec emax (canon a) (canon b) = canon (a + b).
Proof.
  intros Hab.
  assert (Ha : Z.pos a < 2 ^ 53) by lia.
  assert (Hb : Z.pos b < 2 ^ 53) by lia.
  pose proof (digits2_bound a Ha) as Hda.
  pose proof (digits2_bound b Hb) as Hdb.
  unfold canon at 1 2. cbn [SFadd cond_Zopp].
  set (da := Z.pos (digits2_pos a)) in *.
  set (db := Z.pos (digits2_pos b)) in *.
  set (ez := Z.min (da - 53) (db - 53)).
  rewrite !shl_align_fst by (subst ez; lia).
  rewrite !shiftPos_shiftPos by (subst ez; lia).
  replace (53 - da + (da - 53 - ez)) with (- ez) by lia.
  replace (53 - db + (db - 53 - ez)) with (- ez) by lia.
  rewrite <- Pos2Z.inj_add, shiftPos_add by (subst ez; lia).
  cbn [binary_normalize].
  replace ez with (- - ez) at 2 by lia.
  apply binary_round_canon; [subst ez; lia | exact Hab].
Qed.

Lemma ofZ_zero : Prim2SF (ofZ 0) = S754_zero false.
Proof. reflexivity. Qed.

Lemma ofZ_canon (p : positive) :
  Z.pos p < 2 ^ 53 -> Prim2SF (ofZ (Z.pos p)) = canon p.
Proof.
  intros H. unfold ofZ. rewrite FloatAxioms.of_uint63_spec, Uint63.of_Z_spec.
  rewrite Z.mod_small.
  2:{ split; [lia|]. eapply Z.lt_trans; [exact H|]. reflexivity. }
  cbn [binary_normalize].
  exact (binary_round_canon p 0 (Z.le_refl 0) H).
Qed.

Lemma ofZ_add (a b : Z) :
  0 <= a -> 0 <= b -> a + b < 2 ^ 53 -> (ofZ a + ofZ b)%float = ofZ (a + b).
Proof.
  intros Ha Hb Hab. apply Prim2SF_inj. rewrite FloatAxioms.add_spec.
  destruct a as [|a|a]; [|  |lia]; destruct b as [|b|b]; try lia.
  - reflexivity.
  - rewrite ofZ_zero, Z.add_0_l, (ofZ_canon b) by lia. reflexivity.
  - rewrite ofZ_zero, Z.add_0_r, (ofZ_canon a) by lia. reflexivity.
  - rewrite (ofZ_canon a), (ofZ_canon b) by lia.
    change (Z.pos a + Z.pos b) with (Z.pos (a + b)).
    rewrite (ofZ_canon (a + b)) by exact Hab.
    apply SFadd_canon. exact Hab.
Qed.

Lemma byteSum_bound data : 0 <= byteSum data <= 255 * Z.of_nat (length data).
Proof.
  induction data as [|b data IH]; [simpl; lia|].
  cbn [byteSum fold_right length]. fold (byteSum data).
  pose proof (Byte.to_N_bounded b). lia.
Qed.

Lemma sumBytes_from (data : list Byte.byte) : forall acc,
  0 <= acc -> acc + byteSum data < 2 ^ 53 ->
  fold_left (fun sum b => (sum + of_byte b)%float) data (ofZ acc)
  = ofZ (acc + byteSum data).
Proof.
  induction data as [|b data IH]; intros acc Hacc Hb.
  - simpl. rewrite Z.add_0_r. reflexivity.
  - cbn [fold_left byteSum fold_right] in *. fold (byteSum data) in *.
    pose proof (byteSum_bound data) as [Hs _].
    assert (Hbyte : 0 <= Z.of_N (Byte.to_N b)) by lia.
    change (of_byte b) with (ofZ (Z.of_N (Byte.to_N b))).
    rewrite ofZ_add by lia. rewrite IH by lia. f_equal. lia.
Qed.

(** The accumulation loop computes the sum of the bytes exactly. *)
Lemma sumBytes_exact (data : list Byte.byte) :
  255 * Z.of_nat (length data) < 2 ^ 53 ->
  sumBytes data = ofZ (byteSum data).
Proof.
  intros H. pose proof (byteSum_bound data). unfold sumBytes.
  change 0%float with (ofZ 0) at 1.
  rewrite sumBytes_from by lia. reflexivity.
Qed.

Lemma div_eucl_exact a b Q : 0 < b -> a = b * Q -> Z.div_eucl a b = (Q, 0).
Proof.
  intros Hb E. pose proof (Z_div_mod a b ltac:(lia)) as H.
  destruct (Z.div_eucl a b) as [q' r]. destruct H as [H1 H2].
  assert (q' = Q) by nia. subst q'. f_equal. lia.
Qed.

Lemma digits2_mul (q n : positive) :
  Z.pos (digits2_pos (q * n)) <= Z.pos (digits2_pos q) + Z.pos (digits2_pos n).
Proof.
  pose proof (digits2_spec q) as [_ Hq]. pose proof (digits2_spec n) as [_ Hn].
  pose proof (digits2_spec (q * n)) as [Hlo _].
  set (dq := Z.pos (digits2_pos q)) in *.
  set (dn := Z.pos (digits2_pos n)) in *.
  set (d := Z.pos (digits2_pos (q * n))) in *.
  destruct (Z_le_gt_dec d (dq + dn)) as [|Hgt]; [assumption|].
  assert (H1 : 2 ^ (dq + dn) <= 2 ^ (d - 1))
    by (apply Z.pow_le_mono_r; lia).
  rewrite Z.pow_add_r in H1 by (subst dq dn; lia).
  rewrite Pos2Z.inj_mul in Hlo.
  assert (Z.pos q * Z.pos n < 2 ^ dq * 2 ^ dn) by nia.
  lia.
Qed.

(** A quotient that is an integer is computed without rounding. *)
Lemma SFdiv_canon (q n : positive) :
  Z.pos (q * n) < 2 ^ 53 ->
  SFdiv prec emax (canon (q * n)) (canon n) = canon q.
Proof.
  intros Hqn.
  assert (Hle1 : Z.pos n <= Z.pos (q * n)) by (rewrite Pos2Z.inj_mul; nia).
  assert (Hle2 : Z.pos q <= Z.pos (q * n)) by (rewrite Pos2Z.inj_mul; nia).
  assert (Hn : Z.pos n < 2 ^ 53) by lia.
  assert (Hq : Z.pos q < 2 ^ 53) by lia.
  pose proof (digits2_bound _ Hqn) as Hd1.
  pose proof (digits2_bound _ Hq) as Hdq.
  pose proof (digits2_mono _ _ Hle1) as Hdn1.
  pose proof (digits2_mul q n) as Hmul.
  unfold canon at 1 2. cbn [SFdiv xorb]. unfold SFdiv_core_binary.
  cbn [Zdigits2]. rewrite !digits2_shiftPos by lia.
  set (d1 := Z.pos (digits2_pos (q * n))) in *.
  set (dn := Z.pos (digits2_pos n)) in *.
  set (dq := Z.pos (digits2_pos q)) in *.
  assert (Hdn0 : 1 <= dn) by (subst dn; lia).
  assert (Hdq0 : 1 <= dq) by (subst dq; lia).
  replace (fexp prec emax (d1 + (53 - d1) + (d1 - 53)
                           - (dn + (53 - dn) + (dn - 53))))
    with (d1 - dn - 53) by (unfold fexp, emin, prec, emax; lia).
  replace (Z.min (d1 - dn - 53) (d1 - 53 - (dn - 53)))
    with (d1 - dn - 53) by lia.
  replace (d1 - 53 - (dn - 53) - (d1 - dn - 53)) with 53 by lia.
  cbv beta iota zeta.
  rewrite (div_eucl_exact _ _ (Z.pos (shiftPos q (53 - d1 + dn)))).
  - replace (new_location (Z.pos (shiftPos n (53 - dn))) 0) with loc_Exact
      by (unfold new_location, new_location_even, new_location_odd;
          destruct (Z.even _); reflexivity).
    replace (shiftPos q (53 - d1 + dn))
      with (shiftPos (shiftPos q (53 - dq)) (dq + dn - d1))
      by (rewrite shiftPos_shiftPos by lia; f_equal; lia).
    replace (d1 - dn - 53) with (dq - 53 - (dq + dn - d1)) by lia.
    unfold canon. fold dq.
    apply binary_round_aux_exact; [|lia|lia].
    rewrite digits2_shiftPos by lia. fold dq. lia.
  - lia.
  - rewrite Z.shiftl_mul_pow2 by lia.
    rewrite !shiftPos_Z by lia. rewrite Pos2Z.inj_mul.
    replace (2 ^ (53 - d1 + dn)) with (2 ^ (53 - d1) * 2 ^ dn)
      by (rewrite <- Z.pow_add_r by lia; reflexivity).
    assert (E : 2 ^ 53 = 2 ^ (53 - dn) * 2 ^ dn)
      by (rewrite <- Z.pow_add_r by lia; f_equal; lia).
    rewrite E. ring.
Qed.

Lemma ofZ_div (q n : Z) :
  0 <= q -> 0 < n < 2 ^ 53 -> q * n < 2 ^ 53 ->
  (ofZ (q * n) / ofZ n)%float = ofZ q.
Proof.
  intros Hq [Hn Hn'] Hqn. apply Prim2SF_inj. rewrite FloatAxioms.div_spec.
  destruct n as [|n|n]; try lia. destruct q as [|q|q]; try lia.
  - rewrite Z.mul_0_l, ofZ_zero, (ofZ_canon n) by lia. reflexivity.
  - change (Z.pos q * Z.pos n) with (Z.pos (q * n)) in *.
    assert (Z.pos n <= Z.pos (q * n)) by (rewrite Pos2Z.inj_mul; nia).
    assert (Z.pos q <= Z.pos (q * n)) by (rewrite Pos2Z.inj_mul; nia).
    rewrite (ofZ_canon (q * n)), (ofZ_canon n), (ofZ_canon q) by lia.
    apply SFdiv_canon. exact Hqn.
Qed.

Lemma SFcompare_sym x y c :
  SFcompare x y = Some c -> SFcompare y x = Some (CompOpp c).
Proof.
  destruct x as [sx|sx| |sx mx ex], y as [sy|sy| |sy my ey];
    try discriminate;
    try (destruct sx; simpl; intros H; injection H as <-; reflexivity);
    try (destruct sy; simpl; intros H; injection H as <-; reflexivity);
    try (destruct sx, sy; simpl; intros H; injection H as <-; reflexivity).
  destruct sx, sy; simpl; intros H; injection H as <-; try reflexivity;
      rewrite (Z.compare_antisym ex ey); destruct (ex ?= ey); simpl;
      try reflexivity; rewrite (Pos.compare_cont_antisym mx my);
      simpl; rewrite ?CompOpp_involutive; reflexivity.
Qed.

(** Equal numbers are not ordered. *)
Lemma eqb_not_ltb (x y : float) :
  (x =? y)%float = true -> (y <? x)%float = false.
Proof.
  rewrite FloatAxioms.eqb_spec, FloatAxioms.ltb_spec. unfold SFeqb, SFltb.
  destruct (SFcompare (Prim2SF x) (Prim2SF y)) as [c|] eqn:E;
    [|discriminate].
  rewrite (SFcompare_sym _ _ _ E). destruct c; [reflexivity| |]; discriminate.
Qed.

Lemma calculateVolume_spec (data : list Byte.byte) :
  255 * Z.of_nat (length data) < 2 ^ 53 ->
  calculateVolume data = specVolume data.
Proof.
  intros H. unfold calculateVolume, specVolume.
  rewrite sumBytes_exact by exact H. reflexivity.
Qed.

Lemma byteSum_const (b : Byte.byte) (data : list Byte.byte) :
  Forall (fun x => x = b) data ->
  byteSum data = Z.of_N (Byte.to_N b) * Z.of_nat (length data).
Proof.
  intros Hall. induction Hall as [|x l -> _ IH]; [simpl; lia|].
  cbn [byteSum fold_right length]. fold (byteSum l).
  rewrite IH, Nat2Z.inj_succ. lia.
Qed.

(** C4. The volume of a polled frame is min(100, (mean / 255) x 100) of
    its frequency bytes: the accumulation loop holds the sum of the bytes
    exactly, so that [calculateVolume] is [specVolume], the same formula
    over the integer sum and the number of bytes; whenever the mean is an
    integer [q] the division by the length returns [q] itself, so that a
    frame of zeros has volume 0 and a frame at full scale has volume 100.
    The volume lies in [[0, 100]].  The frame is classified as speech
    exactly when that volume is strictly greater than [silenceThreshold]:
    a volume equal to the threshold is silence, and an active detector
    reports the volume and hands the frame to the speech handler in the
    first case, to the silence handler otherwise.  The frame has at least
    one byte (an analyser has at least 16 bins; without a byte the mean is
    0 / 0) and the sum of its bytes stays below 2^53. *)
Theorem volume_classification (cfg : config) (f : frame) (v : vad) :
  (0 < length (data f))%nat ->
  255 * Z.of_nat (length (data f)) < 2 ^ 53 ->
  let volume := calculateVolume (data f) in
  (sumBytes (data f) = ofZ (byteSum (data f)) /\
   volume = specVolume (data f) /\
   (forall q, byteSum (data f) = q * Z.of_nat (length (data f)) ->
      volume = Math_min 100 (ofZ q / 255 * 100)%float) /\
   (Forall (fun b => b = Byte.x00) (data f) -> volume = 0%float) /\
   (Forall (fun b => b = Byte.xff) (data f) -> volume = 100%float)) /\
  ((0 <=? volume)%float = true /\ (volume <=? 100)%float = true) /\
  isSpeechDetected cfg (data f)
    = (silenceThreshold cfg <? specVolume (data f))%float /\
  ((specVolume (data f) =? silenceThreshold cfg)%float = true ->
     isSpeechDetected cfg (data f) = false) /\
  (isActive v = true ->
     analyzeAudio cfg f v =
       if (silenceThreshold cfg <? specVolume (data f))%float
       then (fst (handleSpeechDetected cfg (currentTime f) (endTime f) v),
             OnVolumeChange (specVolume (data f))
               :: snd (handleSpeechDetected cfg (currentTime f) (endTime f)
                         v))
       else (fst (handleSilenceDetected cfg (currentTime f) (endTime f) v),
             OnVolumeChange (specVolume (data f))
               :: snd (handleSilenceDetected cfg (currentTime f) (endTime f)
                         v))).
Proof.
  intros Hn Hb volume.
  pose proof (calculateVolume_spec (data f) Hb) as Hspec.
  pose proof (byteSum_bound (data f)) as Hsum.
  assert (Hmean : forall q,
            byteSum (data f) = q * Z.of_nat (length (data f)) ->
            volume = Math_min 100 (ofZ q / 255 * 100)%float).
  { intros q Hq. subst volume. unfold calculateVolume.
    rewrite sumBytes_exact by exact Hb. unfold of_length.
    fold (ofZ (Z.of_nat (length (data f)))).
    rewrite Hq, ofZ_div by nia. reflexivity. }
  pose proof (fun b => byteSum_const b (data f)) as Hconst.
  split; [|split; [|split; [|split]]].
  - split; [apply sumBytes_exact; exact Hb|].
    split; [exact Hspec|]. split; [exact Hmean|]. split.
    + intros Hall. rewrite (Hmean _ (Hconst _ Hall)). reflexivity.
    + intros Hall. rewrite (Hmean _ (Hconst _ Hall)). reflexivity.
  - apply Math_min_range, scaled_nonneg; [assumption | lia].
  - unfold isSpeechDetected. rewrite Hspec. reflexivity.
  - unfold isSpeechDetected. rewrite Hspec. apply eqb_not_ltb.
  - intros Ha. unfold analyzeAudio. rewrite Ha. simpl. rewrite Hspec.
    destruct (silenceThreshold cfg <? specVolume (data f))%float.
    + destruct (handleSpeechDetected _ _ _ _); reflexivity.
    + destruct (handleSilenceDetected _ _ _ _); reflexivity.
Qed.

End VolumeFacts.

(** A frame of 16 bins at 77: the mean is 77. *)
Lemma volume_classification_witness :
  VAD.calculateVolume (repeat Byte.x4d 16)
  = VAD.Math_min 100 (VAD.ofZ 77 / 255 * 100)%float.
Proof.
  refine (proj1 (proj2 (proj2 (proj1 (volume_classification VAD.normal
            {| VAD.data := repeat Byte.x4d 16;
               VAD.currentTime := 0; VAD.endTime := 0 |}
            VAD.started _ _)))) 77 _).
  - simpl. lia.
  - vm_compute. reflexivity.
  - reflexivity.
Defined.

(** The boundary: a volume equal to the threshold is silence. *)
Example volume_at_threshold_is_silence :
  VAD.calculateVolume (repeat Byte.xff 16) = 100%float /\
  VAD.isSpeechDetected
    {| VAD.silenceThreshold := 100%float; VAD.speechTimeout := 1500;
       VAD.minSpeechDuration := 500; VAD.maxSpeechDuration := 30000 |}
    (repeat Byte.xff 16) = false.
Proof. split; vm_compute; reflexivity. Qed.

(** Without a byte the mean is [0 / 0]: the volume is NaN and the frame is
    silence. *)
Example volume_of_no_bytes :
  VAD.calculateVolume [] = PrimFloat.nan /\
  VAD.isSpeechDetected VAD.normal [] = false.
Proof. split; vm_compute; reflexivity. Qed.

(* ===================================================================== *)
(** * Properties of the voice activity detection                          *)
(* ===================================================================== *)

Section VADFacts.

Import VAD.

Variable cfg : config.

(** The loop over a sequence of frames, one more frame at the end. *)
Lemma analyzeFrames_snoc (pre : list frame) (f : frame) (v0 : vad) :
  analyzeFrames cfg (pre ++ [f]) v0 =
    (fst (analyzeAudio cfg f (fst (analyzeFrames cfg pre v0))),
     snd (analyzeFrames cfg pre v0) ++
     snd (analyzeAudio cfg f (fst (analyzeFrames cfg pre v0)))).
Proof.
  revert v0. induction pre as [|g pre IH]; intros v0; simpl.
  - destruct (analyzeAudio cfg f v0) as [v1 ev1]. simpl.
    rewrite app_nil_r. reflexivity.
  - destruct (analyzeAudio cfg g v0) as [v1 ev1].
    rewrite IH.
    destruct (analyzeFrames cfg pre v1) as [v2 ev2]. simpl.
    rewrite app_assoc. reflexivity.
Qed.

Lemma handleSpeechEnd_events (now : Z) (v : vad) :
  snd (handleSpeechEnd now v) =
    if isSpeaking v
    then [OnSpeechEnd
            ((if truthy (silenceStartTime v)
              then toNumber (silenceStartTime v) else now)
             - toNumber (speechStartTime v))]
    else [].
Proof. unfold handleSpeechEnd. destruct (isSpeaking v); reflexivity. Qed.

(** What a speech frame fires. *)
Lemma handleSpeechDetected_events (t now : Z) (v : vad) :
  snd (handleSpeechDetected cfg t now v) =
    (if isSpeaking v then [] else [OnSpeechStart]) ++
    (if maxSpeechDuration cfg
          <? t - toNumber (if isSpeaking v then speechStartTime v
                           else Some t)
     then [OnSpeechEnd (now - toNumber (if isSpeaking v
                                        then speechStartTime v
                                        else Some t))]
     else []).
Proof.
  unfold handleSpeechDetected, handleSpeechEnd.
  destruct (isSpeaking v) eqn:Hs; simpl; rewrite ?Hs; simpl;
    match goal with |- context [?a <? ?b] => destruct (a <? b) end;
    reflexivity.
Qed.

(** What a silence frame fires. *)
Lemma handleSilenceDetected_events (t now : Z) (v : vad) :
  snd (handleSilenceDetected cfg t now v) =
    if isSpeaking v
       && (speechTimeout cfg <? t - toNumber (silenceStart t v))
       && (minSpeechDuration cfg
             <=? toNumber (silenceStart t v) - toNumber (speechStartTime v))
    then [OnSpeechEnd
            ((if truthy (silenceStart t v)
              then toNumber (silenceStart t v) else now)
             - toNumber (speechStartTime v))]
    else [].
Proof.
  unfold handleSilenceDetected, handleSpeechEnd.
  destruct (isSpeaking v) eqn:Hs; simpl; [|reflexivity].
  destruct (speechTimeout cfg <? _); simpl; [|reflexivity].
  destruct (minSpeechDuration cfg <=? _); simpl; [|reflexivity].
  rewrite ?Hs. reflexivity.
Qed.

Lemma analyzeAudio_events (f : frame) (v : vad) :
  snd (analyzeAudio cfg f v) =
    if isActive v then
      OnVolumeChange (calculateVolume (data f)) ::
      (if isSpeechDetected cfg (data f)
       then snd (handleSpeechDetected cfg (currentTime f) (endTime f) v)
       else snd (handleSilenceDetected cfg (currentTime f) (endTime f) v))
    else [].
Proof.
  unfold analyzeAudio, isSpeechDetected.
  destruct (isActive v); simpl; [|reflexivity].
  destruct (silenceThreshold cfg <? calculateVolume (data f))%float.
  - destruct (handleSpeechDetected _ _ _ _); reflexivity.
  - destruct (handleSilenceDetected _ _ _ _); reflexivity.
Qed.

(** C2, as the detector has it.  Along every sequence of analysis frames,
    a frame fires [onSpeechStart] exactly when it is classified as speech
    while the detector is not speaking (at once, whatever
    [minSpeechDuration]); it fires [onSpeechEnd] exactly when it is a
    silence frame met while speaking whose silence exceeds [speechTimeout]
    after a speech of at least [minSpeechDuration], or a speech frame whose
    speech exceeds [maxSpeechDuration]. *)
Theorem callbacks_fire_conditions (pre : list frame) (f : frame)
  (v0 : vad) :
  let v := fst (analyzeFrames cfg pre v0) in
  let ev := snd (analyzeAudio cfg f v) in
  snd (analyzeFrames cfg (pre ++ [f]) v0)
    = snd (analyzeFrames cfg pre v0) ++ ev /\
  (In OnSpeechStart ev <->
     isActive v = true /\ isSpeechDetected cfg (data f) = true /\
     isSpeaking v = false) /\
  ((exists d, In (OnSpeechEnd d) ev) <->
     isActive v = true /\
     ((isSpeechDetected cfg (data f) = false /\ isSpeaking v = true /\
       speechTimeout cfg
         < currentTime f - toNumber (silenceStart (currentTime f) v) /\
       minSpeechDuration cfg
         <= toNumber (silenceStart (currentTime f) v)
            - toNumber (speechStartTime v)) \/
      (isSpeechDetected cfg (data f) = true /\
       maxSpeechDuration cfg
         < currentTime f
           - toNumber (if isSpeaking v then speechStartTime v
                       else Some (currentTime f))))).
Proof.
  intros v ev. split; [|split].
  - rewrite analyzeFrames_snoc. reflexivity.
  - subst ev. rewrite analyzeAudio_events.
    rewrite handleSpeechDetected_events, handleSilenceDetected_events.
    destruct (isActive v); [|simpl; intuition discriminate].
    destruct (isSpeechDetected cfg (data f)).
    + destruct (isSpeaking v); simpl;
        destruct (maxSpeechDuration cfg <? _); simpl;
        intuition discriminate.
    + destruct (_ && _ && _); simpl; intuition discriminate.
  - subst ev. rewrite analyzeAudio_events.
    rewrite handleSpeechDetected_events, handleSilenceDetected_events.
    destruct (isActive v);
      [|simpl; split; [intros [d []] | intros [? _]; discriminate]].
    destruct (isSpeechDetected cfg (data f)).
    + destruct (maxSpeechDuration cfg <? _) eqn:E.
      * apply Z.ltb_lt in E. split; [intros _; auto|].
        intros _. eexists. simpl. right. apply in_or_app. right.
        left. reflexivity.
      * apply Z.ltb_ge in E. split.
        -- intros [d Hd]. exfalso. simpl in Hd.
           destruct Hd as [Hd|Hd]; [discriminate|].
           rewrite app_nil_r in Hd.
           destruct (isSpeaking v); simpl in Hd;
             intuition discriminate.
        -- intros [_ [[? _]|[_ H]]]; [discriminate | lia].
    + destruct (isSpeaking v); simpl.
      * destruct (speechTimeout cfg <? _) eqn:E1;
          destruct (minSpeechDuration cfg <=? _) eqn:E2; simpl;
          rewrite ?Z.ltb_lt, ?Z.ltb_ge in E1;
          rewrite ?Z.leb_le, ?Z.leb_gt in E2.
        1: split; [intros _; split; [reflexivity | left; auto]
                  | intros _; eexists; right; left; reflexivity].
        all: split;
          [ intros [d [Hd|[]]]; discriminate
          | intros [_ [(_ & _ & ? & ?)|[? _]]]; [lia | discriminate] ].
      * split; [intros [d [Hd|[]]]; discriminate|].
        intros [_ [(_ & ? & _)|[? _]]]; discriminate.
Qed.

Lemma durationsOf_app (a b : list event) :
  durationsOf (a ++ b) = durationsOf a ++ durationsOf b.
Proof.
  induction a as [|e a IH]; [reflexivity|].
  destruct e; cbn [app durationsOf]; rewrite IH; reflexivity.
Qed.

Lemma In_durationsOf (d : Z) (ev : list event) :
  In (OnSpeechEnd d) ev <-> In d (durationsOf ev).
Proof.
  induction ev as [|e ev IH]; [reflexivity|].
  destruct e; cbn [durationsOf In]; rewrite <- IH; split;
    try (intros [H|H]; [discriminate | exact H]); auto.
  - intros [H|H]; [left; congruence | right; exact H].
  - intros [H|H]; [left; congruence | right; exact H].
Qed.

Lemma analyzeFrames_cons (f : frame) (fs : list frame) (w : vad) :
  analyzeFrames cfg (f :: fs) w
    = (fst (analyzeFrames cfg fs (fst (analyzeAudio cfg f w))),
       snd (analyzeAudio cfg f w)
       ++ snd (analyzeFrames cfg fs (fst (analyzeAudio cfg f w)))).
Proof.
  cbn [analyzeFrames]. destruct (analyzeAudio cfg f w) as [v1 ev1].
  cbn [fst snd]. destruct (analyzeFrames cfg fs v1). reflexivity.
Qed.

(** A silence frame, by cases. *)
Lemma analyzeAudio_silent (f : frame) (w : vad) :
  isActive w = true -> silent cfg f ->
  analyzeAudio cfg f w
    = (fst (handleSilenceDetected cfg (currentTime f) (endTime f) w),
       OnVolumeChange (calculateVolume (data f))
         :: snd (handleSilenceDetected cfg (currentTime f) (endTime f) w)).
Proof.
  intros Ha Hsil. unfold analyzeAudio. rewrite Ha. simpl.
  unfold silent, isSpeechDetected in Hsil. rewrite Hsil.
  destruct (handleSilenceDetected _ _ _ _). reflexivity.
Qed.

(** Silence while not speaking does nothing. *)
Lemma silence_while_idle (fs : list frame) (w : vad) :
  isActive w = true -> isSpeaking w = false -> Forall (silent cfg) fs ->
  fst (analyzeFrames cfg fs w) = w /\
  durationsOf (snd (analyzeFrames cfg fs w)) = [].
Proof.
  intros Ha Hs Hf. induction Hf as [|f fs Hsil _ IH]; [split; reflexivity|].
  rewrite analyzeFrames_cons, (analyzeAudio_silent f w Ha Hsil).
  unfold handleSilenceDetected. rewrite Hs. cbn [fst snd].
  destruct IH as [IH1 IH2]. rewrite durationsOf_app, IH1, IH2.
  split; reflexivity.
Qed.

(** Silence while speaking, once the silence timer runs since [t1]. *)
Lemma silence_while_speaking (t1 : Z) (fs : list frame) (w : vad) :
  t1 <> 0 ->
  isActive w = true -> isSpeaking w = true ->
  silenceStartTime w = Some t1 -> Forall (silent cfg) fs ->
  if existsb (fun f => speechTimeout cfg <? currentTime f - t1) fs
  then
    isSpeaking (fst (analyzeFrames cfg fs w)) = false /\
    speechStartTime (fst (analyzeFrames cfg fs w)) = None /\
    silenceStartTime (fst (analyzeFrames cfg fs w)) = None /\
    durationsOf (snd (analyzeFrames cfg fs w))
      = (if minSpeechDuration cfg <=? t1 - toNumber (speechStartTime w)
         then [t1 - toNumber (speechStartTime w)] else [])
  else
    fst (analyzeFrames cfg fs w) = w /\
    durationsOf (snd (analyzeFrames cfg fs w)) = [].
Proof.
  intros Ht Ha Hs Hsst Hf.
  induction Hf as [|f fs Hsil Hf IH]; [split; reflexivity|].
  assert (Htr : truthy (Some t1) = true)
    by (simpl; apply negb_true_iff, Z.eqb_neq; exact Ht).
  rewrite analyzeFrames_cons, (analyzeAudio_silent f w Ha Hsil).
  cbn [existsb fst snd durationsOf].
  destruct w as [a sp st ls ss]. simpl in Ha, Hs, Hsst. subst a sp ss.
  unfold handleSilenceDetected, silenceStart.
  cbn [isSpeaking silenceStartTime speechStartTime isActive lastSpeechTime].
  rewrite Htr. cbn [negb]. change (toNumber (Some t1)) with t1.
  destruct (speechTimeout cfg <? currentTime f - t1) eqn:E1; cbn [orb].
  - destruct (minSpeechDuration cfg <=? t1 - toNumber st) eqn:E2.
    + unfold handleSpeechEnd.
      cbn [isSpeaking silenceStartTime speechStartTime isActive
           lastSpeechTime fst snd].
      rewrite Htr. change (toNumber (Some t1)) with t1.
      destruct (silence_while_idle fs
                  {| isActive := true; isSpeaking := false;
                     speechStartTime := None; lastSpeechTime := ls;
                     silenceStartTime := None |} eq_refl eq_refl Hf)
        as [I1 I2].
      rewrite durationsOf_app, I1, I2. cbn. auto.
    + cbn [fst snd].
      destruct (silence_while_idle fs
                  {| isActive := true; isSpeaking := false;
                     speechStartTime := None; lastSpeechTime := ls;
                     silenceStartTime := None |} eq_refl eq_refl Hf)
        as [I1 I2].
      rewrite durationsOf_app, I1, I2. cbn. auto.
  - cbn [fst snd]. exact IH.
Qed.

(** After a speech frame the silence timer is stopped. *)
Lemma speech_frame_state (g : frame) (v0 : vad) :
  isActive v0 = true -> isSpeechDetected cfg (data g) = true ->
  isActive (fst (analyzeAudio cfg g v0)) = true /\
  silenceStartTime (fst (analyzeAudio cfg g v0)) = None.
Proof.
  intros Ha Hg. unfold analyzeAudio. rewrite Ha. simpl.
  unfold isSpeechDetected in Hg. rewrite Hg.
  unfold handleSpeechDetected, handleSpeechEnd.
  destruct (isSpeaking v0); simpl; destruct (_ <? _); simpl; auto.
Qed.

(** The first silence frame starts the timer at its own time. *)
Lemma first_silence_frame (f1 : frame) (v : vad) :
  isActive v = true -> isSpeaking v = true ->
  silenceStartTime v = None ->
  analyzeAudio cfg f1 v
    = analyzeAudio cfg f1
        {| isActive := isActive v; isSpeaking := isSpeaking v;
           speechStartTime := speechStartTime v;
           lastSpeechTime := lastSpeechTime v;
           silenceStartTime := Some (currentTime f1) |} \/
  currentTime f1 = 0.
Proof.
  intros Hact Hsp Hs.
  destruct (Z.eq_dec (currentTime f1) 0) as [|Hz]; [right; assumption|].
  left. destruct v as [a sp st ls ss]. simpl in Hs, Hact, Hsp. subst ss a sp.
  unfold analyzeAudio. cbn [isActive negb].
  destruct (silenceThreshold cfg <? calculateVolume (data f1))%float.
  - unfold handleSpeechDetected. reflexivity.
  - unfold handleSilenceDetected, silenceStart.
    cbn [isSpeaking silenceStartTime speechStartTime isActive lastSpeechTime].
    assert (Htr : truthy (Some (currentTime f1)) = true)
      by (simpl; apply negb_true_iff, Z.eqb_neq; exact Hz).
    rewrite Htr. reflexivity.
Qed.

(** C3. Silence that follows speech ends the segment once it has
    accumulated past [speechTimeout].  After a speech frame [g] that leaves
    the detector speaking, let [f1 :: fs] be silence frames.  The silence
    of a frame is counted from the first of them, [currentTime f1], and the
    speech lasts from [speechStartTime] to that same instant.  Then
    [onSpeechEnd] is fired within these frames exactly when some frame's
    silence exceeds [speechTimeout] and the speech lasted at least
    [minSpeechDuration]; it is fired once, with that speech duration.  When
    the silence exceeds the timeout after a shorter speech nothing is
    fired, and in both cases [isSpeaking], [speechStartTime] and
    [silenceStartTime] are reset.  While no frame's silence exceeds the
    timeout the detector keeps speaking, with the silence timer at the time
    of the first silence frame.  A clock reading of [0] is falsy and would
    restart the timer, hence the hypothesis on [currentTime f1]. *)
Theorem silence_ends_speech (v0 : vad) (g f1 : frame) (fs : list frame) :
  isActive v0 = true ->
  isSpeechDetected cfg (data g) = true ->
  isSpeaking (fst (analyzeAudio cfg g v0)) = true ->
  Forall (fun f => isSpeechDetected cfg (data f) = false) (f1 :: fs) ->
  currentTime f1 <> 0 ->
  let v := fst (analyzeAudio cfg g v0) in
  let speech := currentTime f1 - toNumber (speechStartTime v) in
  let timedOut :=
    exists f, In f (f1 :: fs) /\
              speechTimeout cfg < currentTime f - currentTime f1 in
  let v' := fst (analyzeFrames cfg (f1 :: fs) v) in
  let ev := snd (analyzeFrames cfg (f1 :: fs) v) in
  ((exists d, In (OnSpeechEnd d) ev) <->
     timedOut /\ minSpeechDuration cfg <= speech) /\
  (timedOut -> minSpeechDuration cfg <= speech ->
     durationsOf ev = [speech] /\
     isSpeaking v' = false /\ speechStartTime v' = None /\
     silenceStartTime v' = None) /\
  (timedOut -> speech < minSpeechDuration cfg ->
     durationsOf ev = [] /\
     isSpeaking v' = false /\ speechStartTime v' = None /\
     silenceStartTime v' = None) /\
  (~ timedOut ->
     durationsOf ev = [] /\
     isSpeaking v' = true /\ speechStartTime v' = speechStartTime v /\
     silenceStartTime v' = Some (currentTime f1)).
Proof.
  intros Ha Hg Hsp Hf Ht v speech timedOut v' ev.
  destruct (speech_frame_state g v0 Ha Hg) as [Hav Hsv].
  fold v in Hav, Hsv, Hsp.
  set (w := {| isActive := isActive v; isSpeaking := isSpeaking v;
               speechStartTime := speechStartTime v;
               lastSpeechTime := lastSpeechTime v;
               silenceStartTime := Some (currentTime f1) |}).
  assert (Erun : analyzeFrames cfg (f1 :: fs) v
                 = analyzeFrames cfg (f1 :: fs) w).
  { rewrite !analyzeFrames_cons.
    destruct (first_silence_frame f1 v Hav Hsp Hsv) as [E|E]; [|contradiction].
    fold w in E. rewrite E. reflexivity. }
  pose proof (silence_while_speaking (currentTime f1) (f1 :: fs) w Ht
                Hav Hsp eq_refl Hf) as H.
  change (speechStartTime w) with (speechStartTime v) in H.
  fold speech in H. subst v' ev. rewrite Erun.
  assert (Hex : existsb (fun f => speechTimeout cfg
                           <? currentTime f - currentTime f1) (f1 :: fs)
                = true <-> timedOut).
  { rewrite existsb_exists. subst timedOut.
    split; intros (f & Hin & Hlt); exists f; (split; [exact Hin|]);
      [apply Z.ltb_lt | apply Z.ltb_lt]; exact Hlt. }
  assert (Hin : forall X, (exists d, In (OnSpeechEnd d)
                                       (snd (analyzeFrames cfg (f1 :: fs) w)))
                          <-> durationsOf
                                (snd (analyzeFrames cfg (f1 :: fs) w)) <> []
                              \/ X /\ False).
  { intros X. split.
    - intros [d Hd]. apply In_durationsOf in Hd. left.
      intros E. rewrite E in Hd. destruct Hd.
    - intros [Hn|[_ []]].
      destruct (durationsOf (snd (analyzeFrames cfg (f1 :: fs) w)))
        as [|d l] eqn:E; [contradiction|].
      exists d. apply In_durationsOf. rewrite E. left. reflexivity. }
  destruct (existsb _ (f1 :: fs)) eqn:Eb.
  - assert (Hto : timedOut) by (apply Hex; reflexivity).
    destruct H as (H1 & H2 & H3 & H4).
    destruct (minSpeechDuration cfg <=? speech) eqn:E2;
      [apply Z.leb_le in E2 | apply Z.leb_gt in E2].
    + split; [|split; [|split]].
      * rewrite (Hin True), H4. split; [auto|]. intros _. left. discriminate.
      * intros _ _. auto.
      * intros _ Hlt. lia.
      * intros Hn. contradiction.
    + split; [|split; [|split]].
      * rewrite (Hin True), H4. split; [|lia].
        intros [Hn|[_ []]]. contradiction.
      * intros _ Hle. lia.
      * intros _ _. auto.
      * intros Hn. contradiction.
  - assert (Hto : ~ timedOut) by (rewrite <- Hex; discriminate).
    destruct H as [H1 H2]. rewrite H1, H2.
    split; [|split; [|split]].
    + split; [|tauto]. intros [d Hd]. apply In_durationsOf in Hd.
      rewrite H2 in Hd. destruct Hd.
    + intros Hn. contradiction.
    + intros Hn. contradiction.
    + intros _. subst w. simpl. auto.
Qed.

End VADFacts.

(** C2, the frame that breaks the claim as stated: with the preset
    [normal] ([minSpeechDuration] 500 ms) the first loud frame after
    [start()] fires [onSpeechStart], when the speech detected has lasted
    0 ms. *)
Lemma speechStart_fires_at_once :
  VAD.analyzeFrames VAD.normal
    [ {| VAD.data := repeat Byte.xff 16;
         VAD.currentTime := 1000; VAD.endTime := 1000 |} ]
    VAD.started
  = ({| VAD.isActive := true; VAD.isSpeaking := true;
        VAD.speechStartTime := Some 1000;
        VAD.lastSpeechTime := Some 1000;
        VAD.silenceStartTime := None |},
     [VAD.OnVolumeChange 100%float; VAD.OnSpeechStart]) /\
  1000 - 1000 < VAD.minSpeechDuration VAD.normal.
Proof. split; [vm_compute; reflexivity | vm_compute; reflexivity]. Qed.

(** A speech that has lasted more than 30 s is ended by the next loud
    frame. *)
Lemma callbacks_fire_conditions_witness :
  exists d,
    In (VAD.OnSpeechEnd d)
       (snd (VAD.analyzeAudio VAD.normal
               {| VAD.data := repeat Byte.xff 16;
                  VAD.currentTime := 31001; VAD.endTime := 31002 |}
               (fst (VAD.analyzeFrames VAD.normal
                       [ {| VAD.data := repeat Byte.xff 16;
                            VAD.currentTime := 1000;
                            VAD.endTime := 1000 |} ]
                       VAD.started)))).
Proof.
  refine (proj2 (proj2 (proj2 (callbacks_fire_conditions VAD.normal
            [ {| VAD.data := repeat Byte.xff 16;
                 VAD.currentTime := 1000; VAD.endTime := 1000 |} ]
            {| VAD.data := repeat Byte.xff 16;
               VAD.currentTime := 31001; VAD.endTime := 31002 |}
            VAD.started))) _).
  split; [vm_compute; reflexivity|]. right.
  split; vm_compute; reflexivity.
Defined.

(** A loud frame at 1000 ms, then silence frames at 1700, 2500 and
    3300 ms: the speech of 700 ms is reported once the silence has lasted
    1600 ms. *)
Lemma silence_ends_speech_witness :
  exists d,
    In (VAD.OnSpeechEnd d)
       (snd (VAD.analyzeFrames VAD.normal
               [VAD.mkFrame (repeat Byte.x00 16) 1700 1700;
                VAD.mkFrame (repeat Byte.x00 16) 2500 2500;
                VAD.mkFrame (repeat Byte.x00 16) 3300 3300]
               (fst (VAD.analyzeAudio VAD.normal
                       (VAD.mkFrame (repeat Byte.xff 16) 1000 1000)
                       VAD.started)))).
Proof.
  refine (proj2 (proj1 (silence_ends_speech VAD.normal VAD.started
           (VAD.mkFrame (repeat Byte.xff 16) 1000 1000)
           (VAD.mkFrame (repeat Byte.x00 16) 1700 1700)
           [VAD.mkFrame (repeat Byte.x00 16) 2500 2500;
            VAD.mkFrame (repeat Byte.x00 16) 3300 3300]
           eq_refl eq_refl eq_refl _ _)) _).
  - repeat constructor.
  - discriminate.
  - split; [|vm_compute; discriminate].
    exists (VAD.mkFrame (repeat Byte.x00 16) 3300 3300).
    split; [right; right; left; reflexivity | vm_compute; reflexivity].
Defined.

(** Two runs of the loop with the preset [normal].  A speech of 700 ms
    and then 1600 ms of silence: [onSpeechEnd] is called with 700.  A speech
    of 100 ms and then 1600 ms of silence: the segment is dropped. *)
Example speech_then_silence :
  VAD.analyzeFrames VAD.normal
    [ VAD.mkFrame (repeat Byte.xff 16) 1000 1000;
      VAD.mkFrame (repeat Byte.xff 16) 1600 1600;
      VAD.mkFrame (repeat Byte.x00 16) 1700 1700;
      VAD.mkFrame (repeat Byte.x00 16) 3300 3301 ]
    VAD.started
  = ({| VAD.isActive := true; VAD.isSpeaking := false;
        VAD.speechStartTime := None; VAD.lastSpeechTime := Some 1600;
        VAD.silenceStartTime := None |},
     [ VAD.OnVolumeChange 100%float; VAD.OnSpeechStart;
       VAD.OnVolumeChange 100%float;
       VAD.OnVolumeChange 0%float;
       VAD.OnVolumeChange 0%float; VAD.OnSpeechEnd 700 ]).
Proof. vm_compute. reflexivity. Qed.

Example short_speech_dropped :
  VAD.analyzeFrames VAD.normal
    [ VAD.mkFrame (repeat Byte.xff 16) 1000 1000;
      VAD.mkFrame (repeat Byte.x00 16) 1100 1100;
      VAD.mkFrame (repeat Byte.x00 16) 2700 2701 ]
    VAD.started
  = ({| VAD.isActive := true; VAD.isSpeaking := false;
        VAD.speechStartTime := None; VAD.lastSpeechTime := Some 1000;
        VAD.silenceStartTime := None |},
     [ VAD.OnVolumeChange 100%float; VAD.OnSpeechStart;
       VAD.OnVolumeChange 0%float;
       VAD.OnVolumeChange 0%float ]).
Proof. vm_compute. reflexivity. Qed.

(* ===================================================================== *)
(** * Properties of the text processing                                   *)
(* ===================================================================== *)

Section TextFacts.

Import Text.

(** ** Replacing a class *)

Lemma execAt_Cls neg items prev s :
  execAt (Cls neg items) prev s =
    match s with
    | c :: _ => if cmatch neg items c then Some (1%nat, None) else None
    | [] => None
    end.
Proof.
  unfold execAt. simpl. destruct s as [|c s']; [reflexivity|].
  destruct (cmatch neg items c); [|reflexivity].
  f_equal. f_equal. simpl length. lia.
Qed.

Lemma replaceAll_Cls neg items s :
  replaceAll (Cls neg items) (Text []) s
    = List.filter (fun c => negb (cmatch neg items c)) s.
Proof.
  unfold replaceAll. generalize (@None N).
  induction s as [|c s IH]; intros prev.
  - reflexivity.
  - cbn [replaceFrom]. rewrite execAt_Cls. simpl List.filter.
    destruct (cmatch neg items c); simpl.
    + apply IH.
    + f_equal. apply IH.
Qed.

(** ** Replacing runs of white space *)

Lemma spanLen_le p s : (spanLen p s <= length s)%nat.
Proof. induction s as [|c s IH]; simpl; [lia|]. destruct (p c); simpl; lia. Qed.

Lemma rep_greedy p : forall s lo prev cap,
  rep true p lo None prev s cap (fun _ s' cap' => Some (s', cap'))
    = if (lo <=? spanLen p s)%nat
      then Some (skipn (spanLen p s) s, cap) else None.
Proof.
  induction s as [|c s IH]; intros lo prev cap.
  - simpl. destruct lo; reflexivity.
  - cbn [rep spanLen]. destruct (p c); simpl.
    + rewrite IH. destruct lo as [|lo]; simpl.
      * reflexivity.
      * destruct (lo <=? spanLen p s)%nat; reflexivity.
    + destruct lo; reflexivity.
Qed.

Lemma execAt_spaces1 prev s :
  execAt spaces1 prev s =
    match spanLen isSpace s with
    | O => None
    | S n => Some (S n, None)
    end.
Proof.
  unfold execAt, spaces1. cbn [rmatch].
  assert (E : forall c, cmatch false [Space] c = isSpace c).
  { intros c. unfold cmatch. simpl. rewrite orb_false_r. reflexivity. }
  rewrite (rep_greedy (cmatch false [Space])).
  assert (E' : spanLen (cmatch false [Space]) s = spanLen isSpace s).
  { induction s as [|c s IH]; cbn [spanLen]; [reflexivity|].
    rewrite E, IH. reflexivity. }
  rewrite E'. pose proof (spanLen_le isSpace s) as Hle.
  destruct (spanLen isSpace s) as [|n] eqn:En; [reflexivity|].
  simpl Nat.leb. cbv iota. f_equal. f_equal.
  rewrite length_skipn. lia.
Qed.

Lemma replaceFrom_spaces1 s :
  (forall prev, replaceFrom spaces1 (Text (lit " ")) prev s O
                = collapse false s) /\
  (forall prev, replaceFrom spaces1 (Text (lit " ")) prev s (spanLen isSpace s)
                = collapse true s).
Proof.
  induction s as [|c s [IH0 IH1]].
  - split; reflexivity.
  - assert (H0 : forall prev,
      replaceFrom spaces1 (Text (lit " ")) prev (c :: s) O
        = collapse false (c :: s)).
    { intros prev. cbn [replaceFrom]. rewrite execAt_spaces1.
      cbn [spanLen collapse]. destruct (isSpace c).
      - simpl. f_equal. apply IH1.
      - f_equal. apply IH0. }
    split; [exact H0|]. intros prev.
    cbn [spanLen]. destruct (isSpace c) eqn:Ec.
    + cbn [replaceFrom collapse]. rewrite Ec. apply IH1.
    + rewrite H0. cbn [collapse]. rewrite Ec. reflexivity.
Qed.

Lemma replaceAll_spaces1 s :
  replaceAll spaces1 (Text (lit " ")) s = collapse false s.
Proof. apply replaceFrom_spaces1. Qed.

(** ** The collapsed text *)

Lemma collapse_In c : forall s inRun,
  In c (collapse inRun s) -> In c s \/ c = ch " ".
Proof.
  induction s as [|d s IH]; intros inRun; cbn [collapse]; [intros []|].
  destruct (isSpace d).
  - destruct inRun.
    + intros H. apply IH in H. destruct H; [left; right|right]; assumption.
    + intros [<-|H]; [right; reflexivity|].
      apply IH in H. destruct H; [left; right|right]; assumption.
  - intros [<-|H]; [left; left; reflexivity|].
    apply IH in H. destruct H; [left; right|right]; assumption.
Qed.

Lemma collapse_noDoubleSpace : forall s inRun,
  noDoubleSpace (collapse inRun s) = true /\
  (inRun = true -> headNotSpace (collapse inRun s)).
Proof.
  induction s as [|d s IH]; intros inRun; cbn [collapse].
  - split; [reflexivity | intros _; exact I].
  - destruct (isSpace d) eqn:Ed.
    + destruct (IH true) as [Hn Hh]. specialize (Hh eq_refl).
      destruct inRun; [split; auto|].
      split; [|discriminate].
      cbn [noDoubleSpace]. rewrite Hn, andb_true_r.
      destruct (collapse true s) as [|b t]; [reflexivity|].
      simpl in Hh. rewrite Hh, andb_false_r. reflexivity.
    + destruct (IH false) as [Hn _].
      split; [|intros _; exact Ed].
      cbn [noDoubleSpace]. rewrite Hn, andb_true_r, Ed.
      destruct (collapse false s); reflexivity.
Qed.

Lemma noDoubleSpace_split : forall l1 a b l2,
  noDoubleSpace (l1 ++ a :: b :: l2) = true ->
  isSpace a && isSpace b = false.
Proof.
  induction l1 as [|x l1 IH]; intros a b l2 H.
  - cbn [app noDoubleSpace] in H. apply andb_true_iff in H as [H _].
    apply negb_true_iff in H. exact H.
  - cbn [app noDoubleSpace] in H. apply andb_true_iff in H as [_ H].
    apply (IH _ _ _ H).
Qed.

(** ** Trimming *)

Lemma trimStart_suffix s : exists pre, s = pre ++ trimStart s.
Proof.
  induction s as [|c s [pre IH]]; [exists []; reflexivity|].
  cbn [trimStart]. destruct (isSpace c).
  - exists (c :: pre). simpl. f_equal. exact IH.
  - exists []. reflexivity.
Qed.

Lemma trimStart_head s : headNotSpace (trimStart s).
Proof.
  induction s as [|c s IH]; [exact I|].
  cbn [trimStart]. destruct (isSpace c) eqn:E; [exact IH | exact E].
Qed.

Lemma trim_middle s : exists pre post, s = pre ++ trim s ++ post.
Proof.
  unfold trim.
  destruct (trimStart_suffix s) as [pre Hs].
  destruct (trimStart_suffix (rev (trimStart s))) as [q Hq].
  exists pre, (rev q). rewrite <- rev_app_distr, <- Hq, rev_involutive.
  exact Hs.
Qed.

Lemma trim_head s : headNotSpace (trim s).
Proof.
  unfold trim.
  destruct (trimStart_suffix (rev (trimStart s))) as [q Hq].
  apply (f_equal (@rev N)) in Hq.
  rewrite rev_involutive, rev_app_distr in Hq.
  pose proof (trimStart_head s) as Hh. rewrite Hq in Hh.
  destruct (rev (trimStart (rev (trimStart s)))); [exact I | exact Hh].
Qed.

Lemma trim_last s r c : trim s = r ++ [c] -> isSpace c = false.
Proof.
  unfold trim. intros H. apply (f_equal (@rev N)) in H.
  rewrite rev_involutive, rev_app_distr in H. simpl in H.
  pose proof (trimStart_head (rev (trimStart s))) as Hh.
  rewrite H in Hh. exact Hh.
Qed.

(** ** The cleaned text *)

Lemma cleanString_shape s :
  exists w pre post,
    collapse false (List.filter (fun c => negb (cmatch false markers c)) w)
      = pre ++ cleanString s ++ post.
Proof.
  unfold cleanString, applySteps, cleanSteps. cbn [fold_left fst snd].
  rewrite replaceAll_spaces1. unfold reMarker. rewrite replaceAll_Cls.
  match goal with
  | |- context [List.filter _ ?w] => exists w
  end.
  apply trim_middle.
Qed.

Lemma cleanString_no_marker s c :
  In c (cleanString s) -> cmatch false markers c = false.
Proof.
  intros H. destruct (cleanString_shape s) as (w & pre & post & E).
  assert (Hin : In c (pre ++ cleanString s ++ post)).
  { apply in_or_app. right. apply in_or_app. left. exact H. }
  rewrite <- E in Hin. apply collapse_In in Hin as [Hin| ->].
  - apply filter_In in Hin as [_ Hin]. apply negb_true_iff in Hin. exact Hin.
  - reflexivity.
Qed.

Lemma cleanString_noDouble s l1 a b l2 :
  cleanString s = l1 ++ a :: b :: l2 -> isSpace a && isSpace b = false.
Proof.
  intros H. destruct (cleanString_shape s) as (w & pre & post & E).
  rewrite H in E.
  destruct (collapse_noDoubleSpace
              (List.filter (fun c => negb (cmatch false markers c)) w) false)
    as [Hn _].
  rewrite E in Hn.
  replace (pre ++ (l1 ++ a :: b :: l2) ++ post)
    with ((pre ++ l1) ++ a :: b :: (l2 ++ post)) in Hn
    by (rewrite <- !app_assoc; reflexivity).
  apply (noDoubleSpace_split _ _ _ _ Hn).
Qed.

(** ** Patterns that start with a deleted character *)

Lemma litsIn_cmatch q items c :
  litsIn q items = true -> cmatch false items c = true -> q c = true.
Proof.
  unfold cmatch, litsIn. simpl xorb. intros Hall Hex.
  apply existsb_exists in Hex as (i & Hi & Hm).
  rewrite forallb_forall in Hall. specialize (Hall i Hi).
  destruct i; try discriminate. simpl in Hm.
  apply N.eqb_eq in Hm. subst. exact Hall.
Qed.

Lemma firstIn_sound q r :
  firstIn q r = true ->
  forall prev s cap k res,
    rmatch r prev s cap k = Some res ->
    match s with
    | c :: _ => q c = true
    | [] => False
    end.
Proof.
  induction r as [|neg items|greedy lo hi neg items|r1 IH1 r2 IH2|r1 IH1| |];
    cbn [firstIn]; intros Hf prev s cap k res Hm; try discriminate.
  - destruct neg; [discriminate|]. cbn [rmatch] in Hm.
    destruct s as [|c s]; [discriminate|].
    destruct (cmatch false items c) eqn:Ec; [|discriminate].
    apply (litsIn_cmatch _ _ _ Hf Ec).
  - destruct lo as [|lo]; [discriminate|]. destruct neg; [discriminate|].
    cbn [rmatch] in Hm. destruct s as [|c s].
    + destruct greedy; discriminate.
    + cbn [rep] in Hm.
      destruct (cmatch false items c) eqn:Ec;
        [apply (litsIn_cmatch _ _ _ Hf Ec)|].
      destruct greedy; discriminate.
  - cbn [rmatch] in Hm.
    assert (H1 : firstIn q r1 = true -> match s with
                                        | c :: _ => q c = true
                                        | [] => False
                                        end)
      by (intros H; apply (IH1 H _ _ _ _ _ Hm)).
    destruct r1; try (apply H1; exact Hf); try discriminate.
    cbn [rmatch] in Hm. destruct (atLineStart prev); [|discriminate].
    apply (IH2 Hf _ _ _ _ _ Hm).
  - cbn [rmatch] in Hm. apply (IH1 Hf _ _ _ _ _ Hm).
Qed.

Lemma execAt_firstIn q r prev s :
  firstIn q r = true ->
  match s with c :: _ => q c = false | [] => True end ->
  execAt r prev s = None.
Proof.
  intros Hf Hs. unfold execAt.
  destruct (rmatch r prev s None _) as [res|] eqn:Hm; [|reflexivity].
  exfalso. pose proof (firstIn_sound q r Hf _ _ _ _ _ Hm) as H.
  destruct s as [|c s]; [exact H|]. rewrite Hs in H. discriminate.
Qed.

Lemma testFrom_firstIn q r :
  firstIn q r = true ->
  forall s prev, (forall c, In c s -> q c = false) ->
  testFrom r prev s = false.
Proof.
  intros Hf. induction s as [|c s IH]; intros prev Hs; cbn [testFrom].
  - rewrite (execAt_firstIn q r prev [] Hf I). reflexivity.
  - rewrite (execAt_firstIn q r prev (c :: s) Hf (Hs c (or_introl eq_refl))).
    apply IH. intros d Hd. apply Hs. right. exact Hd.
Qed.

Lemma markerPatterns_firstIn :
  forallb (firstIn (cmatch false markers)) markerPatterns = true.
Proof. vm_compute. reflexivity. Qed.

Lemma markerPatterns_silent s :
  (forall c, In c s -> cmatch false markers c = false) ->
  existsb (fun r => test r s) markerPatterns = false.
Proof.
  intros Hs. pose proof markerPatterns_firstIn as Hf.
  rewrite forallb_forall in Hf.
  destruct (existsb (fun r => test r s) markerPatterns) eqn:E; [|reflexivity].
  apply existsb_exists in E as (r & Hr & Ht).
  unfold test in Ht. rewrite (testFrom_firstIn _ r (Hf r Hr) s None Hs) in Ht.
  discriminate.
Qed.

(** ** The two functions *)

Lemma cleanMarkdownForSpeech_string (s : jsstring) :
  cleanMarkdownForSpeech (VString s) = cleanString s.
Proof. destruct s; reflexivity. Qed.

(** C8. [cleanMarkdownForSpeech] returns the empty string for null,
    undefined, the empty string and every value that is not a string.  For
    a non-empty string its result contains none of the characters
    [# * _ ` ~ |], neither starts nor ends with white space, and has no two
    adjacent white-space characters. *)
Theorem cleanMarkdownForSpeech_clean :
  cleanMarkdownForSpeech VNull = [] /\
  cleanMarkdownForSpeech VUndefined = [] /\
  cleanMarkdownForSpeech (VString []) = [] /\
  (forall v, stringOf v = None -> cleanMarkdownForSpeech v = []) /\
  (forall s, s <> [] ->
     (forall c, In c (lit "#*_`~|") ->
                ~ In c (cleanMarkdownForSpeech (VString s))) /\
     (forall c t, cleanMarkdownForSpeech (VString s) = c :: t ->
                  isSpace c = false) /\
     (forall t c, cleanMarkdownForSpeech (VString s) = t ++ [c] ->
                  isSpace c = false) /\
     (forall l1 a b l2,
        cleanMarkdownForSpeech (VString s) = l1 ++ a :: b :: l2 ->
        ~ (isSpace a = true /\ isSpace b = true))).
Proof.
  split; [reflexivity|]. split; [reflexivity|]. split; [reflexivity|].
  split.
  - intros v Hv. unfold cleanMarkdownForSpeech. rewrite Hv. reflexivity.
  - intros s _. rewrite cleanMarkdownForSpeech_string.
    split; [|split; [|split]].
    + intros c Hc Hin. apply cleanString_no_marker in Hin.
      cbn [lit In] in Hc.
      repeat (destruct Hc as [<-|Hc]; [vm_compute in Hin; discriminate|]).
      exact Hc.
    + intros c t E. pose proof (trim_head (applySteps cleanSteps s)) as H.
      fold (cleanString s) in H. rewrite E in H. exact H.
    + intros t c E. apply (trim_last _ _ _ E).
    + intros l1 a b l2 E [Ha Hb].
      apply cleanString_noDouble in E. rewrite Ha, Hb in E. discriminate.
Qed.

(** C9, the text that breaks the claim as stated: a list item is left as
    it is by the cleaning, and [hasMarkdownSyntax] detects it. *)
Lemma list_marker_survives :
  cleanMarkdownForSpeech (VString (lit "- item")) = lit "- item" /\
  hasMarkdownSyntax
    (VString (cleanMarkdownForSpeech (VString (lit "- item")))) = true.
Proof. split; vm_compute; reflexivity. Qed.

(** C9, as the code has it.  The cleaned text matches none of the header,
    bold, italic, inline code, code block and strikethrough patterns of
    [hasMarkdownSyntax]; so [hasMarkdownSyntax] of the cleaned text is the
    test of the link, image, blockquote, bulleted list and numbered list
    patterns. *)
Theorem cleaned_text_markdown (s : jsstring) :
  Forall (fun p => test p (cleanMarkdownForSpeech (VString s)) = false)
    markerPatterns /\
  hasMarkdownSyntax (VString (cleanMarkdownForSpeech (VString s)))
    = existsb (fun p => test p (cleanMarkdownForSpeech (VString s)))
        otherPatterns.
Proof.
  rewrite cleanMarkdownForSpeech_string.
  pose proof (markerPatterns_silent (cleanString s)
                (cleanString_no_marker s)) as Hm.
  assert (Hall : forall p, In p markerPatterns ->
                           test p (cleanString s) = false).
  { intros p Hp. destruct (test p (cleanString s)) eqn:E; [|reflexivity].
    rewrite <- Hm. symmetry. apply existsb_exists. exists p. auto. }
  split; [apply List.Forall_forall; exact Hall|].
  unfold hasMarkdownSyntax. cbn [stringOf falsy].
  destruct (cleanString s) as [|c r] eqn:Ec; [vm_compute; reflexivity|].
  unfold markdownPatterns, otherPatterns. cbn [existsb].
  rewrite (Hall reHeader), (Hall reBoldStar), (Hall reBoldUnder),
    (Hall reItalicStar), (Hall reItalicUnder), (Hall reInlineCode),
    (Hall reCodeBlock), (Hall reStrike)
    by (unfold markerPatterns; cbn [In]; tauto).
  cbn [orb]. rewrite !orb_false_r. reflexivity.
Qed.

(** The two theorems at a header line. *)
Lemma cleanMarkdownForSpeech_clean_witness :
  isSpace (ch "H") = false /\ isSpace (ch "i") = false.
Proof.
  destruct (proj2 (proj2 (proj2 (proj2 cleanMarkdownForSpeech_clean)))
              (lit "# Hi ")) as (_ & Hh & Hl & _); [discriminate|].
  split; [apply (Hh (ch "H") (lit "i")) | apply (Hl (lit "H") (ch "i"))];
    vm_compute; reflexivity.
Defined.

Lemma cleaned_text_markdown_witness :
  hasMarkdownSyntax
    (VString (cleanMarkdownForSpeech (VString (lit "# **Hi** + 1")))) = false.
Proof.
  refine (eq_trans (proj2 (cleaned_text_markdown (lit "# **Hi** + 1"))) _).
  vm_compute. reflexivity.
Defined.

(** Other survivors: a link nested in a link text, a doubled blockquote
    mark, a numbered item. *)
Example nested_link_survives :
  cleanMarkdownForSpeech (VString (lit "[[a](b)](c)")) = lit "[a](c)" /\
  cleanMarkdownForSpeech (VString (lit ">> a")) = lit "> a" /\
  cleanMarkdownForSpeech (VString (lit "1. a")) = lit "1. a".
Proof. repeat split; vm_compute; reflexivity. Qed.

(** A text with most of the markup the cleaning removes. *)
Example cleaned_text :
  cleanMarkdownForSpeech
    (VString (lit "# Hello **world**,  `code` and ~~old~~ [site](url) | x"))
  = lit "Hello world, code and old site x".
Proof. vm_compute. reflexivity. Qed.

End TextFacts.

(* ===================================================================== *)
(** * Further properties: the hook and its callbacks                      *)
(* ===================================================================== *)

Section HookFacts.

Import Conversation.

(** X1. Whatever actions are dispatched from the initial state, the session
    fields move together: [isActive] is true exactly when the mode is
    'conversational', exactly when [sessionId] is set and exactly when
    [startTime] is set. *)
Theorem session_fields_coherent (s : state) :
  reachable anyAction s ->
  (isActive s = true <-> mode s = CONVERSATIONAL) /\
  (isActive s = true <-> is_Some (sessionId s)) /\
  (isActive s = true <-> is_Some (startTime s)).
Proof.
  induction 1 as [|s t a Hr IH _].
  - simpl. repeat split; intros H; try discriminate; destruct H; discriminate.
  - destruct a; simpl; try exact IH.
    + repeat split; eauto.
    + repeat split; intros H; try discriminate; destruct H; discriminate.
Qed.

Lemma string_or_nonempty x d : d <> EmptyString -> string_or x d <> EmptyString.
Proof.
  intros Hd. unfold string_or. destruct x as [m|]; [|exact Hd].
  destruct (decide (m = EmptyString)); assumption.
Qed.

(** X2. Whatever actions are dispatched from the initial state, a state
    'error' carries an error message, and the message is not empty. *)
Theorem error_state_has_message (s : state) :
  reachable anyAction s ->
  currentState s = ERROR ->
  exists msg, error s = Some msg /\ msg <> EmptyString.
Proof.
  induction 1 as [|s t a Hr IH _]; [discriminate|].
  destruct a; simpl; try discriminate; try exact IH.
  - unfold returnState. destruct (decide _); discriminate.
  - intros _. eexists. split; [reflexivity|]. apply string_or_nonempty. discriminate.
  - unfold returnState. destruct (decide _); discriminate.
Qed.

Lemma run_app s l1 l2 : run (run s l1) l2 = run s (l1 ++ l2).
Proof. unfold run. rewrite fold_left_app. reflexivity. Qed.

Lemma exchangeCount_run_noStart l : forall s,
  forallb (fun ta => negb (isStartConversation (snd ta))) l = true ->
  exchangeCount (run s l) = exchangeCount s + countSpeaking l.
Proof.
  unfold countSpeaking.
  induction l as [|[t a] l IH]; intros s Hl.
  - simpl. lia.
  - cbn [forallb] in Hl. apply andb_true_iff in Hl as [Ha Hl].
    change (run s ((t, a) :: l)) with (run (conversationReducer t s a) l).
    rewrite (IH _ Hl). cbn [List.filter snd].
    destruct a; simpl in *; try discriminate; lia.
Qed.

(** X3. [exchangeCount] counts the START_SPEAKING actions since the last
    START_CONVERSATION: dispatches without START_CONVERSATION add their
    number of START_SPEAKING to the counter, and after a START_CONVERSATION
    the counter is the number of START_SPEAKING that followed it. *)
Theorem exchangeCount_counts (s : state) (l1 l2 : list (Z * action))
  (t : Z) (sid : option string) (md : option (gmap string string)) :
  forallb (fun ta => negb (isStartConversation (snd ta))) l2 = true ->
  exchangeCount (run s l2) = exchangeCount s + countSpeaking l2 /\
  exchangeCount (run s (l1 ++ (t, START_CONVERSATION sid md) :: l2))
    = countSpeaking l2.
Proof.
  intros H. split; [apply exchangeCount_run_noStart; exact H|].
  rewrite <- run_app.
  change (run (run s l1) ((t, START_CONVERSATION sid md) :: l2))
    with (run (conversationReducer t (run s l1) (START_CONVERSATION sid md)) l2).
  rewrite (exchangeCount_run_noStart _ _ H). simpl. lia.
Qed.

(** A callback whose render shows the current state is [callHook]. *)
Lemma callWith_same (cfg : config) (t : Z) (c : call) (s : state) :
  callWith cfg t c s s = callHook cfg t c s.
Proof. destruct c; reflexivity. Qed.

(** A call leaves the state alone or reduces it by one action. *)
Lemma callWith_dispatch (cfg : config) (t : Z) (c : call)
  (snap cur : state) :
  fst (callWith cfg t c snap cur) = cur \/
  exists a, fst (callWith cfg t c snap cur) = conversationReducer t cur a.
Proof.
  destruct c; cbn [callWith callHook];
    unfold startConversation, endConversation, startListening,
      startProcessing, finishSpeaking, setError, clearError, updateSession;
    cbn [fst]; try (right; eexists; reflexivity).
  - destruct (decide _); cbn [fst]; [right; eexists; reflexivity | left; reflexivity].
  - unfold endConversation. destruct (_ && _); cbn [fst];
      right; eexists; reflexivity.
  - destruct (canInterrupt snap); cbn [fst];
      [right; eexists; reflexivity | left; reflexivity].
Qed.

Lemma hookReachable_reachable cfg s :
  hookReachable cfg s -> reachable anyAction s.
Proof.
  intros [shown H].
  induction H as [|shown cur _ IH|shown cur snap t c _ IH _];
    [constructor | exact IH |].
  destruct (callWith_dispatch cfg t c snap cur) as [E|[a E]]; rewrite E.
  - exact IH.
  - apply reach_step; [exact IH | reflexivity].
Qed.

Lemma callsInRender_run cfg shown snap l cur :
  In snap shown -> hookRun cfg shown cur ->
  hookRun cfg shown (callsInRender cfg snap l cur).
Proof.
  intros Hs. revert cur. induction l as [|[t c] l IH]; intros cur Hc;
    [exact Hc|].
  apply IH. apply hook_call; assumption.
Qed.

Lemma startSpeaking_in_render cfg snap (ts : list Z) cur :
  (0 <? maxExchanges cfg) && (maxExchanges cfg <=? exchangeCount snap)
    = false ->
  let s' := callsInRender cfg snap
              (map (fun t => (t, CallStartSpeaking)) ts) cur in
  exchangeCount s' = exchangeCount cur + Z.of_nat (length ts) /\
  (ts <> [] -> currentState s' = SPEAKING).
Proof.
  intros Hg. revert cur. induction ts as [|t ts IH]; intros cur.
  - simpl. split; [lia | congruence].
  - cbn [map callsInRender fold_left fst snd callWith]. rewrite Hg.
    cbn [fst]. destruct (IH (conversationReducer t cur START_SPEAKING))
      as [IH1 IH2].
    unfold callsInRender in IH1, IH2. cbn zeta in IH1, IH2.
    split.
    + rewrite IH1. cbn [conversationReducer exchangeCount length].
      lia.
    + intros _. destruct ts as [|t' ts']; [reflexivity|].
      apply IH2. discriminate.
Qed.

(** X4. The limit of [startSpeaking] is the one of the render: when the
    state a render shows passes the check of [maxExchanges], every call of
    that render's [startSpeaking] dispatches START_SPEAKING, so [n] calls
    leave the hook speaking with [exchangeCount] raised by [n], whatever
    [maxExchanges] is, and the state they leave is one the hook can be
    in: the limit is not an invariant of the hook. *)
Theorem startSpeaking_limit_per_render (cfg : config) (s : state)
  (ts : list Z) :
  hookReachable cfg s ->
  (0 <? maxExchanges cfg) && (maxExchanges cfg <=? exchangeCount s)
    = false ->
  let s' := callsInRender cfg s
              (map (fun t => (t, CallStartSpeaking)) ts) s in
  hookReachable cfg s' /\
  exchangeCount s' = exchangeCount s + Z.of_nat (length ts) /\
  (ts <> [] -> currentState s' = SPEAKING).
Proof.
  intros [shown Hr] Hg s'. split.
  - exists (s :: shown).
    apply callsInRender_run; [left; reflexivity | apply hook_render, Hr].
  - apply startSpeaking_in_render. exact Hg.
Qed.

(** X5. In every state the hook can reach, [handleInterrupt] of the
    call preview acts exactly in the state 'speaking': there it dispatches
    INTERRUPT_SPEAKING and, with [autoReturnToListening], schedules the
    return to 'listening' 100 ms later; in every other state it changes
    nothing and schedules nothing. *)
Theorem handleInterrupt_speaking_only (cfg : config) (t : Z) (s : state) :
  hookReachable cfg s ->
  (currentState s = SPEAKING ->
     fst (handleInterrupt cfg t s)
       = conversationReducer t s INTERRUPT_SPEAKING /\
     snd (handleInterrupt cfg t s)
       = (if autoReturnToListening cfg
          then [SetTimeout 100 START_LISTENING] else []) /\
     currentState
       (conversationReducer (t + 100) (fst (handleInterrupt cfg t s))
          START_LISTENING) = LISTENING) /\
  (currentState s <> SPEAKING -> handleInterrupt cfg t s = (s, [])).
Proof.
  intros Hr. apply hookReachable_reachable in Hr.
  pose proof (speaking_canInterrupt _ _ Hr) as Hs.
  unfold handleInterrupt, canInterruptNow, interruptSpeaking. split.
  - intros H. rewrite (Hs H). rewrite bool_decide_eq_true_2 by exact H.
    simpl. auto.
  - intros H. rewrite bool_decide_eq_false_2 by exact H.
    rewrite andb_false_r. reflexivity.
Qed.

(** X6. [updateSession] merges the metadata: a key of the argument takes
    the argument's value, every other key keeps its value; the state of the
    conversation and the exchange counter are untouched. *)
Theorem updateSession_merge (t : Z) (md : gmap string string) (s : state)
  (k : string) :
  metadata (fst (updateSession t (Some md) s)) !! k
    = match md !! k with
      | Some v => Some v
      | None => metadata s !! k
      end /\
  currentState (fst (updateSession t (Some md) s)) = currentState s /\
  exchangeCount (fst (updateSession t (Some md) s)) = exchangeCount s.
Proof.
  simpl. split; [|auto].
  destruct (md !! k) as [v|] eqn:E.
  - apply lookup_union_Some_l. exact E.
  - rewrite lookup_union_r by exact E. reflexivity.
Qed.

End HookFacts.

(* ===================================================================== *)
(** * Further properties: the detection loop                              *)
(* ===================================================================== *)

Section LoopFacts.

Import VAD.

Variable cfg : config.

Lemma analyzeFrames_inactive (fs : list frame) (v : vad) :
  isActive v = false -> analyzeFrames cfg fs v = (v, []).
Proof.
  intros H. induction fs as [|f fs IH]; [reflexivity|].
  cbn [analyzeFrames]. unfold analyzeAudio at 1. rewrite H. simpl.
  rewrite IH. reflexivity.
Qed.

(** X7. [stop()] deactivates the detector and leaves it not speaking; it
    fires [onSpeechEnd] once if a speech was in progress and nothing
    otherwise; whatever frames are analysed afterwards fire nothing and
    change nothing. *)
Theorem stop_silences (now : Z) (v : vad) (fs : list frame) :
  isActive (fst (stop now v)) = false /\
  isSpeaking (fst (stop now v)) = false /\
  (isSpeaking v = true -> exists d, snd (stop now v) = [OnSpeechEnd d]) /\
  (isSpeaking v = false -> snd (stop now v) = []) /\
  analyzeFrames cfg fs (fst (stop now v)) = (fst (stop now v), []).
Proof.
  assert (Ha : isActive (fst (stop now v)) = false).
  { unfold stop, handleSpeechEnd. simpl. destruct (isSpeaking v); reflexivity. }
  split; [exact Ha|]. split; [|split; [|split]].
  - unfold stop, handleSpeechEnd. simpl.
    destruct (isSpeaking v) eqn:E; reflexivity.
  - intros H. unfold stop, handleSpeechEnd. simpl. rewrite H. eexists. reflexivity.
  - intros H. unfold stop, handleSpeechEnd. simpl. rewrite H. reflexivity.
  - apply analyzeFrames_inactive, Ha.
Qed.

Lemma analyzeAudio_consistent (f : frame) (v : vad) :
  consistent v -> consistent (fst (analyzeAudio cfg f v)).
Proof.
  intros Hc. pose proof Hc as [H1 H2]. unfold analyzeAudio.
  destruct (isActive v); simpl; [|exact Hc].
  destruct (silenceThreshold cfg <? calculateVolume (data f))%float.
  - unfold handleSpeechDetected, handleSpeechEnd.
    destruct (isSpeaking v) eqn:Es; simpl;
      destruct (maxSpeechDuration cfg <? _); simpl; rewrite ?Es; simpl;
      split; intros; try discriminate; auto.
  - unfold handleSilenceDetected, handleSpeechEnd.
    destruct (isSpeaking v) eqn:Es; simpl; [|exact Hc].
    destruct (speechTimeout cfg <? _); simpl.
    + destruct (minSpeechDuration cfg <=? _); simpl; rewrite ?Es; simpl;
        split; intros; try discriminate; auto.
    + rewrite ?Es. split; intros; try discriminate; auto.
Qed.

(** X8. After [start()] and any sequence of frames the detector is still
    active and its timers agree with [isSpeaking]: while speaking
    [speechStartTime] is set, while not speaking [speechStartTime] and
    [silenceStartTime] are both [null]. *)
Theorem loop_consistent (fs : list frame) :
  consistent (fst (analyzeFrames cfg fs started)) /\
  isActive (fst (analyzeFrames cfg fs started)) = true.
Proof.
  assert (H : forall v, consistent v -> isActive v = true ->
            consistent (fst (analyzeFrames cfg fs v)) /\
            isActive (fst (analyzeFrames cfg fs v)) = true).
  { induction fs as [|f fs IH]; intros v Hc Ha; [split; assumption|].
    cbn [analyzeFrames].
    pose proof (analyzeAudio_consistent f v Hc) as Hc'.
    assert (Ha' : isActive (fst (analyzeAudio cfg f v)) = true).
    { unfold analyzeAudio. rewrite Ha. simpl.
      destruct (silenceThreshold cfg <? _)%float.
      - unfold handleSpeechDetected, handleSpeechEnd.
        destruct (isSpeaking v); simpl; destruct (_ <? _); simpl; exact Ha.
      - unfold handleSilenceDetected, handleSpeechEnd.
        destruct (isSpeaking v) eqn:Es; simpl; [|exact Ha].
        destruct (_ <? _); simpl; [|exact Ha].
        destruct (_ <=? _); simpl; rewrite ?Es; exact Ha. }
    destruct (analyzeAudio cfg f v) as [v1 ev1]. simpl in *.
    destruct (IH v1 Hc' Ha') as [Hc2 Ha2].
    destruct (analyzeFrames cfg fs v1) as [v2 ev2]. simpl in *. auto. }
  apply H; [|reflexivity].
  split; [discriminate | intros _; split; reflexivity].
Qed.

Lemma endsMatched_app (a b : list event) : forall open,
  endsMatched open (a ++ b)
    = endsMatched open a && endsMatched (openAfter open a) b.
Proof.
  induction a as [|e a IH]; intros open; [reflexivity|].
  destruct e; cbn [app endsMatched openAfter]; rewrite IH;
    [reflexivity | reflexivity | apply andb_assoc].
Qed.

Lemma openAfter_app (a b : list event) : forall open,
  openAfter open (a ++ b) = openAfter (openAfter open a) b.
Proof.
  induction a as [|e a IH]; intros open; [reflexivity|].
  destruct e; cbn [app openAfter]; apply IH.
Qed.

Lemma analyzeAudio_matched (f : frame) (v : vad) (open : bool) :
  (isSpeaking v = true -> open = true) ->
  endsMatched open (snd (analyzeAudio cfg f v)) = true /\
  (isSpeaking (fst (analyzeAudio cfg f v)) = true ->
   openAfter open (snd (analyzeAudio cfg f v)) = true).
Proof.
  intros Ho. unfold analyzeAudio.
  destruct (isActive v); simpl; [|split; [reflexivity | exact Ho]].
  destruct (silenceThreshold cfg <? calculateVolume (data f))%float.
  - unfold handleSpeechDetected, handleSpeechEnd.
    destruct (isSpeaking v) eqn:Es; simpl;
      destruct (maxSpeechDuration cfg <? _); simpl; rewrite ?Es; simpl;
      rewrite ?Ho by reflexivity; split; intros; try discriminate; auto.
  - unfold handleSilenceDetected, handleSpeechEnd.
    destruct (isSpeaking v) eqn:Es; simpl;
      [|split; [reflexivity | intros; congruence]].
    rewrite Ho by reflexivity.
    destruct (speechTimeout cfg <? _); simpl.
    + destruct (minSpeechDuration cfg <=? _); simpl; rewrite ?Es; simpl;
        split; intros; try discriminate; auto.
    + rewrite ?Es. split; auto.
Qed.

(** X9. In the calls fired by any sequence of frames after [start()], every
    [onSpeechEnd] comes after an [onSpeechStart] with no other [onSpeechEnd]
    in between. *)
Theorem ends_follow_starts (fs : list frame) :
  endsMatched false (snd (analyzeFrames cfg fs started)) = true.
Proof.
  assert (H : forall v open, (isSpeaking v = true -> open = true) ->
            endsMatched open (snd (analyzeFrames cfg fs v)) = true).
  { induction fs as [|f fs IH]; intros v open Ho; [reflexivity|].
    cbn [analyzeFrames].
    destruct (analyzeAudio_matched f v open Ho) as [Hm Hn].
    destruct (analyzeAudio cfg f v) as [v1 ev1]. simpl in Hm, Hn.
    specialize (IH v1 (openAfter open ev1) Hn).
    destruct (analyzeFrames cfg fs v1) as [v2 ev2]. simpl in *.
    rewrite endsMatched_app, Hm, IH. reflexivity. }
  apply H. discriminate.
Qed.

Lemma analyzeFrames_event (e : event) (fs : list frame) : forall v,
  In e (snd (analyzeFrames cfg fs v)) ->
  exists f v', In f fs /\ In e (snd (analyzeAudio cfg f v')).
Proof.
  induction fs as [|f fs IH]; intros v; [intros []|].
  cbn [analyzeFrames].
  destruct (analyzeAudio cfg f v) as [v1 ev1] eqn:E1.
  specialize (IH v1).
  destruct (analyzeFrames cfg fs v1) as [v2 ev2]. simpl.
  intros H. apply in_app_or in H as [H|H].
  - exists f, v. rewrite E1. split; [left; reflexivity | exact H].
  - destruct (IH H) as (g & v' & Hg & He). exists g, v'.
    split; [right; exact Hg | exact He].
Qed.

Lemma analyzeAudio_duration (f : frame) (v : vad) (d : Z) :
  clockOk f ->
  In (OnSpeechEnd d) (snd (analyzeAudio cfg f v)) ->
  minSpeechDuration cfg <= d \/ maxSpeechDuration cfg < d.
Proof.
  intros [Hz Hle]. rewrite (analyzeAudio_events cfg).
  destruct (isActive v); [|intros []].
  intros [H|H]; [discriminate|]. revert H.
  destruct (isSpeechDetected cfg (data f)).
  - rewrite (handleSpeechDetected_events cfg). intros H.
    apply in_app_or in H as [H|H].
    + destruct (isSpeaking v); [destruct H | destruct H as [H|[]]; discriminate].
    + destruct (maxSpeechDuration cfg <? _) eqn:E; [|destruct H].
      apply Z.ltb_lt in E. destruct H as [H|[]]. injection H as <-.
      right. lia.
  - rewrite (handleSilenceDetected_events cfg).
    destruct (isSpeaking v); simpl; [|intros []].
    destruct (speechTimeout cfg <? _); simpl; [|intros []].
    destruct (minSpeechDuration cfg <=? _) eqn:E; simpl; [|intros []].
    apply Z.leb_le in E. intros [H|[]]. injection H as <-.
    assert (Ht : truthy (silenceStart (currentTime f) v) = true).
    { unfold silenceStart. destruct (truthy (silenceStartTime v)) eqn:T;
        simpl; [exact T|]. apply negb_true_iff, Z.eqb_neq. exact Hz. }
    rewrite Ht. left. exact E.
Qed.

(** X10. When no frame is stamped 0 and the clock does not run backwards
    inside a frame, every duration passed to [onSpeechEnd] by the loop is at
    least [minSpeechDuration] or larger than [maxSpeechDuration]. *)
Theorem reported_durations (fs : list frame) (v : vad) (d : Z) :
  Forall clockOk fs ->
  In (OnSpeechEnd d) (snd (analyzeFrames cfg fs v)) ->
  minSpeechDuration cfg <= d \/ maxSpeechDuration cfg < d.
Proof.
  intros Hc H. apply analyzeFrames_event in H as (f & v' & Hf & He).
  apply (analyzeAudio_duration f v' d); [|exact He].
  rewrite List.Forall_forall in Hc. apply Hc, Hf.
Qed.

Lemma volumesOf_app (a b : list event) :
  volumesOf (a ++ b) = volumesOf a ++ volumesOf b.
Proof.
  induction a as [|e a IH]; [reflexivity|].
  destruct e; cbn [app volumesOf]; rewrite IH; reflexivity.
Qed.

(** X11. After [start()], [onVolumeChange] is called once per frame, in
    order, with the volume of that frame. *)
Theorem volume_reported_per_frame (fs : list frame) :
  volumesOf (snd (analyzeFrames cfg fs started))
    = map (fun f => calculateVolume (data f)) fs.
Proof.
  assert (H : forall v, isActive v = true ->
            volumesOf (snd (analyzeFrames cfg fs v))
              = map (fun f => calculateVolume (data f)) fs).
  { induction fs as [|f fs IH]; intros v Ha; [reflexivity|].
    cbn [analyzeFrames map].
    assert (Hv : volumesOf (snd (analyzeAudio cfg f v))
                 = [calculateVolume (data f)] /\
                 isActive (fst (analyzeAudio cfg f v)) = true).
    { unfold analyzeAudio. rewrite Ha. simpl.
      destruct (silenceThreshold cfg <? _)%float.
      - unfold handleSpeechDetected, handleSpeechEnd.
        destruct (isSpeaking v); simpl; destruct (_ <? _); simpl; auto.
      - unfold handleSilenceDetected, handleSpeechEnd.
        destruct (isSpeaking v) eqn:Es; simpl; [|auto].
        destruct (_ <? _); simpl; [|auto].
        destruct (_ <=? _); simpl; rewrite ?Es; auto. }
    destruct Hv as [Hv Ha'].
    destruct (analyzeAudio cfg f v) as [v1 ev1]. simpl in *.
    specialize (IH v1 Ha').
    destruct (analyzeFrames cfg fs v1) as [v2 ev2]. simpl in *.
    rewrite volumesOf_app, Hv, IH. reflexivity. }
  apply H. reflexivity.
Qed.

End LoopFacts.

(* ===================================================================== *)
(** * Further properties: the text functions                              *)
(* ===================================================================== *)

Section TextMoreFacts.

Import Text.

(** ** Templates and replacements *)

Lemma expandTpl_tplOf rp whole cap :
  expandTpl (tplOf rp) whole cap = expand rp cap.
Proof. destruct rp; simpl; apply app_nil_r. Qed.

Lemma replaceFrom_tpl r rp : forall s prev skip,
  replaceFrom r rp prev s skip = replaceTplFrom r (tplOf rp) prev s skip.
Proof.
  induction s as [|c s IH]; intros prev skip.
  - destruct skip; [|reflexivity]. cbn [replaceFrom replaceTplFrom].
    destruct (execAt r prev []) as [[[|n] cap]|];
      rewrite ?expandTpl_tplOf; reflexivity.
  - destruct skip; cbn [replaceFrom replaceTplFrom]; [|apply IH].
    destruct (execAt r prev (c :: s)) as [[[|n] cap]|];
      rewrite ?expandTpl_tplOf, ?IH; reflexivity.
Qed.

Lemma replaceAll_tpl r rp s :
  replaceAll r rp s = replaceTpl r (tplOf rp) s.
Proof. apply replaceFrom_tpl. Qed.

Lemma applySteps_tpl steps : forall s,
  applySteps steps s = applyTplSteps (tplSteps steps) s.
Proof.
  unfold applySteps, applyTplSteps.
  induction steps as [|st steps IH]; intros s; [reflexivity|].
  cbn [tplSteps map fold_left fst snd]. rewrite replaceAll_tpl. apply IH.
Qed.

(** ** A pattern that cannot start *)

Lemma isDigit_cases c :
  isDigit c = true -> In c (lit "0123456789").
Proof.
  unfold isDigit. intros H. apply andb_true_iff in H as [H1 H2].
  apply N.leb_le in H1, H2. cbn [lit In]. unfold ch. simpl N_of_ascii.
  assert (c = 48 \/ c = 49 \/ c = 50 \/ c = 51 \/ c = 52 \/ c = 53 \/
          c = 54 \/ c = 55 \/ c = 56 \/ c = 57)%N by lia.
  intuition auto.
Qed.

Lemma itemsIn_cmatch q items c :
  itemsIn q items = true -> cmatch false items c = true -> q c = true.
Proof.
  unfold cmatch, itemsIn. simpl xorb. intros Hall Hex.
  apply existsb_exists in Hex as (i & Hi & Hm).
  rewrite forallb_forall in Hall. specialize (Hall i Hi).
  destruct i; try discriminate; simpl in Hm.
  - apply N.eqb_eq in Hm. subst. exact Hall.
  - rewrite forallb_forall in Hall. apply Hall, isDigit_cases, Hm.
Qed.

Lemma startsIn_sound q r :
  startsIn q r = true ->
  forall prev s cap k res,
    rmatch r prev s cap k = Some res ->
    match s with
    | c :: _ => q c = true
    | [] => False
    end.
Proof.
  induction r as [|neg items|greedy lo hi neg items|r1 IH1 r2 IH2|r1 IH1| |];
    cbn [startsIn]; intros Hf prev s cap k res Hm; try discriminate.
  - destruct neg; [discriminate|]. cbn [rmatch] in Hm.
    destruct s as [|c s]; [discriminate|].
    destruct (cmatch false items c) eqn:Ec; [|discriminate].
    apply (itemsIn_cmatch _ _ _ Hf Ec).
  - destruct lo as [|lo]; [discriminate|]. destruct neg; [discriminate|].
    cbn [rmatch] in Hm. destruct s as [|c s].
    + destruct greedy; discriminate.
    + cbn [rep] in Hm.
      destruct (cmatch false items c) eqn:Ec;
        [apply (itemsIn_cmatch _ _ _ Hf Ec)|].
      destruct greedy; discriminate.
  - cbn [rmatch] in Hm.
    assert (H1 : startsIn q r1 = true -> match s with
                                         | c :: _ => q c = true
                                         | [] => False
                                         end)
      by (intros H; apply (IH1 H _ _ _ _ _ Hm)).
    destruct r1; try (apply H1; exact Hf); try discriminate.
    cbn [rmatch] in Hm. destruct (atLineStart prev); [|discriminate].
    apply (IH2 Hf _ _ _ _ _ Hm).
  - cbn [rmatch] in Hm. apply (IH1 Hf _ _ _ _ _ Hm).
Qed.

Lemma execAt_startsIn q r prev s :
  startsIn q r = true ->
  match s with c :: _ => q c = false | [] => True end ->
  execAt r prev s = None.
Proof.
  intros Hf Hs. unfold execAt.
  destruct (rmatch r prev s None _) as [res|] eqn:Hm; [|reflexivity].
  exfalso. pose proof (startsIn_sound q r Hf _ _ _ _ _ Hm) as H.
  destruct s as [|c s]; [exact H|]. rewrite Hs in H. discriminate.
Qed.

Lemma testFrom_startsIn q r :
  startsIn q r = true ->
  forall s prev, (forall c, In c s -> q c = false) ->
  testFrom r prev s = false.
Proof.
  intros Hf. induction s as [|c s IH]; intros prev Hs; cbn [testFrom].
  - rewrite (execAt_startsIn q r prev [] Hf I). reflexivity.
  - rewrite (execAt_startsIn q r prev (c :: s) Hf (Hs c (or_introl eq_refl))).
    apply IH. intros d Hd. apply Hs. right. exact Hd.
Qed.

Lemma replaceTpl_startsIn q r tpl :
  startsIn q r = true ->
  forall s prev, (forall c, In c s -> q c = false) ->
  replaceTplFrom r tpl prev s O = s.
Proof.
  intros Hf. induction s as [|c s IH]; intros prev Hs; cbn [replaceTplFrom].
  - rewrite (execAt_startsIn q r prev [] Hf I). reflexivity.
  - rewrite (execAt_startsIn q r prev (c :: s) Hf (Hs c (or_introl eq_refl))).
    f_equal. apply IH. intros d Hd. apply Hs. right. exact Hd.
Qed.

(** ** Where the characters of a replaced text come from *)

Lemma In_firstn (n : nat) (l : jsstring) c : In c (firstn n l) -> In c l.
Proof.
  intros H. rewrite <- (firstn_skipn n l). apply in_or_app. left. exact H.
Qed.

Lemma orElse_Some a b res :
  orElse a b = Some res -> a = Some res \/ b tt = Some res.
Proof. destruct a; simpl; auto. Qed.

Lemma rep_incl greedy p : forall s lo hi prev cap k res,
  rep greedy p lo hi prev s cap k = Some res ->
  exists prev' s', k prev' s' cap = Some res /\ incl s' s.
Proof.
  induction s as [|c s IH]; intros lo hi prev cap k res H.
  - cbn [rep] in H. exists prev, [].
    split; [|apply incl_refl].
    destruct greedy; apply orElse_Some in H as [H|H];
      destruct lo; try discriminate; exact H.
  - cbn [rep] in H.
    assert (Hmore : (if p c && below hi
                     then rep greedy p (Nat.pred lo) (decr hi) (Some c) s cap k
                     else None) = Some res ->
                    exists prev' s',
                      k prev' s' cap = Some res /\ incl s' (c :: s)).
    { destruct (p c && below hi); [|discriminate]. intros Hr.
      apply IH in Hr as (p' & s' & Hk & Hi). exists p', s'.
      split; [exact Hk | apply incl_tl, Hi]. }
    assert (Hstop : match lo with O => k prev (c :: s) cap | S _ => None end
                    = Some res ->
                    exists prev' s',
                      k prev' s' cap = Some res /\ incl s' (c :: s)).
    { destruct lo; [|discriminate]. intros Hr. exists prev, (c :: s).
      split; [exact Hr | apply incl_refl]. }
    destruct greedy; apply orElse_Some in H as [H|H]; auto.
Qed.

Lemma rmatch_incl r : forall prev s cap k res,
  rmatch r prev s cap k = Some res ->
  exists prev' s' cap',
    k prev' s' cap' = Some res /\ incl s' s /\
    (cap' = cap \/ exists x, cap' = Some x /\ incl x s).
Proof.
  induction r as [|neg items|greedy lo hi neg items|r1 IH1 r2 IH2|r1 IH1| |];
    intros prev s cap k res H; cbn [rmatch] in H.
  - exists prev, s, cap. split; [exact H|]. split; [apply incl_refl | left; reflexivity].
  - destruct s as [|c s]; [discriminate|].
    destruct (cmatch neg items c); [|discriminate].
    exists (Some c), s, cap. split; [exact H|].
    split; [apply incl_tl, incl_refl | left; reflexivity].
  - apply rep_incl in H as (p' & s' & Hk & Hi).
    exists p', s', cap. split; [exact Hk|]. split; [exact Hi | left; reflexivity].
  - apply IH1 in H as (p1 & s1 & c1 & H & Hi1 & Hc1).
    apply IH2 in H as (p2 & s2 & c2 & H & Hi2 & Hc2).
    exists p2, s2, c2. split; [exact H|]. split.
    + eapply incl_tran; eassumption.
    + destruct Hc2 as [->|(x & -> & Hx)]; [exact Hc1|].
      right. exists x. split; [reflexivity|]. eapply incl_tran; eassumption.
  - apply IH1 in H as (p1 & s1 & c1 & H & Hi1 & _).
    eexists p1, s1, _. split; [exact H|]. split; [exact Hi1|].
    right. eexists. split; [reflexivity|].
    intros c Hc. apply In_firstn in Hc. exact Hc.
  - destruct (atLineStart prev); [|discriminate].
    exists prev, s, cap. split; [exact H|]. split; [apply incl_refl | left; reflexivity].
  - destruct (atLineEnd s); [|discriminate].
    exists prev, s, cap. split; [exact H|]. split; [apply incl_refl | left; reflexivity].
Qed.

Lemma execAt_incl r prev s n cap :
  execAt r prev s = Some (n, cap) ->
  forall c, In c (default [] cap) -> In c s.
Proof.
  unfold execAt. intros H.
  destruct (rmatch r prev s None _) as [[s' cap']|] eqn:Hm; [|discriminate].
  injection H as _ <-.
  apply rmatch_incl in Hm as (p1 & s1 & c1 & Hk & _ & Hc).
  injection Hk as _ <-.
  destruct Hc as [->|(x & -> & Hx)]; [intros c []|].
  intros c Hc. apply Hx, Hc.
Qed.

Lemma expandTpl_incl tpl whole cap c :
  In c (expandTpl tpl whole cap) ->
  In c whole \/ In c (default [] cap) \/ In c (tplChars tpl).
Proof.
  unfold expandTpl, tplChars. induction tpl as [|p tpl IH]; [intros []|].
  cbn [flat_map]. intros H. apply in_app_or in H as [H|H].
  - destruct p; simpl in H; auto.
    right. right. apply in_or_app. left. exact H.
  - destruct (IH H) as [?|[?|?]]; auto.
    right. right. apply in_or_app. right. assumption.
Qed.

Lemma replaceTplFrom_incl r tpl c : forall s prev skip,
  In c (replaceTplFrom r tpl prev s skip) -> In c s \/ In c (tplChars tpl).
Proof.
  induction s as [|d s IH]; intros prev skip.
  - destruct skip; cbn [replaceTplFrom]; [|intros []].
    destruct (execAt r prev []) as [[[|n] cap]|] eqn:E; try (intros []).
    + rewrite app_nil_r. intros H.
      apply expandTpl_incl in H as [[]|[H|H]]; [|right; exact H].
      left. apply (execAt_incl _ _ _ _ _ E), H.
    + rewrite app_nil_r. intros H.
      apply expandTpl_incl in H as [H|[H|H]]; [|left|right; exact H].
      * destruct H.
      * apply (execAt_incl _ _ _ _ _ E), H.
  - destruct skip; cbn [replaceTplFrom].
    + destruct (execAt r prev (d :: s)) as [[[|n] cap]|] eqn:E.
      * intros H. apply in_app_or in H as [H|H].
        -- apply expandTpl_incl in H as [[]|[H|H]]; [|right; exact H].
           left. apply (execAt_incl _ _ _ _ _ E), H.
        -- destruct H as [<-|H]; [left; left; reflexivity|].
           apply IH in H as [H|H]; [left; right; exact H | right; exact H].
      * intros H. apply in_app_or in H as [H|H].
        -- apply expandTpl_incl in H as [H|[H|H]]; [|left|right; exact H].
           ++ left. apply In_firstn in H. exact H.
           ++ apply (execAt_incl _ _ _ _ _ E), H.
        -- apply IH in H as [H|H]; [left; right; exact H | right; exact H].
      * intros [<-|H]; [left; left; reflexivity|].
        apply IH in H as [H|H]; [left; right; exact H | right; exact H].
    + intros H. apply IH in H as [H|H]; [left; right; exact H | right; exact H].
Qed.

Lemma replaceTpl_incl r tpl s c :
  In c (replaceTpl r tpl s) -> In c s \/ In c (tplChars tpl).
Proof. apply replaceTplFrom_incl. Qed.

Lemma applyTplSteps_incl steps c : forall s,
  In c (applyTplSteps steps s) ->
  In c s \/ exists step, In step steps /\ In c (tplChars (snd step)).
Proof.
  unfold applyTplSteps.
  induction steps as [|st steps IH]; intros s; cbn [fold_left]; [auto|].
  intros H. apply IH in H as [H|(step & Hs & Hc)].
  - apply replaceTpl_incl in H as [H|H]; [left; exact H|].
    right. exists st. split; [left; reflexivity | exact H].
  - right. exists step. split; [right; exact Hs | exact Hc].
Qed.

(** ** Steps that cannot apply *)

Lemma applyTplSteps_active q steps :
  forallb (fun step => forallb (fun c => negb (q c)) (tplChars (snd step)))
    steps = true ->
  forall s, (forall c, In c s -> q c = false) ->
  applyTplSteps steps s = applyTplSteps (activeSteps q steps) s.
Proof.
  unfold applyTplSteps, activeSteps.
  induction steps as [|st steps IH]; intros Ht s Hs; [reflexivity|].
  cbn [forallb] in Ht. apply andb_true_iff in Ht as [Hst Ht].
  cbn [fold_left List.filter].
  destruct (startsIn q (fst st)) eqn:E; cbn [negb].
  - unfold replaceTpl. rewrite (replaceTpl_startsIn q _ _ E s None Hs).
    apply IH; assumption.
  - cbn [fold_left]. apply IH; [exact Ht|].
    intros c Hc. apply replaceTpl_incl in Hc as [Hc|Hc]; [apply Hs, Hc|].
    rewrite forallb_forall in Hst. apply negb_true_iff, Hst, Hc.
Qed.

(** ** Normalised white space *)

Lemma collapse_space c : forall s inRun,
  In c (collapse inRun s) -> isSpace c = true -> c = ch " ".
Proof.
  induction s as [|d s IH]; intros inRun; cbn [collapse]; [intros []|].
  destruct (isSpace d) eqn:Ed.
  - destruct inRun; [apply IH|]. intros [<-|H]; [reflexivity | apply (IH _ H)].
  - intros [<-|H]; [congruence | apply (IH _ H)].
Qed.

Lemma trim_incl s c : In c (trim s) -> In c s.
Proof.
  intros H. destruct (trim_middle s) as (pre & post & E). rewrite E.
  apply in_or_app. right. apply in_or_app. left. exact H.
Qed.

Lemma normalizeSpace_collapse s : normalizeSpace s = trim (collapse false s).
Proof. unfold normalizeSpace. rewrite replaceAll_spaces1. reflexivity. Qed.

Lemma normalizeSpace_props (w : jsstring) :
  headNotSpace (normalizeSpace w) /\
  (forall t c, normalizeSpace w = t ++ [c] -> isSpace c = false) /\
  (forall l1 a b l2, normalizeSpace w = l1 ++ a :: b :: l2 ->
                     isSpace a && isSpace b = false) /\
  (forall c, In c (normalizeSpace w) -> isSpace c = true -> c = ch " ") /\
  (forall c, In c (normalizeSpace w) -> In c w \/ c = ch " ").
Proof.
  rewrite normalizeSpace_collapse.
  split; [apply trim_head|]. split; [intros t c; apply trim_last|].
  split; [|split].
  - intros l1 a b l2 E.
    destruct (trim_middle (collapse false w)) as (pre & post & Em).
    destruct (collapse_noDoubleSpace w false) as [Hn _].
    rewrite Em, E in Hn.
    replace (pre ++ (l1 ++ a :: b :: l2) ++ post)
      with ((pre ++ l1) ++ a :: b :: (l2 ++ post)) in Hn
      by (rewrite <- !app_assoc; reflexivity).
    apply (noDoubleSpace_split _ _ _ _ Hn).
  - intros c Hc. apply trim_incl in Hc. apply (collapse_space _ _ _ Hc).
  - intros c Hc. apply trim_incl in Hc. apply (collapse_In _ _ _ Hc).
Qed.

(** ** [extractPlainText] *)

Lemma replaceAll_Cls_text neg items t s :
  replaceAll (Cls neg items) (Text t) s
    = flat_map (fun c => if cmatch neg items c then t else [c]) s.
Proof.
  unfold replaceAll. generalize (@None N).
  induction s as [|c s IH]; intros prev; [reflexivity|].
  cbn [replaceFrom flat_map]. rewrite execAt_Cls.
  destruct (cmatch neg items c); cbn [expand]; rewrite IH; reflexivity.
Qed.

Lemma extractPlainText_string (s : jsstring) :
  extractPlainText (VString s) = extractString s.
Proof. destruct s; reflexivity. Qed.

Lemma extractString_shape s :
  exists x,
    extractString s
      = normalizeSpace
          (List.filter (fun c => negb (cmatch false
                                        [Lit (ch "#"); Lit (ch "*");
                                         Lit (ch "_"); Lit (ch "`");
                                         Lit (ch "~")] c))
             (flat_map (fun c => if cmatch false [Lit (ch "|")] c
                                 then lit " " else [c]) x)).
Proof.
  unfold extractString, applySteps, extractSteps. cbn [fold_left fst snd].
  unfold reMarkerPlain. rewrite replaceAll_Cls.
  unfold rePipe, c1. rewrite replaceAll_Cls_text.
  eexists. reflexivity.
Qed.

Lemma extractString_no_marker s c :
  In c (extractString s) -> cmatch false markers c = false.
Proof.
  destruct (extractString_shape s) as [x ->]. intros H.
  apply normalizeSpace_props in H as [H| ->]; [|reflexivity].
  apply filter_In in H as [H Hm]. apply negb_true_iff in Hm.
  apply in_flat_map in H as (d & _ & Hd).
  destruct (cmatch false [Lit (ch "|")] d) eqn:Ep.
  - destruct Hd as [<-|[]]. reflexivity.
  - destruct Hd as [<-|[]].
    unfold cmatch in *. cbn [xorb existsb imatch markers] in *.
    rewrite !orb_false_r in *. repeat rewrite orb_false_iff in Hm.
    destruct Hm as (-> & -> & -> & -> & ->). rewrite Ep. reflexivity.
Qed.

Lemma marker_chars c :
  In c (lit "#*_`~|") -> cmatch false markers c = true.
Proof.
  cbn [lit In]. intros H.
  repeat (destruct H as [<-|H]; [reflexivity|]). destruct H.
Qed.

(** X12. The result of [extractPlainText] on a string contains none of the
    characters [# * _ ` ~ |], neither starts nor ends with white space, has
    no two adjacent white-space characters, and matches none of the header,
    bold, italic, code and strikethrough patterns of [hasMarkdownSyntax]. *)
Theorem extractPlainText_clean (s : jsstring) :
  (forall c, In c (lit "#*_`~|") -> ~ In c (extractPlainText (VString s))) /\
  (forall c t, extractPlainText (VString s) = c :: t -> isSpace c = false) /\
  (forall t c, extractPlainText (VString s) = t ++ [c] ->
               isSpace c = false) /\
  (forall l1 a b l2, extractPlainText (VString s) = l1 ++ a :: b :: l2 ->
                     ~ (isSpace a = true /\ isSpace b = true)) /\
  existsb (fun p => test p (extractPlainText (VString s))) markerPatterns
    = false.
Proof.
  rewrite extractPlainText_string.
  pose proof (extractString_no_marker s) as Hm.
  destruct (extractString_shape s) as [x Ex].
  destruct (normalizeSpace_props
              (List.filter
                 (fun c => negb (cmatch false
                                   [Lit (ch "#"); Lit (ch "*");
                                    Lit (ch "_"); Lit (ch "`");
                                    Lit (ch "~")] c))
                 (flat_map (fun c => if cmatch false [Lit (ch "|")] c
                                     then lit " " else [c]) x)))
    as (Hh & Hl & Hd & _ & _).
  rewrite <- Ex in Hh, Hl, Hd.
  split; [|split; [|split; [|split]]].
  - intros c Hc Hin. apply Hm in Hin.
    rewrite (marker_chars c Hc) in Hin. discriminate.
  - intros c t E. rewrite E in Hh. exact Hh.
  - exact Hl.
  - intros l1 a b l2 E [Ha Hb]. apply Hd in E. rewrite Ha, Hb in E.
    discriminate.
  - apply markerPatterns_silent. exact Hm.
Qed.

(** ** Characters of the results *)

Lemma oneOf_In cs c : oneOf cs c = true <-> In c cs.
Proof.
  unfold oneOf. rewrite existsb_exists. split.
  - intros (d & Hd & E). apply N.eqb_eq in E. subst. exact Hd.
  - intros H. exists c. split; [exact H | apply N.eqb_refl].
Qed.

Lemma applySteps_incl steps (allowed : jsstring) s c :
  forallb (fun step => forallb (oneOf allowed) (tplChars (snd step)))
    (tplSteps steps) = true ->
  In c (applySteps steps s) -> In c s \/ In c allowed.
Proof.
  intros Ha H. rewrite applySteps_tpl in H.
  apply applyTplSteps_incl in H as [H|(step & Hs & Hc)]; [left; exact H|].
  right. rewrite forallb_forall in Ha. specialize (Ha step Hs).
  rewrite forallb_forall in Ha. apply oneOf_In, Ha, Hc.
Qed.

Lemma cleanString_normal s :
  exists w, cleanString s = normalizeSpace w.
Proof.
  unfold cleanString, applySteps, cleanSteps. cbn [fold_left fst snd].
  eexists. reflexivity.
Qed.

(** X13. In the results of [cleanMarkdownForSpeech] and [extractPlainText]
    every white-space character is the plain space, so no line break
    survives; and no character is invented: each character of the result
    occurs in the input, or in the inserted words [ code block ] for
    [cleanMarkdownForSpeech], or is a space for [extractPlainText]. *)
Theorem cleaned_text_characters (s : jsstring) :
  (forall c, In c (cleanMarkdownForSpeech (VString s)) ->
             isSpace c = true -> c = ch " ") /\
  (forall c, In c (cleanMarkdownForSpeech (VString s)) ->
             In c s \/ In c (lit " code block ")) /\
  (forall c, In c (extractPlainText (VString s)) ->
             isSpace c = true -> c = ch " ") /\
  (forall c, In c (extractPlainText (VString s)) ->
             In c s \/ c = ch " ").
Proof.
  rewrite cleanMarkdownForSpeech_string, extractPlainText_string.
  split; [|split; [|split]].
  - destruct (cleanString_normal s) as [w ->].
    apply normalizeSpace_props.
  - intros c H. unfold cleanString in H. apply trim_incl in H.
    apply (applySteps_incl _ (lit " code block ")) in H;
      [exact H | vm_compute; reflexivity].
  - destruct (extractString_shape s) as [w ->].
    apply normalizeSpace_props.
  - intros c H. unfold extractString in H. apply trim_incl in H.
    apply (applySteps_incl _ (lit " ")) in H; [|vm_compute; reflexivity].
    destruct H as [H|[<-|[]]]; auto.
Qed.

(** ** [formatForSpeech] *)

Lemma formatForSpeech_string (s : jsstring) :
  formatForSpeech (VString s) = formatString s.
Proof. destruct s; reflexivity. Qed.

Lemma formatString_normal s :
  exists w, formatString s = normalizeSpace w.
Proof.
  unfold formatString, applyTplSteps, formatSteps. cbn [fold_left fst snd].
  unfold normalizeSpace. eexists. rewrite replaceAll_tpl. reflexivity.
Qed.

(** X14. The result of [formatForSpeech] on a string neither starts nor
    ends with white space, has no two adjacent white-space characters, and
    its only white-space character is the plain space: no line break
    survives. *)
Theorem formatForSpeech_normal (s : jsstring) :
  (forall c t, formatForSpeech (VString s) = c :: t -> isSpace c = false) /\
  (forall t c, formatForSpeech (VString s) = t ++ [c] ->
               isSpace c = false) /\
  (forall l1 a b l2, formatForSpeech (VString s) = l1 ++ a :: b :: l2 ->
                     ~ (isSpace a = true /\ isSpace b = true)) /\
  (forall c, In c (formatForSpeech (VString s)) ->
             isSpace c = true -> c = ch " ").
Proof.
  rewrite formatForSpeech_string.
  destruct (formatString_normal s) as [w ->].
  destruct (normalizeSpace_props w) as (Hh & Hl & Hd & Hs & _).
  split; [|split; [|split]].
  - intros c t E. rewrite E in Hh. exact Hh.
  - exact Hl.
  - intros l1 a b l2 E [Ha Hb]. apply Hd in E. rewrite Ha, Hb in E.
    discriminate.
  - exact Hs.
Qed.

(** ** Texts without markup characters *)

Lemma applySteps_active q steps :
  forallb (fun step => forallb (fun c => negb (q c)) (tplChars (snd step)))
    (tplSteps steps) = true ->
  forall s, (forall c, In c s -> q c = false) ->
  applySteps steps s = applyTplSteps (activeSteps q (tplSteps steps)) s.
Proof.
  intros Ht s Hs. rewrite applySteps_tpl.
  apply applyTplSteps_active; assumption.
Qed.

(** X15. A text without any of the characters [` # * _ ~ [ ! > - |] is only
    normalised by [cleanMarkdownForSpeech]: the result is
    [text.replace(/\s+/g, ' ').trim()].  The same holds of
    [extractPlainText] for a text that has no [+] and no digit either. *)
Theorem plain_text_passthrough (s : jsstring) :
  ((forall c, In c s -> oneOf (lit "`#*_~[!>-|") c = false) ->
   cleanMarkdownForSpeech (VString s) = normalizeSpace s) /\
  ((forall c, In c s -> oneOf (lit "`#*_~[!>-|+0123456789") c = false) ->
   extractPlainText (VString s) = normalizeSpace s).
Proof.
  rewrite cleanMarkdownForSpeech_string, extractPlainText_string.
  split; intros Hs.
  - unfold cleanString.
    rewrite (applySteps_active (oneOf (lit "`#*_~[!>-|")) cleanSteps
               ltac:(vm_compute; reflexivity) s Hs).
    change (activeSteps (oneOf (lit "`#*_~[!>-|")) (tplSteps cleanSteps))
      with [(spaces1, tplOf (Text (lit " ")))].
    unfold applyTplSteps. cbn [fold_left fst snd].
    rewrite <- replaceAll_tpl. reflexivity.
  - unfold extractString.
    rewrite (applySteps_active (oneOf (lit "`#*_~[!>-|+0123456789"))
               extractSteps ltac:(vm_compute; reflexivity) s Hs).
    change (activeSteps (oneOf (lit "`#*_~[!>-|+0123456789"))
              (tplSteps extractSteps))
      with [(spaces1, tplOf (Text (lit " ")))].
    unfold applyTplSteps. cbn [fold_left fst snd].
    rewrite <- replaceAll_tpl. reflexivity.
Qed.

(** X16. [hasMarkdownSyntax] is false on every string without any of the
    characters [# * _ ` [ ! > - + ~] and without digits. *)
Theorem hasMarkdownSyntax_plain (s : jsstring) :
  (forall c, In c s -> oneOf (lit "#*_`[!>-+~0123456789") c = false) ->
  hasMarkdownSyntax (VString s) = false.
Proof.
  intros Hs. unfold hasMarkdownSyntax. cbn [stringOf].
  destruct (falsy (VString s)); [reflexivity|].
  destruct (existsb (fun r => test r s) markdownPatterns) eqn:E;
    [|reflexivity].
  apply existsb_exists in E as (r & Hr & Ht).
  assert (Hf : forallb (startsIn (oneOf (lit "#*_`[!>-+~0123456789")))
                 markdownPatterns = true) by (vm_compute; reflexivity).
  rewrite forallb_forall in Hf. unfold test in Ht.
  rewrite (testFrom_startsIn _ r (Hf r Hr) s None Hs) in Ht. discriminate.
Qed.

(** ** [formatForSpeech] after [cleanMarkdownForSpeech] *)

Lemma cleanString_space s c :
  In c (cleanString s) -> isSpace c = true -> c = ch " ".
Proof.
  destruct (cleanString_normal s) as [w ->]. apply normalizeSpace_props.
Qed.

Lemma cleanString_formatFree s c :
  In c (cleanString s) -> oneOf (lit "#*_`" ++ [10%N]) c = false.
Proof.
  intros H. destruct (oneOf (lit "#*_`" ++ [10%N]) c) eqn:E; [|reflexivity].
  exfalso. apply oneOf_In in E. cbn [lit app In] in E.
  pose proof (cleanString_no_marker s c H) as Hm.
  destruct E as [<-|[<-|[<-|[<-|[<-|[]]]]]];
    try (vm_compute in Hm; discriminate).
  apply cleanString_space in H; [discriminate | reflexivity].
Qed.

(** X17. On a text without [#], [*], [_], backquote and line feed,
    [formatForSpeech] is the bullet, numbered item, link and blockquote
    replacements followed by the normalisation of white space: its heading,
    emphasis, code and line break steps do nothing.  This is the case of
    every result of [cleanMarkdownForSpeech], which is how the page calls
    it. *)
Theorem formatForSpeech_after_clean :
  (forall t : jsstring,
     (forall c, In c t -> oneOf (lit "#*_`" ++ [10%N]) c = false) ->
     formatForSpeech (VString t)
       = trim (applyTplSteps formatStepsCleaned t)) /\
  (forall s : jsstring,
     formatForSpeech (VString (cleanMarkdownForSpeech (VString s)))
       = trim (applyTplSteps formatStepsCleaned
                 (cleanMarkdownForSpeech (VString s)))).
Proof.
  assert (H : forall t : jsstring,
     (forall c, In c t -> oneOf (lit "#*_`" ++ [10%N]) c = false) ->
     formatForSpeech (VString t)
       = trim (applyTplSteps formatStepsCleaned t)).
  { intros t Ht. rewrite formatForSpeech_string. unfold formatString.
    rewrite (applyTplSteps_active (oneOf (lit "#*_`" ++ [10%N])) formatSteps
               ltac:(vm_compute; reflexivity) t Ht).
    reflexivity. }
  split; [exact H|]. intros s. apply H.
  rewrite cleanMarkdownForSpeech_string. apply cleanString_formatFree.
Qed.

End TextMoreFacts.

(* ===================================================================== *)
(** * Properties of the WAV encoder                                       *)
(* ===================================================================== *)

Section WavFacts.

Import Wav.

Lemma le16_value d :
  getUint16 (le16 d) 0 = d mod 65536.
Proof.
  unfold getUint16, getUint8, le16. simpl nth.
  pose proof (Z.div_mod d 256 ltac:(lia)).
  pose proof (Z.mod_pos_bound d 256 ltac:(lia)).
  pose proof (Z.mod_pos_bound (d / 256) 256 ltac:(lia)).
  pose proof (Z.div_mod (d / 256) 256 ltac:(lia)).
  apply (Z.mod_unique_pos _ _ (d / 256 / 256)); lia.
Qed.

Lemma le32_value d :
  getUint32 (le32 d) 0 = d mod 4294967296.
Proof.
  unfold getUint32, getUint16, getUint8, le32. simpl nth.
  pose proof (Z.div_mod d 256 ltac:(lia)).
  pose proof (Z.mod_pos_bound d 256 ltac:(lia)).
  pose proof (Z.div_mod (d / 256) 256 ltac:(lia)).
  pose proof (Z.mod_pos_bound (d / 256) 256 ltac:(lia)).
  pose proof (Z.div_mod (d / 65536) 256 ltac:(lia)).
  pose proof (Z.mod_pos_bound (d / 65536) 256 ltac:(lia)).
  pose proof (Z.div_mod (d / 16777216) 256 ltac:(lia)).
  pose proof (Z.mod_pos_bound (d / 16777216) 256 ltac:(lia)).
  assert (d / 65536 = d / 256 / 256) by (rewrite Z.div_div by lia; reflexivity).
  assert (d / 16777216 = d / 65536 / 256) by (rewrite Z.div_div by lia; reflexivity).
  apply (Z.mod_unique_pos _ _ (d / 16777216 / 256)); lia.
Qed.

Lemma sampleBytes_length x : length (sampleBytes x) = 2%nat.
Proof. reflexivity. Qed.

Lemma flat_map_length_const {A B} (f : A -> list B) (n : nat) (l : list A) :
  (forall a, length (f a) = n) ->
  length (flat_map f l) = (length l * n)%nat.
Proof.
  intros Hf. induction l as [|a l IH]; [reflexivity|].
  cbn [flat_map]. rewrite length_app, Hf, IH. simpl. lia.
Qed.

Lemma samples_length b :
  length (samples b) = (frames b * (numberOfChannels b * 2))%nat.
Proof.
  unfold samples.
  rewrite (flat_map_length_const _ (numberOfChannels b * 2)).
  - rewrite length_seq. reflexivity.
  - intros o. rewrite (flat_map_length_const _ 2).
    + rewrite length_seq. reflexivity.
    + intros i. reflexivity.
Qed.

Lemma header_length b : length (header b) = 44%nat.
Proof. reflexivity. Qed.

(** X18. The file built by [audioBufferToWav] has
    [44 + length * numberOfChannels * 2] bytes, each one in 0..255. *)
Theorem wav_length (b : audioBuffer) :
  Z.of_nat (length (audioBufferToWav b)) = fileLength b /\
  Forall (fun x => 0 <= x < 256) (audioBufferToWav b).
Proof.
  split.
  - unfold audioBufferToWav, fileLength.
    rewrite length_app, header_length, samples_length. lia.
  - unfold audioBufferToWav. apply Forall_app. split.
    + unfold header, le32, le16. cbn [app].
      repeat (apply List.Forall_cons; [apply Z.mod_pos_bound; lia|]).
      apply List.Forall_nil.
    + unfold samples. apply List.Forall_forall. intros x Hx.
      apply in_flat_map in Hx as (o & _ & Hx).
      apply in_flat_map in Hx as (i & _ & Hx).
      unfold sampleBytes, le16 in Hx.
      destruct Hx as [<-|[<-|[]]]; apply Z.mod_pos_bound; lia.
Qed.

Lemma le16_sum d :
  d mod 256 + 256 * ((d / 256) mod 256) = d mod 65536.
Proof. exact (le16_value d). Qed.

Lemma le32_sum d :
  d mod 256 + 256 * ((d / 256) mod 256)
  + 65536 * ((d / 65536) mod 256 + 256 * ((d / 16777216) mod 256))
  = d mod 4294967296.
Proof. exact (le32_value d). Qed.

(** X19. The header written by [audioBufferToWav], read back little endian:
    the tags RIFF, WAVE, [fmt ] and [data]; a format chunk of 16 bytes for
    PCM (format 1) with the number of channels, the sample rate, the byte
    rate [sampleRate * 2 * channels], the block size [channels * 2] and 16
    bits per sample; the two sizes, modulo 2^32.  For a file below 2^32
    bytes the RIFF size is the file size less 8 and the data size is the
    number of bytes of the samples. *)
Theorem wav_header (b : audioBuffer) :
  firstn 4 (audioBufferToWav b) = [82; 73; 70; 70] /\
  getUint32 (audioBufferToWav b) 4 = (fileLength b - 8) mod 4294967296 /\
  firstn 8 (skipn 8 (audioBufferToWav b))
    = [87; 65; 86; 69; 102; 109; 116; 32] /\
  getUint32 (audioBufferToWav b) 16 = 16 /\
  getUint16 (audioBufferToWav b) 20 = 1 /\
  getUint16 (audioBufferToWav b) 22
    = Z.of_nat (numberOfChannels b) mod 65536 /\
  getUint32 (audioBufferToWav b) 24 = sampleRate b mod 4294967296 /\
  getUint32 (audioBufferToWav b) 28
    = (sampleRate b * 2 * Z.of_nat (numberOfChannels b)) mod 4294967296 /\
  getUint16 (audioBufferToWav b) 32
    = (Z.of_nat (numberOfChannels b) * 2) mod 65536 /\
  getUint16 (audioBufferToWav b) 34 = 16 /\
  firstn 4 (skipn 36 (audioBufferToWav b)) = [100; 97; 116; 97] /\
  getUint32 (audioBufferToWav b) 40 = (fileLength b - 44) mod 4294967296 /\
  (fileLength b < 4294967296 ->
     getUint32 (audioBufferToWav b) 4 + 8
       = Z.of_nat (length (audioBufferToWav b)) /\
     getUint32 (audioBufferToWav b) 40 = Z.of_nat (length (samples b))).
Proof.
  assert (H4 : getUint32 (audioBufferToWav b) 4
               = (fileLength b - 8) mod 4294967296).
  { unfold audioBufferToWav, header, le32, le16, getUint32, getUint16,
      getUint8. cbn [app Nat.add nth]. apply le32_sum. }
  assert (H40 : getUint32 (audioBufferToWav b) 40
                = (fileLength b - 44) mod 4294967296).
  { unfold audioBufferToWav, header, le32, le16, getUint32, getUint16,
      getUint8. cbn [app Nat.add nth].
    replace (fileLength b - 40 - 4) with (fileLength b - 44) by lia.
    apply le32_sum. }
  repeat split; try reflexivity; try exact H4; try exact H40.
  - unfold audioBufferToWav, header, le32, le16, getUint16, getUint8.
    cbn [app Nat.add nth]. apply le16_sum.
  - unfold audioBufferToWav, header, le32, le16, getUint32, getUint16,
      getUint8. cbn [app Nat.add nth]. apply le32_sum.
  - unfold audioBufferToWav, header, le32, le16, getUint32, getUint16,
      getUint8. cbn [app Nat.add nth]. apply le32_sum.
  - unfold audioBufferToWav, header, le32, le16, getUint16, getUint8.
    cbn [app Nat.add nth]. apply le16_sum.
  - rewrite H4. rewrite (proj1 (wav_length b)).
    assert (44 <= fileLength b) by (unfold fileLength; lia).
    rewrite Z.mod_small by lia. lia.
  - rewrite H40. rewrite samples_length.
    assert (44 <= fileLength b) by (unfold fileLength; lia).
    rewrite Z.mod_small by lia. unfold fileLength. lia.
Qed.

Lemma nth_flat_map_block {A} (f : A -> list Z) (n : nat) (a0 : A) :
  (forall a, length (f a) = n) ->
  forall (l : list A) (k j : nat),
    (k < length l)%nat -> (j < n)%nat ->
    nth (k * n + j) (flat_map f l) 0 = nth j (f (nth k l a0)) 0.
Proof.
  intros Hf. induction l as [|a l IH]; intros k j Hk Hj; [simpl in Hk; lia|].
  cbn [flat_map]. destruct k as [|k].
  - simpl. apply app_nth1. rewrite Hf. exact Hj.
  - rewrite app_nth2 by (rewrite Hf; simpl; lia).
    rewrite Hf. replace (S k * n + j - n)%nat with (k * n + j)%nat
      by (simpl; lia).
    simpl nth. apply IH; [simpl in Hk; lia | exact Hj].
Qed.

Lemma samples_nth (b : audioBuffer) (o i j : nat) :
  (o < frames b)%nat -> (i < numberOfChannels b)%nat -> (j < 2)%nat ->
  nth (2 * (o * numberOfChannels b + i) + j) (samples b) 0
    = nth j (sampleBytes (channelSample b i o)) 0.
Proof.
  intros Ho Hi Hj. unfold samples.
  replace (2 * (o * numberOfChannels b + i) + j)%nat
    with (o * (numberOfChannels b * 2) + (i * 2 + j))%nat by lia.
  rewrite (nth_flat_map_block _ (numberOfChannels b * 2) O).
  - rewrite seq_nth by exact Ho. cbn [Nat.add].
    rewrite (nth_flat_map_block _ 2 O).
    + rewrite seq_nth by exact Hi. reflexivity.
    + intros a. reflexivity.
    + rewrite length_seq. exact Hi.
    + exact Hj.
  - intros a. rewrite (flat_map_length_const _ 2) by reflexivity.
    rewrite length_seq. reflexivity.
  - rewrite length_seq. exact Ho.
  - lia.
Qed.

(** X20. The samples are interleaved: the 16-bit value at byte
    [44 + 2 * (offset * numberOfChannels + i)] is the converted sample
    [offset] of channel [i]. *)
Theorem wav_interleaved (b : audioBuffer) (o i : nat) :
  (o < frames b)%nat -> (i < numberOfChannels b)%nat ->
  getInt16 (audioBufferToWav b) (44 + 2 * (o * numberOfChannels b + i))
    = toInt16 (toInteger (convertSample (channelSample b i o))).
Proof.
  intros Ho Hi. unfold getInt16, toInt16, getUint16, getUint8.
  unfold audioBufferToWav.
  rewrite !app_nth2 by (rewrite header_length; lia).
  rewrite header_length.
  replace (44 + 2 * (o * numberOfChannels b + i) - 44)%nat
    with (2 * (o * numberOfChannels b + i) + 0)%nat by lia.
  replace (44 + 2 * (o * numberOfChannels b + i) + 1 - 44)%nat
    with (2 * (o * numberOfChannels b + i) + 1)%nat by lia.
  rewrite !samples_nth by (assumption || lia).
  unfold sampleBytes, le16. cbn [nth]. rewrite le16_sum. reflexivity.
Qed.

(** ** Saturation of the samples *)

Lemma is_nan_spec x :
  PrimFloat.is_nan x = match Prim2SF x with S754_nan => true | _ => false end.
Proof.
  unfold PrimFloat.is_nan. rewrite FloatAxioms.eqb_spec. unfold SFeqb.
  destruct (Prim2SF x) as [s|s| |s m e]; simpl; try reflexivity.
  - destruct s; reflexivity.
  - rewrite Z.compare_refl, Pos.compare_cont_refl. destruct s; reflexivity.
Qed.

Lemma SFcompare_finite_eq s m1 e1 m2 e2 :
  SFcompare (S754_finite s m1 e1) (S754_finite s m2 e2) = Some Eq ->
  m1 = m2 /\ e1 = e2.
Proof.
  simpl. destruct s; destruct (e1 ?= e2) eqn:E; try discriminate;
    apply Z.compare_eq in E; intros H; injection H as H;
    [apply (f_equal CompOpp) in H; rewrite CompOpp_involutive in H;
     simpl in H|];
    apply Pos.compare_eq in H; auto.
Qed.

Lemma Math_min_one x :
  (1 <=? x)%float = true -> VAD.Math_min 1 x = 1%float.
Proof.
  rewrite FloatAxioms.leb_spec. unfold SFleb.
  change (Prim2SF 1) with (S754_finite false 4503599627370496 (-52)).
  intros H. unfold VAD.Math_min.
  change (PrimFloat.is_nan 1) with false.
  rewrite is_nan_spec, !FloatAxioms.ltb_spec. unfold SFltb.
  change (Prim2SF 1) with (S754_finite false 4503599627370496 (-52)).
  change (PrimFloat.get_sign 1) with false. cbv iota.
  destruct (Prim2SF x) as [s|s| |s m e] eqn:Ex; try discriminate.
  - destruct s; [discriminate | reflexivity].
  - destruct s; [discriminate|]. simpl orb. cbv iota.
    destruct (SFcompare (S754_finite false 4503599627370496 (-52))
                (S754_finite false m e)) as [[| |]|] eqn:Ec;
      try discriminate; [|reflexivity].
    rewrite (SFcompare_antisym _ _ _ _ _ Ec). simpl.
    apply SFcompare_finite_eq in Ec as [<- <-].
    apply Prim2SF_inj. rewrite Ex. reflexivity.
Qed.

Lemma SFcompare_antisym_neg m1 e1 m2 e2 c :
  SFcompare (S754_finite true m1 e1) (S754_finite true m2 e2) = Some c ->
  SFcompare (S754_finite true m2 e2) (S754_finite true m1 e1)
    = Some (CompOpp c).
Proof.
  simpl. intros H. injection H as <-. f_equal.
  rewrite (Z.compare_antisym e1 e2).
  destruct (e1 ?= e2); simpl; try reflexivity.
  rewrite CompOpp_involutive, Pos.compare_cont_antisym. reflexivity.
Qed.

Lemma Math_max_min_neg x :
  (x <=? -1)%float = true ->
  Math_max (-1) (VAD.Math_min 1 x) = (-1)%float.
Proof.
  rewrite FloatAxioms.leb_spec. unfold SFleb.
  change (Prim2SF (-1)) with (S754_finite true 4503599627370496 (-52)).
  intros H.
  assert (Hmin : VAD.Math_min 1 x = x).
  { unfold VAD.Math_min. change (PrimFloat.is_nan 1) with false.
    rewrite is_nan_spec, !FloatAxioms.ltb_spec. unfold SFltb.
    change (Prim2SF 1) with (S754_finite false 4503599627370496 (-52)).
    destruct (Prim2SF x) as [s|s| |s m e]; try discriminate;
      destruct s; try discriminate; reflexivity. }
  rewrite Hmin. unfold Math_max.
  change (PrimFloat.is_nan (-1)) with false.
  rewrite is_nan_spec, !FloatAxioms.ltb_spec. unfold SFltb.
  change (Prim2SF (-1)) with (S754_finite true 4503599627370496 (-52)).
  change (PrimFloat.get_sign (-1)) with true. cbv iota.
  destruct (Prim2SF x) as [s|s| |s m e] eqn:Ex; try discriminate.
  - destruct s; [reflexivity | discriminate].
  - destruct s; [|discriminate]. simpl orb. cbv iota.
    destruct (SFcompare (S754_finite true m e)
                (S754_finite true 4503599627370496 (-52)))
      as [[| |]|] eqn:Ec; try discriminate.
    + rewrite (SFcompare_antisym_neg _ _ _ _ _ Ec). simpl.
      apply SFcompare_finite_eq in Ec as [-> ->].
      apply Prim2SF_inj. rewrite Ex. reflexivity.
    + rewrite (SFcompare_antisym_neg _ _ _ _ _ Ec). reflexivity.
Qed.

(** X21. The conversion of a sample saturates: a sample of 1 or more is
    stored as 32767, a sample of -1 or less as -32768, and a sample that is
    NaN (a missing sample) as 0. *)
Theorem sample_saturation (x : float) :
  ((1 <=? x)%float = true -> toInteger (convertSample x) = 32767) /\
  ((x <=? -1)%float = true -> toInteger (convertSample x) = -32768) /\
  (PrimFloat.is_nan x = true ->
     toInteger (convertSample x) = 0 /\ sampleBytes x = [0; 0]).
Proof.
  split; [|split].
  - intros H. unfold convertSample. rewrite (Math_min_one x H).
    vm_compute. reflexivity.
  - intros H. unfold convertSample. rewrite (Math_max_min_neg x H).
    vm_compute. reflexivity.
  - intros H.
    assert (E : convertSample x = PrimFloat.nan).
    { unfold convertSample, VAD.Math_min. rewrite H, orb_true_r.
      vm_compute. reflexivity. }
    unfold sampleBytes. rewrite E. split; vm_compute; reflexivity.
Qed.

End WavFacts.

(* ===================================================================== *)
(** * The further properties at concrete inputs                           *)
(* ===================================================================== *)

(** A conversation that has just been started is active and carries its
    identifier. *)
Lemma session_fields_coherent_witness :
  Conversation.mode
    (Conversation.conversationReducer 1 Conversation.initialState
       (Conversation.START_CONVERSATION None None))
  = Conversation.CONVERSATIONAL.
Proof.
  refine (proj1 (proj1 (session_fields_coherent
            (Conversation.conversationReducer 1 Conversation.initialState
               (Conversation.START_CONVERSATION None None)) _)) eq_refl).
  apply Conversation.reach_step; [apply Conversation.reach_init|].
  reflexivity.
Defined.

(** An error reported without a message. *)
Lemma error_state_has_message_witness :
  exists msg,
    Conversation.error
      (Conversation.conversationReducer 1 Conversation.initialState
         (Conversation.ERROR_OCCURRED None)) = Some msg /\
    msg <> EmptyString.
Proof.
  refine (error_state_has_message
            (Conversation.conversationReducer 1 Conversation.initialState
               (Conversation.ERROR_OCCURRED None)) _ eq_refl).
  apply Conversation.reach_step; [apply Conversation.reach_init|].
  reflexivity.
Defined.

(** Two exchanges in a second conversation, after one in the first. *)
Lemma exchangeCount_counts_witness :
  Conversation.exchangeCount
    (Conversation.run Conversation.initialState
       ([(1, Conversation.START_CONVERSATION None None);
         (2, Conversation.START_SPEAKING);
         (3, Conversation.END_CONVERSATION)] ++
        (4, Conversation.START_CONVERSATION None None) ::
        [(5, Conversation.START_SPEAKING);
         (6, Conversation.FINISH_SPEAKING);
         (7, Conversation.START_SPEAKING)]))
  = 2.
Proof.
  refine (proj2 (exchangeCount_counts Conversation.initialState
            [(1, Conversation.START_CONVERSATION None None);
             (2, Conversation.START_SPEAKING);
             (3, Conversation.END_CONVERSATION)]
            [(5, Conversation.START_SPEAKING);
             (6, Conversation.FINISH_SPEAKING);
             (7, Conversation.START_SPEAKING)]
            4 None None _)).
  reflexivity.
Defined.

(** With at most one exchange allowed, two calls of [startSpeaking] in the
    first render count two exchanges. *)
Lemma startSpeaking_limit_per_render_witness :
  Conversation.exchangeCount
    (Conversation.callsInRender
       (Conversation.mkConfig true 5000 300000 1)
       Conversation.initialState
       [(1, Conversation.CallStartSpeaking);
        (2, Conversation.CallStartSpeaking)]
       Conversation.initialState) = 2.
Proof.
  exact (proj1 (proj2 (startSpeaking_limit_per_render
           (Conversation.mkConfig true 5000 300000 1)
           Conversation.initialState [1; 2]
           (ex_intro _ [Conversation.initialState]
              (Conversation.hook_init _))
           eq_refl))).
Defined.

(** An interruption while speaking. *)
Lemma handleInterrupt_speaking_only_witness :
  fst (Conversation.handleInterrupt
         (Conversation.mkConfig true 5000 300000 50) 3
         (fst (Conversation.callHook
                 (Conversation.mkConfig true 5000 300000 50) 2
                 Conversation.CallStartSpeaking
                 Conversation.initialState)))
  = Conversation.conversationReducer 3
      (fst (Conversation.callHook
              (Conversation.mkConfig true 5000 300000 50) 2
              Conversation.CallStartSpeaking
              Conversation.initialState))
      Conversation.INTERRUPT_SPEAKING.
Proof.
  refine (proj1 (proj1 (handleInterrupt_speaking_only
            (Conversation.mkConfig true 5000 300000 50) 3
            (fst (Conversation.callHook
                    (Conversation.mkConfig true 5000 300000 50) 2
                    Conversation.CallStartSpeaking
                    Conversation.initialState)) _) eq_refl)).
  exists [Conversation.initialState].
  exact (Conversation.hook_call _ [Conversation.initialState]
           Conversation.initialState Conversation.initialState 2
           Conversation.CallStartSpeaking (Conversation.hook_init _)
           (or_introl eq_refl)).
Defined.

(** The duration reported after a speech of 700 ms. *)
Lemma reported_durations_witness :
  VAD.minSpeechDuration VAD.normal <= 700 \/
  VAD.maxSpeechDuration VAD.normal < 700.
Proof.
  refine (reported_durations VAD.normal
            [ VAD.mkFrame (repeat Byte.xff 16) 1000 1000;
              VAD.mkFrame (repeat Byte.xff 16) 1600 1600;
              VAD.mkFrame (repeat Byte.x00 16) 1700 1700;
              VAD.mkFrame (repeat Byte.x00 16) 3300 3301 ]
            VAD.started 700 _ _).
  - repeat (apply List.Forall_cons;
            [split; [discriminate | vm_compute; discriminate]|]).
    apply List.Forall_nil.
  - vm_compute. do 5 right. left. reflexivity.
Defined.

(** Prose without markup. *)
Lemma hasMarkdownSyntax_plain_witness :
  Text.hasMarkdownSyntax (Text.VString (Text.lit "see you")) = false.
Proof.
  refine (hasMarkdownSyntax_plain (Text.lit "see you") _).
  intros c Hc. cbn [Text.lit In] in Hc.
  repeat (destruct Hc as [<-|Hc]; [reflexivity|]). destruct Hc.
Defined.

Lemma plain_text_passthrough_witness :
  Text.cleanMarkdownForSpeech (Text.VString (Text.lit " see  you "))
  = Text.normalizeSpace (Text.lit " see  you ").
Proof.
  refine (proj1 (plain_text_passthrough (Text.lit " see  you ")) _).
  intros c Hc. cbn [Text.lit In] in Hc.
  repeat (destruct Hc as [<-|Hc]; [reflexivity|]). destruct Hc.
Defined.

(** Two channels of two frames: the last sample of the file is the second
    sample of the second channel. *)
Lemma wav_interleaved_witness :
  Wav.getInt16
    (Wav.audioBufferToWav
       (Wav.mkBuffer 44100 2 [[0.5%float; (-0.25)%float];
                              [1%float; (-1)%float]]))
    50
  = Wav.toInt16 (Wav.toInteger (Wav.convertSample (-1)%float)).
Proof.
  refine (wav_interleaved
            (Wav.mkBuffer 44100 2 [[0.5%float; (-0.25)%float];
                                   [1%float; (-1)%float]])
            1 1 _ _); unfold Wav.numberOfChannels; simpl; lia.
Defined.

Lemma sample_saturation_witness :
  Wav.toInteger (Wav.convertSample 1.5%float) = 32767 /\
  Wav.toInteger (Wav.convertSample (-2)%float) = -32768.
Proof.
  split.
  - refine (proj1 (sample_saturation 1.5%float) _). vm_compute. reflexivity.
  - refine (proj1 (proj2 (sample_saturation (-2)%float)) _).
    vm_compute. reflexivity.
Defined.

(** A file of two channels and two frames, and some of its samples. *)
Example wav_small_file :
  Wav.audioBufferToWav
    (Wav.mkBuffer 44100 2 [[0.5%float; (-0.25)%float];
                           [1%float; (-1)%float]])
  = [82; 73; 70; 70; 44; 0; 0; 0; 87; 65; 86; 69;
     102; 109; 116; 32; 16; 0; 0; 0; 1; 0; 2; 0;
     68; 172; 0; 0; 16; 177; 2; 0; 4; 0; 16; 0;
     100; 97; 116; 97; 8; 0; 0; 0;
     255; 63; 255; 127; 0; 224; 0; 128].
Proof. vm_compute. reflexivity. Qed.

(** The two functions the page chains, on a bulleted line. *)
Example format_after_clean_example :
  Text.formatForSpeech
    (Text.VString
       (Text.cleanMarkdownForSpeech (Text.VString (Text.lit "- **two** `x`"))))
  = Text.lit "Item: two x.".
Proof. vm_compute. reflexivity. Qed.
